(** * djl_python.streaming_utils: token streaming for HuggingFace models

    A shallow embedding of [streaming_utils.py] (classes [HFStreamer] and
    [StreamingUtils]) together with the properties its specification states
    about decoding-method selection, the stopping criterion, input
    validation, sampling, engine selection and the queue-backed streamer.

    Conventions of the embedding.
    - Python values that travel through [**kwargs] are the type [PyVal];
      a finite float is represented by its exact rational value.
    - A Python call that may raise returns [PyResult]; the exception class
      (and, where the module itself writes it, its message) is kept.
    - The tensor library, the logits processors, the tokenizer and the model
      are external: their operations are the fields of the classes [Torch],
      [Transformers] and [Backend], and every definition and theorem is
      parametric in them.
    - Mutable objects (the model, the tokenizer, torch's default random
      generator, the log) live in a [World] that is threaded through the
      generator; [assert] statements are enabled. *)

From Stdlib Require Import ZArith QArith Qround Ascii String List Bool Lia.
From stdpp Require Import base gmap strings list.

Local Open Scope string_scope.
Local Open Scope Z_scope.
Local Open Scope list_scope.

(** ** Python values and exceptions *)

Inductive PyVal : Type :=
| VNone
| VBool (b : bool)
| VInt (z : Z)
| VFloat (q : Q)
| VStr (s : string).

Inductive PyExc : Type :=
| NotImplementedError (msg : string)
| ValueError (msg : string)
| AssertionError (msg : string)
| TypeError
| IndexError
| RuntimeError
| AttributeError.

Inductive PyResult (A : Type) : Type :=
| Ok (a : A)
| Raise (e : PyExc).
Arguments Ok {A} a.
Arguments Raise {A} e.

Definition pbind {A B} (r : PyResult A) (k : A -> PyResult B) : PyResult B :=
  match r with
  | Ok a => k a
  | Raise e => Raise e
  end.

Notation "x <-? r ; k" := (pbind r (fun x => k))
  (at level 100, r at next level, right associativity, only parsing).

(** [bool] is a subclass of [int]; numbers compare by value across
    [bool], [int] and [float]. *)
Definition as_number (v : PyVal) : option Q :=
  match v with
  | VBool b => Some (inject_Z (if b then 1 else 0))
  | VInt z => Some (inject_Z z)
  | VFloat q => Some q
  | VNone | VStr _ => None
  end.

Definition Qlt_bool (x y : Q) : bool := negb (Qle_bool y x).

(** [v > c], [v < c] and [v >= c] against a number [c]: ordering a
    non-number against a number raises [TypeError]. *)
Definition py_gt (v : PyVal) (c : Q) : PyResult bool :=
  match as_number v with
  | Some x => Ok (Qlt_bool c x)
  | None => Raise TypeError
  end.

Definition py_lt (v : PyVal) (c : Q) : PyResult bool :=
  match as_number v with
  | Some x => Ok (Qlt_bool x c)
  | None => Raise TypeError
  end.

(** [c >= v] for an [int] [c] on the left. *)
Definition py_int_ge (c : Z) (v : PyVal) : PyResult bool :=
  match as_number v with
  | Some x => Ok (Qle_bool x (inject_Z c))
  | None => Raise TypeError
  end.

(** [v != c] never raises: a non-number differs from every number. *)
Definition py_ne (v : PyVal) (c : Q) : bool :=
  match as_number v with
  | Some x => negb (Qeq_bool x c)
  | None => true
  end.

(** Truth value of an object, as tested by [if] and [and]. *)
Definition truthy (v : PyVal) : bool :=
  match v with
  | VNone => false
  | VBool b => b
  | VInt z => negb (Z.eqb z 0)
  | VFloat q => negb (Qeq_bool q 0)
  | VStr s => negb (String.eqb s "")
  end.

(** [k in kwargs] *)
Definition has_key (k : string) (kw : gmap string PyVal) : bool :=
  match kw !! k with
  | Some _ => true
  | None => false
  end.

(** ** StreamingUtils: class constants *)

Definition DEFAULT_MAX_NEW_TOKENS : Z := 50.

Definition SUPPORTED_MODEL_ARCH_SUFFIXES_CAUSAL_LM : list string :=
  ["CausalLM"; "GPT2LMHeadModel"].

Definition SUPPORTED_MODEL_ARCH_SUFFIXES_SEQ_2_SEQ_LM : list string :=
  ["T5ForConditionalGeneration"].

Definition SUPPORTED_MODEL_ARCH_SUFFIXES : list string :=
  SUPPORTED_MODEL_ARCH_SUFFIXES_CAUSAL_LM ++ SUPPORTED_MODEL_ARCH_SUFFIXES_SEQ_2_SEQ_LM.

Definition BUILTIN_ENGINES : gset string :=
  {[ "DeepSpeed"; "Accelerate"; "transformers-neuronx" ]}.

(** ** get_stream_generator *)

(** The only generator function the class hands out. *)
Inductive StreamGenerator : Type :=
| hf_model_stream_generator.

Definition get_stream_generator (execution_engine : string) : PyResult StreamGenerator :=
  if bool_decide (execution_engine ∈ BUILTIN_ENGINES)
  then Ok hf_model_stream_generator
  else Raise (ValueError (String.append execution_engine " engine is not supported for streaming")).

(** ** _get_decoding_method *)

Inductive DecodingMethod : Type :=
| greedy_decoding
| sampling_decoding.

Definition SAMPLING_PARAMS : list string :=
  ["temperature"; "top_p"; "top_k"; "typical_p"].

Definition _get_decoding_method (kw : gmap string PyVal) : PyResult DecodingMethod :=
  beam <-? match kw !! "beam_size" with
           | Some v => py_gt v 1
           | None => Ok false
           end;
  if beam then Raise (NotImplementedError "beam search is not supported yet!")
  else if existsb (fun param => has_key param kw) SAMPLING_PARAMS
  then Ok sampling_decoding
  else if match kw !! "do_sample" with
          | Some v => truthy v
          | None => false
          end
  then Ok sampling_decoding
  else Ok greedy_decoding.

(** ** External collaborators

    [torch], [transformers] and the model are not part of the module; the
    embedding is parametric in them.  A [Logits] is one entry of
    [outputs.logits] (shape [(seq, vocab)]), a [Scores] its last step
    [logits[-1:, :]], a [Generator] the state of a torch random generator.
    Calls that check their argument return the exception they raise for
    one they refuse: [manual_seed], the creation of a tensor, the
    constructors of the logits processors, and the two conversions of
    Python's [float] that depend on the doubles of the platform;
    [multinomial] checks the tensor it is to draw from. The other
    operations on tensors that were built ([argmax], [softmax], the
    processors' [__call__]) return. *)

Class Torch : Type := {
  Logits : Type;
  Scores : Type;
  Probs : Type;
  Generator : Type;
  KV : Type;
  Hidden : Type;
  Prepared : Type;
  ModelState : Type;
  last_scores : Logits -> Scores;
  argmax : Scores -> Z;
  softmax : Scores -> Probs;
  (** [torch.multinomial(probs, num_samples=1, generator=g)]: the drawn
      index and the advanced generator state. *)
  multinomial : Probs -> Generator -> Z * Generator;
  (** The check [torch.multinomial] makes before it draws: the exception
      raised for a tensor that is no distribution (an entry that is
      negative, infinite or NaN, a sum of zero), [None] for one it
      accepts. *)
  draw_error : Probs -> option PyExc;
  (** [generator.manual_seed(v)] on a fresh [torch.Generator]: the seeded
      state, or the exception torch raises for a seed it refuses (a value
      that is not an [int], an [int] outside its 64-bit range). *)
  manual_seed : PyVal -> PyResult Generator;
  (** [float(s)] for a [str] argument: the number, or the [ValueError]
      raised with its message (a [PyVal] holds finite floats: the strings
      that denote an infinity or a NaN are not covered). *)
  float_of_str : string -> PyResult Q;
  (** [float(n)] for an [int] argument: the nearest double, or the
      exception raised for an [int] too large for one. *)
  float_of_int : Z -> PyResult Q;
  (** Creating a [rows x cols] integer tensor: the exception raised when
      the size does not fit torch's 64-bit sizes or the memory at hand,
      [None] when the tensor can be created. *)
  alloc_error : nat -> Z -> option PyExc;
}.

(** The logits processors of [transformers], as the objects the module
    constructs. The constructors check their argument: [processor_error] is
    the exception raised for an argument they refuse (a [ValueError], for
    instance for a temperature that is not strictly positive), [None] for
    one they accept; [call_processor] is the [__call__] of the object. *)
Inductive LogitsProcessor : Type :=
| RepetitionPenaltyLogitsProcessor (penalty : PyVal)
| TemperatureLogitsWarper (temperature : Q)
| TopPLogitsWarper (top_p : PyVal)
| TopKLogitsWarper (top_k : PyVal)
| TypicalLogitsWarper (mass : PyVal).

Class Transformers `{Torch} : Type := {
  processor_error : LogitsProcessor -> option PyExc;
  call_processor : LogitsProcessor -> list Z -> Scores -> Scores;
}.

Section Decoding.
Context `{TF : Transformers}.

(** [LogitsProcessorList.__call__]: every processor in list order. *)
Definition call_processors (processors : list LogitsProcessor)
    (input_ids : list Z) (scores : Scores) : Scores :=
  fold_left (fun sc p => call_processor p input_ids sc) processors scores.

(** [float(v)] *)
Definition py_float (v : PyVal) : PyResult Q :=
  match v with
  | VNone => Raise TypeError
  | VStr s => float_of_str s
  | VInt z => float_of_int z
  | VBool b => Ok (inject_Z (if b then 1 else 0))
  | VFloat q => Ok q
  end.

(** [processors.append(p)] when [cond], in a chain of [if] statements,
    [p] being a constructor call: the constructor runs first and may
    raise. *)
Definition append_if (cond : bool) (p : LogitsProcessor)
    (processors : list LogitsProcessor) : PyResult (list LogitsProcessor) :=
  if cond
  then match processor_error p with
       | Some e => Raise e
       | None => Ok (processors ++ [p])
       end
  else Ok processors.

Definition greedy_processors (kw : gmap string PyVal)
    : PyResult (list LogitsProcessor) :=
  let processors := [] in
  match kw !! "repetition_penalty" with
  | Some v => append_if (py_ne v 1) (RepetitionPenaltyLogitsProcessor v) processors
  | None => Ok processors
  end.

(** The write-back [logits[-1:, :] = processors(...)] followed by the read
    [logits[-1]] yields the processed scores. *)
Definition _greedy_decoding (logits : Logits) (input_ids : list Z)
    (kw : gmap string PyVal) : PyResult Z :=
  processors <-? greedy_processors kw;
  Ok (argmax (call_processors processors input_ids (last_scores logits))).

Definition sampling_processors (kw : gmap string PyVal) : PyResult (list LogitsProcessor) :=
  let processors := [] in
  processors <-? match kw !! "repetition_penalty" with
                 | Some v =>
                     append_if (py_ne v 1) (RepetitionPenaltyLogitsProcessor v) processors
                 | None => Ok processors
                 end;
  processors <-? match kw !! "temperature" with
                 | Some v =>
                     if py_ne v 1
                     then t <-? py_float v;
                          append_if true (TemperatureLogitsWarper t) processors
                     else Ok processors
                 | None => Ok processors
                 end;
  processors <-? match kw !! "top_p" with
                 | Some v => c <-? py_lt v 1; append_if c (TopPLogitsWarper v) processors
                 | None => Ok processors
                 end;
  processors <-? match kw !! "top_k" with
                 | Some v => append_if (py_ne v 0) (TopKLogitsWarper v) processors
                 | None => Ok processors
                 end;
  match kw !! "typical_p" with
  | Some v => c <-? py_lt v 1; append_if c (TypicalLogitsWarper v) processors
  | None => Ok processors
  end.

(** [generator = torch.Generator(...)] followed by
    [generator.manual_seed(v)]. *)
Definition seeded_generator (v : PyVal) : PyResult Generator := manual_seed v.

(** [torch.multinomial(probs, num_samples=1, generator=g)]: the tensor is
    checked, then one index is drawn and the generator advances. *)
Definition draw (probs : Probs) (g : Generator) : PyResult Z * Generator :=
  match draw_error probs with
  | Some e => (Raise e, g)
  | None => let '(token, g') := multinomial probs g in (Ok token, g')
  end.

(** [global_rng] is the state of torch's default generator, which a
    [torch.multinomial] call without [generator=] draws from and advances.
    The generator created in the function is local to the call. *)
Definition _sampling_decoding (logits : Logits) (input_ids : list Z)
    (kw : gmap string PyVal) (global_rng : Generator) : PyResult Z * Generator :=
  match sampling_processors kw with
  | Raise e => (Raise e, global_rng)
  | Ok processors =>
      let scores := call_processors processors input_ids (last_scores logits) in
      let probs := softmax scores in
      let seeded :=
        match kw !! "manual_seed" with
        | Some v =>
            generator <-? seeded_generator v;
            _ <-? (draw probs generator).1;
            Ok tt
        | None => Ok tt
        end in
      match seeded with
      | Raise e => (Raise e, global_rng)
      | Ok _ => draw probs global_rng
      end
  end.

Definition call_decoding_method (m : DecodingMethod) (logits : Logits)
    (input_ids : list Z) (kw : gmap string PyVal) (global_rng : Generator)
    : PyResult Z * Generator :=
  match m with
  | greedy_decoding => (_greedy_decoding logits input_ids kw, global_rng)
  | sampling_decoding => _sampling_decoding logits input_ids kw global_rng
  end.

End Decoding.

(** ** Models, tokenizers and the objects a generator run touches *)

Record ModelConfig : Type := {
  architectures : option (list string);
  decoder_start_token_id : option Z;
}.

(** The special tokens of a tokenizer; the vocabulary itself is external. *)
Record Tokenizer : Type := {
  pad_token : option string;
  eos_token : option string;
  bos_token_id : option Z;
}.

(** The [inputs] argument: a list of prompts, or any other object. *)
Inductive PyInputs : Type :=
| InputList (prompts : list string)
| InputOther (v : PyVal).

(** [tokenizer(inputs, return_tensors="pt", padding=True)] *)
Record TokenizedInputs : Type := {
  tk_input_ids : list (list Z);
  tk_attention_mask : list (list Z);
}.

Section Objects.
Context `{T : Torch}.

Record Model : Type := {
  config : ModelConfig;
  state : ModelState;
}.

Record Outputs : Type := {
  logits : list Logits;
  out_past_key_values : KV;
  out_encoder_last_hidden_state : Hidden;
}.

(** The keyword arguments of the three shapes of [model.forward] call. *)
Inductive ForwardArgs : Type :=
| CausalArgs (input_ids : option (list (list Z))) (attention_mask : list (list Z))
    (past_key_values : option KV)
| NeuronArgs (prepared : Prepared)
| Seq2SeqArgs (input_ids : option (list (list Z))) (attention_mask : list (list Z))
    (decoder_input_ids : list (list Z)) (encoder_outputs : option (list Hidden))
    (past_key_values : option KV).

End Objects.

Class Backend `{Torch} : Type := {
  tokenize : Tokenizer -> list string -> TokenizedInputs;
  batch_decode : Tokenizer -> list (list Z) -> list string;
  convert_tokens_to_ids : string -> Z;
  forward : ModelState -> ForwardArgs -> Outputs * ModelState;
  reset_generation : ModelState -> ModelState;
  prepare_inputs_for_generation :
    ModelState -> option (list (list Z)) -> list (list Z) -> option KV -> Prepared;
}.

(** ** Input validation and model class *)

(** [s.endswith(suffix)] and [s.endswith(tuple)] *)
Definition endswith (s suffix : string) : bool :=
  let n := String.length s in
  let m := String.length suffix in
  (m <=? n)%nat && String.eqb (substring (n - m) m s) suffix.

Definition endswith_any (s : string) (suffixes : list string) : bool :=
  existsb (endswith s) suffixes.

(** [not x] for a list-or-[None] attribute *)
Definition list_falsy {A} (o : option (list A)) : bool :=
  match o with
  | None | Some [] => true
  | Some (_ :: _) => false
  end.

(** [not x] for a string-or-[None] attribute *)
Definition str_falsy (o : option string) : bool :=
  match o with
  | None => true
  | Some s => String.eqb s ""
  end.

(** Rendering of a list of plain names inside an f-string. *)
Definition double_quote : ascii := ascii_of_nat 34.

Definition backslash : ascii := ascii_of_nat 92.

Definition hex_digit (n : nat) : ascii :=
  nth n (list_ascii_of_string "0123456789abcdef") "0"%char.

(** [c.isprintable()] for a character below 256 *)
Definition isprintable (c : ascii) : bool :=
  let n := nat_of_ascii c in
  ((32 <=? n) && (n <? 127) || (161 <=? n) && negb (n =? 173))%nat.

(** One character inside [repr(s)], [quote] being the quote chosen. *)
Definition repr_char (quote c : ascii) : string :=
  let n := nat_of_ascii c in
  let escaped (x : ascii) := String backslash (String x EmptyString) in
  if Ascii.eqb c backslash then escaped backslash
  else if Ascii.eqb c quote then escaped c
  else if (n =? 9)%nat then escaped "t"%char
  else if (n =? 10)%nat then escaped "n"%char
  else if (n =? 13)%nat then escaped "r"%char
  else if isprintable c then String c EmptyString
  else String backslash (String "x"%char
         (String (hex_digit (n / 16)) (String (hex_digit (n mod 16)) EmptyString))).

(** [repr(s)] for a [str] of characters below 256: single quotes, unless
    the string holds a single quote and no double quote. *)
Definition repr_str (s : string) : string :=
  let chars := list_ascii_of_string s in
  let quote :=
    if existsb (Ascii.eqb "'"%char) chars && negb (existsb (Ascii.eqb double_quote) chars)
    then double_quote else "'"%char in
  String quote
    (String.append (String.concat "" (map (repr_char quote) chars))
       (String quote EmptyString)).

(** [repr] of a list of [str], as an f-string formats it *)
Definition repr_names (l : list string) : string :=
  String.append "[" (String.append (String.concat ", " (map repr_str l)) "]").

Definition SUFFIXES_REPR : string :=
  "('CausalLM', 'GPT2LMHeadModel', 'T5ForConditionalGeneration')".

Definition WARN_NO_ARCH_SUPPORTED : string :=
  String.append
    "Model config does not contain architectures field. Supported architectures: *"
    SUFFIXES_REPR.

Definition WARN_NO_ARCH_ASSUME : string :=
  "Model config does not contain architectures field. Assuming it is CausalLM type".

Definition MSG_EMPTY_INPUT : string := "[ERROR] empty input list".

Definition MSG_NOT_A_LIST : string :=
  "inputs to stream generator must be a list of strings".

Definition msg_unsupported_arch (model_arch_list : list string) : string :=
  String.append "model archs: " (String.append (repr_names model_arch_list)
    (String.append " is not in supported list: *" SUFFIXES_REPR)).

(** Both functions only read [model.config] and write to the log; they
    return the outcome together with the warnings emitted. *)
Definition _validate_inputs (cfg : ModelConfig) (inputs : PyInputs)
    : PyResult unit * list string :=
  let '(checked, warnings) :=
    if list_falsy (architectures cfg)
    then (Ok tt, [WARN_NO_ARCH_SUPPORTED])
    else
      let model_arch_list := default [] (architectures cfg) in
      let model_arch_supported :=
        existsb (fun model_arch => endswith_any model_arch SUPPORTED_MODEL_ARCH_SUFFIXES)
                model_arch_list in
      if negb model_arch_supported
      then (Raise (AssertionError (msg_unsupported_arch model_arch_list)), [])
      else (Ok tt, []) in
  match checked with
  | Raise e => (Raise e, warnings)
  | Ok _ =>
      match inputs with
      | InputList prompts =>
          if (1 <=? length prompts)%nat then (Ok tt, warnings)
          else (Raise (AssertionError MSG_EMPTY_INPUT), warnings)
      | InputOther _ => (Raise (AssertionError MSG_NOT_A_LIST), warnings)
      end
  end.

Inductive GenericModelClass : Type :=
| CausalLM
| Seq2SeqLM.

Definition _get_generic_model_class (cfg : ModelConfig)
    : GenericModelClass * list string :=
  if list_falsy (architectures cfg)
  then (CausalLM, [WARN_NO_ARCH_ASSUME])
  else
    let model_arch_list := default [] (architectures cfg) in
    if existsb (fun model_arch =>
                  endswith_any model_arch SUPPORTED_MODEL_ARCH_SUFFIXES_SEQ_2_SEQ_LM)
               model_arch_list
    then (Seq2SeqLM, [])
    else (CausalLM, []).

(** ** Tensor helpers

    A 2-D integer tensor is the list of its rows; a [(batch, 1)] tensor is
    kept as the list of its entries and turned into rows by [column]. *)

Definition column (v : list Z) : list (list Z) := map (fun x => [x]) v.

(** [t.shape[1]] *)
Definition width (t : list (list Z)) : nat := length (default [] (head t)).

(** [t.sum()] *)
Definition tensor_sum (v : list Z) : Z := fold_right Z.add 0 v.

(** [t.new_zeros(rows, cols)]: a size torch cannot take or allocate is
    refused with torch's exception, a negative dimension with
    [RuntimeError]. *)
Definition new_zeros `{Torch} (rows : nat) (cols : Z) : PyResult (list (list Z)) :=
  match alloc_error rows cols with
  | Some e => Raise e
  | None =>
      if cols <? 0 then Raise RuntimeError
      else Ok (replicate rows (replicate (Z.to_nat cols) 0))
  end.

(** Broadcasting of one dimension: equal sizes, or size one repeated. *)
Definition expand {A} (n : nat) (l : list A) : option (list A) :=
  if (length l =? n)%nat then Some l
  else match l with
       | [x] => Some (replicate n x)
       | _ => None
       end.

(** [t[:, :n] = x] for a scalar [x]; the slice stops at the tensor's width. *)
Definition assign_prefix_scalar (t : list (list Z)) (n : nat) (x : Z) : list (list Z) :=
  map (fun row => replicate (min n (length row)) x ++ drop n row) t.

(** [t[:, :n] = src] for a tensor [src], which must broadcast to the slice. *)
Definition assign_prefix_tensor (t : list (list Z)) (n : nat) (src : list (list Z))
    : PyResult (list (list Z)) :=
  match expand (length t) src with
  | None => Raise RuntimeError
  | Some src_rows =>
      match mapM (fun '(row, src_row) =>
                    (fun s => s ++ drop n row) <$> expand (min n (length row)) src_row)
                 (zip t src_rows) with
      | Some t' => Ok t'
      | None => Raise RuntimeError
      end
  end.

(** [t[:, j] = x]: the column must exist. *)
Definition assign_column (t : list (list Z)) (j : nat) (x : Z) : PyResult (list (list Z)) :=
  if (j <? width t)%nat then Ok (map (fun row => <[j := x]> row) t)
  else Raise IndexError.

(** ** _has_met_stopping_criteria *)

(** [or] short-circuits: the comparison with [max_new_tokens] is evaluated
    only when some entry is non-zero. *)
Definition _has_met_stopping_criteria (not_eos_token_ids : list Z)
    (current_token_count : Z) (max_new_tokens : PyVal) : PyResult bool :=
  if tensor_sum not_eos_token_ids =? 0 then Ok true
  else
    reached <-? py_int_ge current_token_count max_new_tokens;
    if reached then Ok true else Ok false.

(** ** The stream generator *)

(** External calls a run performs, in order. *)
Inductive Call : Type :=
| CallTokenizer
| CallResetGeneration
| CallPrepareInputs
| CallForward
| CallBatchDecode.

Inductive Outcome : Type :=
| Done
| Raised (e : PyExc)
| OutOfFuel.

Section Generator.
Context `{TF : Transformers} `{!Backend}.

(** The mutable objects a run can reach: the model and the tokenizer it
    was given, torch's default random generator, the log and the record of
    external calls. *)
Record World : Type := {
  w_model : Model;
  w_tokenizer : Tokenizer;
  w_rng : Generator;
  w_log : list string;
  w_calls : list Call;
}.

Definition set_model_state (ms : ModelState) (w : World) : World :=
  {| w_model := {| config := config (w_model w); state := ms |};
     w_tokenizer := w_tokenizer w; w_rng := w_rng w;
     w_log := w_log w; w_calls := w_calls w |}.

Definition set_tokenizer (tok : Tokenizer) (w : World) : World :=
  {| w_model := w_model w; w_tokenizer := tok; w_rng := w_rng w;
     w_log := w_log w; w_calls := w_calls w |}.

Definition set_rng (g : Generator) (w : World) : World :=
  {| w_model := w_model w; w_tokenizer := w_tokenizer w; w_rng := g;
     w_log := w_log w; w_calls := w_calls w |}.

Definition add_log (msgs : list string) (w : World) : World :=
  {| w_model := w_model w; w_tokenizer := w_tokenizer w; w_rng := w_rng w;
     w_log := w_log w ++ msgs; w_calls := w_calls w |}.

Definition add_call (c : Call) (w : World) : World :=
  {| w_model := w_model w; w_tokenizer := w_tokenizer w; w_rng := w_rng w;
     w_log := w_log w; w_calls := w_calls w ++ [c] |}.

(** Statements that may raise and that act on the world. *)
Definition M (A : Type) : Type := World -> PyResult A * World.

Definition mret {A} (a : A) : M A := fun w => (Ok a, w).

Definition mraise {A} (e : PyExc) : M A := fun w => (Raise e, w).

Definition mbind {A B} (m : M A) (k : A -> M B) : M B :=
  fun w => match m w with
           | (Ok a, w') => k a w'
           | (Raise e, w') => (Raise e, w')
           end.

Definition lift {A} (r : PyResult A) : M A := fun w => (r, w).

Notation "x <- m ;; k" := (mbind m (fun x => k))
  (at level 100, m at next level, right associativity, only parsing).
Notation "m ;;; k" := (mbind m (fun _ => k))
  (at level 100, right associativity, only parsing).

Definition get_tokenizer : M Tokenizer := fun w => (Ok (w_tokenizer w), w).

Definition put_tokenizer (tok : Tokenizer) : M unit := fun w => (Ok tt, set_tokenizer tok w).

Definition get_config : M ModelConfig := fun w => (Ok (config (w_model w)), w).

Definition call_tokenizer (prompts : list string) : M TokenizedInputs :=
  fun w => (Ok (tokenize (w_tokenizer w) prompts), add_call CallTokenizer w).

Definition call_batch_decode (ids : list (list Z)) : M (list string) :=
  fun w => (Ok (batch_decode (w_tokenizer w) ids), add_call CallBatchDecode w).

Definition call_reset_generation : M unit :=
  fun w => (Ok tt, add_call CallResetGeneration
                     (set_model_state (reset_generation (state (w_model w))) w)).

Definition call_prepare_inputs (ids : option (list (list Z))) (mask : list (list Z))
    (pkv : option KV) : M Prepared :=
  fun w => (Ok (prepare_inputs_for_generation (state (w_model w)) ids mask pkv),
            add_call CallPrepareInputs w).

Definition call_forward (args : ForwardArgs) : M Outputs :=
  fun w => let '(outputs, ms) := forward (state (w_model w)) args in
           (Ok outputs, add_call CallForward (set_model_state ms w)).

Definition call_decode (m : DecodingMethod) (lg : Logits) (ids : list Z)
    (kw : gmap string PyVal) : M Z :=
  fun w => let '(r, g) := call_decoding_method m lg ids kw (w_rng w) in
           (r, set_rng g w).

(** [tokenizer.pad_token_id] and [tokenizer.eos_token_id]: [None] when the
    token is unset. *)
Definition pad_token_id (tok : Tokenizer) : option Z :=
  convert_tokens_to_ids <$> pad_token tok.

Definition eos_token_id (tok : Tokenizer) : option Z :=
  convert_tokens_to_ids <$> eos_token tok.

(** The local variables that live across iterations of [while True]. *)
Record LoopState : Type := {
  input_ids : option (list (list Z));
  decoder_input_ids : list (list Z);
  all_decoder_input_ids : list (list Z);
  past_key_values : option KV;
  encoder_last_hidden_state : option (list Hidden);
  attention_mask : list (list Z);
  curr_length : nat;
  new_tokens_count : Z;
  unfinished_sequences : list Z;
  stop_generation : bool;
}.

(** The local variables fixed before the loop. *)
Record LoopEnv : Type := {
  generic_model_class : GenericModelClass;
  max_new_tokens : PyVal;
  decoding_method : DecodingMethod;
  engine : PyVal;
  kwargs : gmap string PyVal;
  batch : nat;
}.

(** One trip through the loop body, as observed at its [yield]. *)
Record Step : Type := {
  token_text : list string;
  token_ids : list Z;
  yielded_ids : list Z;
  after : LoopState;
}.

Definition is_neuronx (engine : PyVal) : bool :=
  match engine with
  | VStr s => String.eqb "transformers-neuronx" s
  | _ => false
  end.

Definition is_none (v : PyVal) : bool :=
  match v with
  | VNone => true
  | _ => false
  end.

(** [for i, logits in enumerate(outputs.logits)]: row [i] of the ids so
    far is read before the decoding method is called. *)
Fixpoint decode_rows (env : LoopEnv) (all_ids : list (list Z)) (i : nat)
    (rows : list Logits) : M (list Z) :=
  match rows with
  | [] => mret []
  | lg :: rows' =>
      ids <- match all_ids !! i with
             | Some ids => mret ids
             | None => mraise IndexError
             end;;
      next_token_id <- call_decode (decoding_method env) lg ids (kwargs env);;
      rest <- decode_rows env all_ids (S i) rows';;
      mret (next_token_id :: rest)
  end.

(** [ids * unfinished + pad * unfinished.logical_not()] *)
Definition mask_finished (ids unfinished : list Z) (pad : Z) : list Z :=
  zip_with (fun t u => t * u + pad * (if u =? 0 then 1 else 0)) ids unfinished.

Definition set_stop_generation (stop : bool) (st : LoopState) : LoopState :=
  {| input_ids := input_ids st;
     decoder_input_ids := decoder_input_ids st;
     all_decoder_input_ids := all_decoder_input_ids st;
     past_key_values := past_key_values st;
     encoder_last_hidden_state := encoder_last_hidden_state st;
     attention_mask := attention_mask st;
     curr_length := curr_length st;
     new_tokens_count := new_tokens_count st;
     unfinished_sequences := unfinished_sequences st;
     stop_generation := stop |}.

(** The body of [while True] after the [if stop_generation: return] test,
    up to and including the [yield]. Primed names are the updated locals. *)
Definition loop_body (env : LoopEnv) (st : LoopState) : M Step :=
  outputs <-
    match generic_model_class env with
    | CausalLM =>
        let attention_mask_curr := map (take (curr_length st)) (attention_mask st) in
        if is_neuronx (engine env)
        then prepared <- call_prepare_inputs (input_ids st) attention_mask_curr
                                             (past_key_values st);;
             call_forward (NeuronArgs prepared)
        else call_forward (CausalArgs (input_ids st) attention_mask_curr
                                      (past_key_values st))
    | Seq2SeqLM =>
        call_forward (Seq2SeqArgs (input_ids st) (attention_mask st)
                                  (decoder_input_ids st) (encoder_last_hidden_state st)
                                  (past_key_values st))
    end;;
  next_token_ids <- decode_rows env (all_decoder_input_ids st) 0 (logits outputs);;
  (* torch.cat(next_token_ids); torch.cat([all_decoder_input_ids, token_ids], dim=1) *)
  (if (length next_token_ids =? 0)%nat
      || negb (length (all_decoder_input_ids st) =? length next_token_ids)%nat
   then mraise RuntimeError else mret tt);;;
  let all_decoder_input_ids' :=
    zip_with (fun row t => row ++ [t]) (all_decoder_input_ids st) next_token_ids in
  let past_key_values' :=
    if is_none (engine env) then Some (out_past_key_values outputs)
    else past_key_values st in
  let new_tokens_count' := new_tokens_count st + 1 in
  tok <- get_tokenizer;;
  eos <- match eos_token_id tok with
         | Some eos => mret eos
         | None => mraise AttributeError
         end;;
  (* .view(len(inputs), 1) *)
  (if negb (length next_token_ids =? batch env)%nat
   then mraise RuntimeError else mret tt);;;
  let not_eos_token_ids := map (fun t => if t =? eos then 0 else 1) next_token_ids in
  let unfinished_sequences' :=
    zip_with Z.mul (unfinished_sequences st) not_eos_token_ids in
  pad <- match pad_token_id tok with
         | Some pad => mret pad
         | None => mraise TypeError
         end;;
  let next_ids := mask_finished next_token_ids unfinished_sequences' pad in
  text <- call_batch_decode (column next_ids);;
  st' <-
    match generic_model_class env with
    | CausalLM =>
        attention_mask' <- lift (assign_column (attention_mask st) (curr_length st) 1);;
        mret {| input_ids := Some (column next_ids);
                decoder_input_ids := decoder_input_ids st;
                all_decoder_input_ids := all_decoder_input_ids';
                past_key_values := past_key_values';
                encoder_last_hidden_state := encoder_last_hidden_state st;
                attention_mask := attention_mask';
                curr_length := S (curr_length st);
                new_tokens_count := new_tokens_count';
                unfinished_sequences := unfinished_sequences';
                stop_generation := stop_generation st |}
    | Seq2SeqLM =>
        mret {| input_ids := None;
                decoder_input_ids := column next_ids;
                all_decoder_input_ids := all_decoder_input_ids';
                past_key_values := past_key_values';
                encoder_last_hidden_state :=
                  Some [out_encoder_last_hidden_state outputs];
                attention_mask := attention_mask st;
                curr_length := curr_length st;
                new_tokens_count := new_tokens_count';
                unfinished_sequences := unfinished_sequences';
                stop_generation := stop_generation st |}
    end;;
  stop <- lift (_has_met_stopping_criteria unfinished_sequences' new_tokens_count'
                  (max_new_tokens env));;
  mret {| token_text := text;
          token_ids := next_token_ids;
          yielded_ids := next_ids;
          after := set_stop_generation stop st' |}.

(** [while True]: [fuel] bounds the number of trips; a run that needs more
    ends in [OutOfFuel]. The result lists the steps that reached their
    [yield], how the iteration ended, and the world at that point. *)
Fixpoint stream_loop (fuel : nat) (env : LoopEnv) (st : LoopState) (w : World)
    : list Step * Outcome * World :=
  match fuel with
  | O => ([], OutOfFuel, w)
  | S fuel' =>
      if stop_generation st then ([], Done, w)
      else
        match loop_body env st w with
        | (Raise e, w') => ([], Raised e, w')
        | (Ok step, w') =>
            let '(steps, outcome, w'') := stream_loop fuel' env (after step) w' in
            (step :: steps, outcome, w'')
        end
  end.

(** [input_length + max_new_tokens] as a tensor dimension: an [int]. *)
Definition mask_columns (input_length : nat) (max_new_tokens : PyVal) : PyResult Z :=
  match max_new_tokens with
  | VInt z => Ok (Z.of_nat input_length + z)
  | VBool b => Ok (Z.of_nat input_length + (if b then 1 else 0))
  | _ => Raise TypeError
  end.

(** Everything before [while True]. *)
Definition generator_setup (inputs : PyInputs) (device : option string)
    (kw : gmap string PyVal) : M (LoopEnv * LoopState) :=
  cfg <- get_config;;
  (fun w => let '(r, warnings) := _validate_inputs cfg inputs in (r, add_log warnings w));;;
  model_class <- (fun w => let '(c, warnings) := _get_generic_model_class cfg in
                           (Ok c, add_log warnings w));;
  tokenizer <- get_tokenizer;;
  (if str_falsy (pad_token tokenizer)
   then put_tokenizer {| pad_token := eos_token tokenizer;
                         eos_token := eos_token tokenizer;
                         bos_token_id := bos_token_id tokenizer |}
   else mret tt);;;
  tokenizer <- get_tokenizer;;
  match model_class with
  | Seq2SeqLM => put_tokenizer {| pad_token := pad_token tokenizer;
                                  eos_token := eos_token tokenizer;
                                  bos_token_id := decoder_start_token_id cfg |}
  | CausalLM => mret tt
  end;;;
  let max_new := default (VInt DEFAULT_MAX_NEW_TOKENS) (kw !! "max_new_tokens") in
  let prompts := match inputs with
                 | InputList prompts => prompts
                 | InputOther _ => []
                 end in
  tokenized_inputs <- call_tokenizer prompts;;
  let ids := tk_input_ids tokenized_inputs in
  method <- lift (_get_decoding_method kw);;
  let unfinished := replicate (length prompts) 1 in
  let eng := default VNone (kw !! "engine") in
  (if is_neuronx eng then call_reset_generation else mret tt);;;
  let env := {| generic_model_class := model_class;
                max_new_tokens := max_new;
                decoding_method := method;
                engine := eng;
                kwargs := kw;
                batch := length prompts |} in
  tokenizer <- get_tokenizer;;
  match model_class with
  | CausalLM =>
      let input_length := width ids in
      let is_pad_token_equal_to_eos_token :=
        bool_decide (pad_token tokenizer = eos_token tokenizer) in
      cols <- lift (mask_columns input_length max_new);;
      mask <- lift (new_zeros (length prompts) cols);;
      mask <- (if is_pad_token_equal_to_eos_token
               then mret (assign_prefix_scalar mask input_length 1)
               else lift (assign_prefix_tensor mask input_length
                            (tk_attention_mask tokenized_inputs)));;
      mret (env, {| input_ids := Some ids;
                    decoder_input_ids := [];
                    all_decoder_input_ids := ids;
                    past_key_values := None;
                    encoder_last_hidden_state := None;
                    attention_mask := mask;
                    curr_length := input_length;
                    new_tokens_count := 0;
                    unfinished_sequences := unfinished;
                    stop_generation := false |})
  | Seq2SeqLM =>
      bos <- match bos_token_id tokenizer with
             | Some bos => mret bos
             | None => mraise RuntimeError
             end;;
      let dec := column (replicate (length prompts) bos) in
      mret (env, {| input_ids := Some ids;
                    decoder_input_ids := dec;
                    all_decoder_input_ids := dec;
                    past_key_values := None;
                    encoder_last_hidden_state := None;
                    attention_mask := tk_attention_mask tokenized_inputs;
                    curr_length := 0;
                    new_tokens_count := 0;
                    unfinished_sequences := unfinished;
                    stop_generation := false |})
  end.

(** [_hf_model_stream_generator(model, tokenizer, inputs, device, **kwargs)]
    iterated to exhaustion. [model] and [tokenizer] are the objects held by
    the world [w]; [device] only moves tensors and leaves their values. *)
Definition _hf_model_stream_generator (fuel : nat) (inputs : PyInputs)
    (device : option string) (kw : gmap string PyVal) (w : World)
    : list Step * Outcome * World :=
  match generator_setup inputs device kw w with
  | (Raise e, w') => ([], Raised e, w')
  | (Ok (env, st), w') => stream_loop fuel env st w'
  end.

(** What the caller of the generator receives. *)
Definition yields (run : list Step * Outcome * World) : list (list string) :=
  map token_text (fst (fst run)).

End Generator.

(** ** HFStreamer and use_hf_default_streamer *)

(** What travels through the queue: [put] enqueues the list of decoded
    strings, [put_text] a string, [end] the stop signal [None]. *)
Inductive Chunk : Type :=
| TextBatch (texts : list string)
| Text (s : string).

Definition stop_signal : option Chunk := None.

Record HFStreamer : Type := {
  started : bool;
  hf_tokenizer : Tokenizer;
  queue : list (option Chunk);
}.

(** [HFStreamer(tokenizer, **decode_kwargs)] *)
Definition new_streamer (tokenizer : Tokenizer) : HFStreamer :=
  {| started := false; hf_tokenizer := tokenizer; queue := [] |}.

(** [Queue.put] appends at the back, [Queue.get] removes from the front. *)
Definition queue_put (x : option Chunk) (s : HFStreamer) : HFStreamer :=
  {| started := started s; hf_tokenizer := hf_tokenizer s; queue := queue s ++ [x] |}.

Inductive NextResult : Type :=
| Returned (value : Chunk)
| StopIteration.

(** The streamer methods a thread can call. *)
Inductive StreamerCall : Type :=
| DoPut (value : list (list Z))
| DoPutText (value : string)
| DoEnd.

(** A completed call of [model.generate] as the streamer sees it: the
    methods it called, then a normal return or an exception that is an
    instance of [Exception], with its [str(e)]. *)
Inductive GenerateExit : Type :=
| Returns
| RaisesException (text : string).

Record Generate : Type := {
  gen_calls : list StreamerCall;
  gen_exit : GenerateExit;
}.

(** The background thread and the consumer that iterates the streamer
    ([for chunk in streamer]) share only the streamer's queue. *)
Record Stream : Type := {
  thread : list StreamerCall;
  streamer : HFStreamer;
  received : list Chunk;
  stopped : bool;
}.

(** The chunks ahead of the first stop signal. *)
Fixpoint before_stop (items : list (option Chunk)) : list Chunk :=
  match items with
  | [] => []
  | None :: _ => []
  | Some chunk :: rest => chunk :: before_stop rest
  end.

Section Streamer.
Context `{T : Torch} `{!Backend}.

Definition put (value : list (list Z)) (s : HFStreamer) : HFStreamer :=
  let text := batch_decode (hf_tokenizer s) value in
  queue_put (Some (TextBatch text))
            {| started := true; hf_tokenizer := hf_tokenizer s; queue := queue s |}.

Definition put_text (value : string) (s : HFStreamer) : HFStreamer :=
  queue_put (Some (Text value)) s.

Definition end_ (s : HFStreamer) : HFStreamer := queue_put stop_signal s.

(** [__next__]: [Queue.get] blocks on an empty queue, which is [None] here. *)
Definition next_ (s : HFStreamer) : option (NextResult * HFStreamer) :=
  match queue s with
  | [] => None
  | value :: rest =>
      let s' := {| started := started s; hf_tokenizer := hf_tokenizer s; queue := rest |} in
      match value with
      | None => Some (StopIteration, s')
      | Some chunk => Some (Returned chunk, s')
      end
  end.

Definition run_call (c : StreamerCall) (s : HFStreamer) : HFStreamer :=
  match c with
  | DoPut value => put value s
  | DoPutText value => put_text value s
  | DoEnd => end_ s
  end.

(** The thread target: [try: model.generate(...)], [except Exception as e:
    streamer.put_text(str(e))], [finally: streamer.end()]. *)
Definition run_generation (g : Generate) : list StreamerCall :=
  gen_calls g
  ++ match gen_exit g with
     | Returns => []
     | RaisesException text => [DoPutText text]
     end
  ++ [DoEnd].

(** [use_hf_default_streamer]: the pad token is defaulted, a fresh
    streamer is created around the tokenizer and the thread is started;
    [g] is what this call of [model.generate] is going to do. *)
Definition use_hf_default_streamer (tokenizer : Tokenizer) (g : Generate)
    : Tokenizer * Stream :=
  let tokenizer' :=
    if str_falsy (pad_token tokenizer)
    then {| pad_token := eos_token tokenizer;
            eos_token := eos_token tokenizer;
            bos_token_id := bos_token_id tokenizer |}
    else tokenizer in
  (tokenizer',
   {| thread := run_generation g;
      streamer := new_streamer tokenizer';
      received := [];
      stopped := false |}).

(** Interleavings of the two threads: the background thread performs its
    next call, or the consumer's [__next__] finds the queue non-empty. *)
Inductive stream_step : Stream -> Stream -> Prop :=
| step_thread c rest s got b :
    stream_step
      {| thread := c :: rest; streamer := s; received := got; stopped := b |}
      {| thread := rest; streamer := run_call c s; received := got; stopped := b |}
| step_next_value th s s' chunk got :
    next_ s = Some (Returned chunk, s') ->
    stream_step
      {| thread := th; streamer := s; received := got; stopped := false |}
      {| thread := th; streamer := s'; received := got ++ [chunk]; stopped := false |}
| step_next_stop th s s' got :
    next_ s = Some (StopIteration, s') ->
    stream_step
      {| thread := th; streamer := s; received := got; stopped := false |}
      {| thread := th; streamer := s'; received := got; stopped := true |}.

(** What a call leaves in the queue. *)
Definition enqueued (tokenizer : Tokenizer) (c : StreamerCall) : option Chunk :=
  match c with
  | DoPut value => Some (TextBatch (batch_decode tokenizer value))
  | DoPutText value => Some (Text value)
  | DoEnd => stop_signal
  end.

End Streamer.

(** ** A small concrete backend

    Integer scores over a four-token vocabulary ([0] is the end-of-sequence
    token, [3] the padding token), a linear random generator, and a model
    whose state counts its forward calls: row [i] prefers token [2] until
    call [2 + i], then token [0]. Used to run the definitions above. *)
Module Toy.

Definition last_row (l : list (list Z)) : list Z := List.last l [].

(** index of the first maximum *)
Fixpoint argmax_from (best_i : Z) (best : Z) (i : Z) (l : list Z) : Z :=
  match l with
  | [] => best_i
  | x :: l' => if best <? x then argmax_from i x (i + 1) l'
               else argmax_from best_i best (i + 1) l'
  end.

Definition toy_argmax (l : list Z) : Z :=
  match l with
  | [] => 0
  | x :: l' => argmax_from 0 x 1 l'
  end.

Definition toy_multinomial (probs : list Z) (g : Z) : Z * Z :=
  (g mod Z.max 1 (Z.of_nat (length probs)), (g * 5 + 3) mod 64).

(** Seeds are the [int]s from 0 that fit 64 bits; anything else is
    refused. *)
Definition toy_manual_seed (v : PyVal) : PyResult Z :=
  match v with
  | VInt seed =>
      if Z.shiftr seed 64 =? 0 then Ok (seed mod 64) else Raise RuntimeError
  | _ => Raise RuntimeError
  end.

#[export] Instance toy_torch : Torch := {|
  Logits := list (list Z);
  Scores := list Z;
  Probs := list Z;
  Generator := Z;
  KV := nat;
  Hidden := unit;
  Prepared := unit;
  ModelState := nat;
  last_scores := last_row;
  argmax := toy_argmax;
  softmax := fun scores => scores;
  multinomial := toy_multinomial;
  draw_error := fun probs =>
    if existsb (fun x => x <? 0) probs then Some RuntimeError else None;
  manual_seed := toy_manual_seed;
  float_of_str := fun _ => Raise (ValueError "could not convert string to float");
  float_of_int := fun n => Ok (inject_Z n);
  alloc_error := fun _ cols => if 0 <? Z.shiftr cols 63 then Some TypeError else None;
|}.

(** The repetition penalty halves the score of every token already
    present; the other processors leave this toy's scores alone. *)
Definition toy_call_processor (p : LogitsProcessor) (ids : list Z) (scores : list Z)
    : list Z :=
  match p with
  | RepetitionPenaltyLogitsProcessor _ =>
      imap (fun i x => if bool_decide (Z.of_nat i ∈ ids) then x / 2 else x) scores
  | _ => scores
  end.

(** The checks of the constructors: a penalty is a positive [float], a
    temperature is positive, [top_p] lies in [0, 1], [top_k] is a positive
    [int] and [typical_p] lies strictly between 0 and 1. *)
Definition refuse_unless (ok : bool) : option PyExc :=
  if ok then None else Some (ValueError "argument out of range").

Definition toy_processor_error (p : LogitsProcessor) : option PyExc :=
  match p with
  | RepetitionPenaltyLogitsProcessor (VFloat q) => refuse_unless (negb (Qle_bool q 0))
  | RepetitionPenaltyLogitsProcessor _ => refuse_unless false
  | TemperatureLogitsWarper t => refuse_unless (negb (Qle_bool t 0))
  | TopPLogitsWarper v =>
      match as_number v with
      | Some q => refuse_unless (Qle_bool 0 q && Qle_bool q 1)
      | None => Some TypeError
      end
  | TopKLogitsWarper (VInt k) => refuse_unless (0 <? k)
  | TopKLogitsWarper _ => refuse_unless false
  | TypicalLogitsWarper v =>
      match as_number v with
      | Some q => refuse_unless (negb (Qle_bool q 0) && negb (Qle_bool 1 q))
      | None => Some TypeError
      end
  end.

#[export] Instance toy_transformers : Transformers := {|
  processor_error := toy_processor_error;
  call_processor := toy_call_processor;
|}.

Definition one_hot (t : nat) : list Z := <[t := 8]> [1; 1; 1; 1].

Definition toy_rows (args : @ForwardArgs toy_torch) : nat :=
  match args with
  | CausalArgs ids mask _ => length mask
  | NeuronArgs _ => 1
  | Seq2SeqArgs _ _ dec _ _ => length dec
  end.

Definition toy_forward (calls : nat) (args : @ForwardArgs toy_torch)
    : @Outputs toy_torch * nat :=
  ({| logits := imap (fun i _ => [one_hot (if (2 + i <=? calls)%nat then 0 else 2)])
                     (replicate (toy_rows args) tt);
      out_past_key_values := calls;
      out_encoder_last_hidden_state := tt |},
   S calls).

Definition toy_vocab (token : string) : Z :=
  if String.eqb token "</s>" then 0
  else if String.eqb token "<pad>" then 3
  else 1.

Definition toy_text (id : Z) : string :=
  if id =? 0 then "</s>" else if id =? 3 then "<pad>" else if id =? 2 then "b" else "a".

#[export] Instance toy_backend : Backend := {|
  tokenize := fun _ prompts =>
    {| tk_input_ids := map (fun p => [1; Z.of_nat (String.length p) mod 3]) prompts;
       tk_attention_mask := map (fun _ => [1; 1]) prompts |};
  batch_decode := fun _ ids => map (fun row => String.concat "" (map toy_text row)) ids;
  convert_tokens_to_ids := toy_vocab;
  forward := toy_forward;
  reset_generation := fun _ => O;
  prepare_inputs_for_generation := fun _ _ _ _ => tt;
|}.

Definition toy_tokenizer : Tokenizer :=
  {| pad_token := Some "<pad>"; eos_token := Some "</s>"; bos_token_id := None |}.

Definition gpt2_config : ModelConfig :=
  {| architectures := Some ["GPT2LMHeadModel"]; decoder_start_token_id := None |}.

Definition t5_config : ModelConfig :=
  {| architectures := Some ["T5ForConditionalGeneration"];
     decoder_start_token_id := Some 3 |}.

Definition bert_config : ModelConfig :=
  {| architectures := Some ["BertModel"]; decoder_start_token_id := None |}.

Definition toy_world (cfg : ModelConfig) : World :=
  {| w_model := {| config := cfg; state := O |};
     w_tokenizer := toy_tokenizer;
     w_rng := 0;
     w_log := [];
     w_calls := [] |}.

(** Every sampling parameter set to a non-default value. *)
Definition all_five : gmap string PyVal :=
  {[ "repetition_penalty" := VFloat (12 # 10); "temperature" := VFloat (7 # 10);
     "top_p" := VFloat (9 # 10); "top_k" := VInt 50; "typical_p" := VFloat (1 # 2);
     "do_sample" := VBool true ]}.

(** Two prompts and a bound of five new tokens. *)
Definition two_prompts : PyInputs := InputList ["ab"; "c"].

Definition five_tokens : gmap string PyVal := {[ "max_new_tokens" := VInt 5 ]}.

Definition toy_run : list Step * Outcome * World :=
  _hf_model_stream_generator 10 two_prompts None five_tokens (toy_world gpt2_config).

Definition default_run : list Step * Outcome * World :=
  _hf_model_stream_generator 60 two_prompts None ∅ (toy_world gpt2_config).

(** A decoder-only model with no room for a new token, a request for beam
    search, and a tokenizer without pad token. *)
Definition no_tokens : gmap string PyVal := {[ "max_new_tokens" := VInt 0 ]}.

Definition zero_run : list Step * Outcome * World :=
  _hf_model_stream_generator 10 two_prompts None no_tokens (toy_world gpt2_config).

Definition beam_search : gmap string PyVal := {[ "beam_size" := VInt 2 ]}.

Definition unpadded_world : World :=
  {| w_model := {| config := gpt2_config; state := O |};
     w_tokenizer := {| pad_token := None; eos_token := Some "</s>";
                       bos_token_id := None |};
     w_rng := 0;
     w_log := [];
     w_calls := [] |}.

Definition unpadded_run : list Step * Outcome * World :=
  _hf_model_stream_generator 10 two_prompts None five_tokens unpadded_world.





(** A [top_p] that is not a number. *)
Definition bad_top_p : gmap string PyVal := {[ "top_p" := VStr "high" ]}.

(** A temperature the constructor refuses. *)
Definition zero_temperature : gmap string PyVal := {[ "temperature" := VInt 0 ]}.


(** A generation that puts two token batches and then fails, and the
    stream once the consumer has drained it. *)
Definition failing_generate : Generate :=
  {| gen_calls := [DoPut [[2]]; DoPut [[0]]];
     gen_exit := RaisesException "boom" |}.

Definition drained : Stream :=
  {| thread := [];
     streamer := {| started := true; hf_tokenizer := toy_tokenizer; queue := [] |};
     received := [TextBatch ["b"]; TextBatch ["</s>"]; Text "boom"];
     stopped := true |}.

(** A generation that fails before it puts anything, and the stream once
    the thread has made its calls and the consumer has read nothing. *)
Definition failing_at_once : Generate :=
  {| gen_calls := []; gen_exit := RaisesException "boom" |}.

Definition unread : Stream :=
  {| thread := [];
     streamer := {| started := false; hf_tokenizer := toy_tokenizer;
                    queue := [Some (Text "boom"); None] |};
     received := [];
     stopped := false |}.

End Toy.

(** ** Predicates used in the statements *)

(** [beam_size] is present and greater than 1. *)
Definition beam_size_above_one (kw : gmap string PyVal) : Prop :=
  ∃ v x, kw !! "beam_size" = Some v ∧ as_number v = Some x ∧ (1 < x)%Q.

(** [beam_size], when present, is a number (an [int] in [SearchConfig]). *)
Definition beam_size_numeric (kw : gmap string PyVal) : Prop :=
  ∀ v, kw !! "beam_size" = Some v → is_Some (as_number v).

(** A value that counts as true in a condition: [True], a number other
    than zero, a string that is not empty. *)
Definition is_true (v : PyVal) : Prop :=
  match v with
  | VNone => False
  | VBool b => b = true
  | VInt z => z ≠ 0
  | VFloat q => ¬ (q == 0)%Q
  | VStr s => s ≠ ""
  end.

(** One of the sampling parameters is set, or [do_sample] is true. *)
Definition sampling_requested (kw : gmap string PyVal) : Prop :=
  (∃ param, param ∈ SAMPLING_PARAMS ∧ is_Some (kw !! param))
  ∨ (∃ v, kw !! "do_sample" = Some v ∧ is_true v).

(** The shapes of [inputs] that validation refuses. *)
Definition refused_inputs (inputs : PyInputs) : Prop :=
  match inputs with
  | InputList prompts => prompts = []
  | InputOther _ => True
  end.

(** The five kinds of logits processor, in the order the specification
    lists them, each with the keyword argument that configures it and the
    test that tells a set, non-default value. *)
Inductive ProcessorKind : Type :=
| KRepetitionPenalty
| KTemperature
| KTopP
| KTopK
| KTypicalP.

Definition PROCESSOR_ORDER : list ProcessorKind :=
  [KRepetitionPenalty; KTemperature; KTopP; KTopK; KTypicalP].

Definition kind_of (p : LogitsProcessor) : ProcessorKind :=
  match p with
  | RepetitionPenaltyLogitsProcessor _ => KRepetitionPenalty
  | TemperatureLogitsWarper _ => KTemperature
  | TopPLogitsWarper _ => KTopP
  | TopKLogitsWarper _ => KTopK
  | TypicalLogitsWarper _ => KTypicalP
  end.

Definition param_name (k : ProcessorKind) : string :=
  match k with
  | KRepetitionPenalty => "repetition_penalty"
  | KTemperature => "temperature"
  | KTopP => "top_p"
  | KTopK => "top_k"
  | KTypicalP => "typical_p"
  end.

(** repetition_penalty != 1.0, temperature != 1.0, top_p < 1.0,
    top_k != 0, typical_p < 1.0 *)
Definition non_default (k : ProcessorKind) (v : PyVal) : bool :=
  match k with
  | KRepetitionPenalty | KTemperature => py_ne v 1
  | KTopK => py_ne v 0
  | KTopP | KTypicalP =>
      match py_lt v 1 with
      | Ok b => b
      | Raise _ => false
      end
  end.

Definition present_non_default (kw : gmap string PyVal) (k : ProcessorKind) : bool :=
  match kw !! param_name k with
  | Some v => non_default k v
  | None => false
  end.

(** The five parameters, when given, are numbers. *)
Definition processor_params_numeric (kw : gmap string PyVal) : Prop :=
  ∀ k v, kw !! param_name k = Some v → is_Some (as_number v).

Section SamplingSpec.
Context `{TF : Transformers}.

(** The constructor call made for kind [k] with the value [v] of its
    parameter goes through: for the temperature that is [float(v)] and
    then the constructor. *)
Definition constructs (k : ProcessorKind) (v : PyVal) : Prop :=
  match k with
  | KRepetitionPenalty => processor_error (RepetitionPenaltyLogitsProcessor v) = None
  | KTemperature =>
      ∃ t, py_float v = Ok t ∧ processor_error (TemperatureLogitsWarper t) = None
  | KTopP => processor_error (TopPLogitsWarper v) = None
  | KTopK => processor_error (TopKLogitsWarper v) = None
  | KTypicalP => processor_error (TypicalLogitsWarper v) = None
  end.

(** The constructors accept every parameter that is set and non-default. *)
Definition processor_params_accepted (kw : gmap string PyVal) : Prop :=
  ∀ k v, kw !! param_name k = Some v → non_default k v = true → constructs k v.

(** The [manual_seed] statement of [_sampling_decoding]: nothing without
    the keyword, else the seeding of a fresh generator. *)
Definition seeding (kw : gmap string PyVal) : PyResult unit :=
  match kw !! "manual_seed" with
  | Some v => _ <-? seeded_generator v; Ok tt
  | None => Ok tt
  end.

(** A processor carries the value of its keyword argument. *)
Definition built_from (kw : gmap string PyVal) (p : LogitsProcessor) : Prop :=
  match p with
  | TemperatureLogitsWarper t =>
      ∃ v, kw !! "temperature" = Some v ∧ py_float v = Ok t
  | RepetitionPenaltyLogitsProcessor v
  | TopPLogitsWarper v
  | TopKLogitsWarper v
  | TypicalLogitsWarper v => kw !! param_name (kind_of p) = Some v
  end.

(** A constructor call the code makes for [kw] raises [e]: the parameter
    of the processor is set and non-default, and the constructor refuses
    the value it is built from. *)
Definition refused (kw : gmap string PyVal) (e : PyExc) : Prop :=
  ∃ p, present_non_default kw (kind_of p) = true
       ∧ built_from kw p
       ∧ processor_error p = Some e.


(** The way [_greedy_decoding] can raise on its keyword arguments: the
    constructor refuses a [repetition_penalty] that is set and not 1.0. *)
Definition greedy_error (kw : gmap string PyVal) (e : PyExc) : Prop :=
  ∃ v, kw !! "repetition_penalty" = Some v ∧ py_ne v 1 = true
       ∧ processor_error (RepetitionPenaltyLogitsProcessor v) = Some e.

End SamplingSpec.

(** Bound on the number of further steps of a stream: every call of the
    thread costs one step and leaves one item to dequeue. *)
Definition stream_measure (s : Stream) : nat :=
  2 * length (thread s) + length (queue (streamer s)).

(** [len(inputs)] for a list of prompts. *)
Definition prompt_count (inputs : PyInputs) : nat :=
  match inputs with
  | InputList prompts => length prompts
  | InputOther _ => 0
  end.

(** [kwargs.get("max_new_tokens", DEFAULT_MAX_NEW_TOKENS)] *)
Definition max_new_tokens_of (kw : gmap string PyVal) : PyVal :=
  default (VInt DEFAULT_MAX_NEW_TOKENS) (kw !! "max_new_tokens").

(** Steps still possible before the token count reaches [max_new]. *)
Definition remaining (max_new : PyVal) (count : Z) : nat :=
  match as_number max_new with
  | Some q => Z.to_nat (Qceiling q - count)
  | None => 0
  end.

Section StoppingSpec.
Context `{T : Torch}.

(** Row [i] has emitted [eos] in one of the steps. *)
Definition emitted_eos (eos : Z) (steps : list Step) (i : nat) : Prop :=
  ∃ s, s ∈ steps ∧ token_ids s !! i = Some eos.

(** The stopping condition after the steps taken so far: every row has
    emitted [eos], or the number of new tokens has reached [max_new]. *)
Definition should_stop (eos : Z) (rows : nat) (max_new : PyVal)
    (steps : list Step) : Prop :=
  (∀ i, (i < rows)%nat → emitted_eos eos steps i)
  ∨ py_int_ge (Z.of_nat (length steps)) max_new = Ok true.

End StoppingSpec.

(** The number of unfinished sequences in a [(batch, 1)] flag tensor. *)
Definition num_unfinished (u : list Z) : nat :=
  length (filter (λ x, x ≠ 0) u).

(** ** Invariants of the proofs *)

(** A flag tensor holds zeros and ones. *)
Definition flags (u : list Z) : Prop := Forall (λ x, x = 0 ∨ x = 1) u.

(** [(token_ids != eos_token_id)] as a 0/1 tensor. *)
Definition not_eos (eos : Z) (tokens : list Z) : list Z :=
  map (λ t, if t =? eos then 0 else 1) tokens.

Section Invariants.
Context `{TF : Transformers} `{!Backend}.

(** One [if ...: processors.append(...)] statement for kind [k]: the list
    grows by the processor of that kind exactly when its parameter is set
    and non-default. *)
Definition stage (kw : gmap string PyVal) (k : ProcessorKind)
    (before after : list LogitsProcessor) : Prop :=
  ∃ added, after = before ++ added
    ∧ map kind_of added = filter (λ k, present_non_default kw k = true) [k]
    ∧ Forall (built_from kw) added
    ∧ Forall (λ p, processor_error p = None) added.

(** The processors built for the kinds [ks]: one for each kind whose
    parameter is set and non-default, in the order of [ks], each built
    from its parameter and accepted by its constructor. *)
Definition processors_of (kw : gmap string PyVal) (ks : list ProcessorKind)
    (procs : list LogitsProcessor) : Prop :=
  map kind_of procs = filter (λ k, present_non_default kw k = true) ks
  ∧ Forall (built_from kw) procs
  ∧ Forall (λ p, processor_error p = None) procs.

(** The items produced over the whole run, in order: what the consumer has
    received, the stop signal if it has been dequeued, what waits in the
    queue, and what the thread has yet to enqueue. *)
Definition stream_inv (tok : Tokenizer) (items : list (option Chunk)) (s : Stream) : Prop :=
  hf_tokenizer (streamer s) = tok
  ∧ items = map Some (received s)
            ++ (if stopped s then [stop_signal] else [])
            ++ queue (streamer s)
            ++ map (enqueued tok) (thread s).

(** Statements that leave the tokenizer object alone. *)
Definition keeps_tokenizer {A} (m : M A) : Prop :=
  ∀ w r w', m w = (r, w') → w_tokenizer w' = w_tokenizer w.

(** What one successful trip through the loop body establishes. *)
Record body_spec (env : LoopEnv) (st : LoopState) (w : World) (step : Step)
    (w' : World) (eos pad : Z) : Prop := {
  body_eos : eos_token_id (w_tokenizer w) = Some eos;
  body_pad : pad_token_id (w_tokenizer w) = Some pad;
  body_tokenizer : w_tokenizer w' = w_tokenizer w;
  body_rows : length (token_ids step) = batch env;
  body_unfinished :
    unfinished_sequences (after step)
    = zip_with Z.mul (unfinished_sequences st)
               (map (λ t, if t =? eos then 0 else 1) (token_ids step));
  body_count : new_tokens_count (after step) = new_tokens_count st + 1;
  body_yielded :
    yielded_ids step
    = mask_finished (token_ids step) (unfinished_sequences (after step)) pad;
  body_text :
    token_text step = batch_decode (w_tokenizer w) (column (yielded_ids step));
  body_stop :
    _has_met_stopping_criteria (unfinished_sequences (after step))
      (new_tokens_count (after step)) (max_new_tokens env)
    = Ok (stop_generation (after step));
}.

(** The part of [body_spec] that does not mention the world. *)
Record step_spec (env : LoopEnv) (tok : Tokenizer) (eos pad : Z)
    (st : LoopState) (step : Step) : Prop := {
  step_rows : length (token_ids step) = batch env;
  step_unfinished :
    unfinished_sequences (after step)
    = zip_with Z.mul (unfinished_sequences st) (not_eos eos (token_ids step));
  step_count : new_tokens_count (after step) = new_tokens_count st + 1;
  step_yielded :
    yielded_ids step
    = mask_finished (token_ids step) (unfinished_sequences (after step)) pad;
  step_text : token_text step = batch_decode tok (column (yielded_ids step));
  step_stop :
    _has_met_stopping_criteria (unfinished_sequences (after step))
      (new_tokens_count (after step)) (max_new_tokens env)
    = Ok (stop_generation (after step));
}.

(** Each step starts from a state that does not ask to stop, and from the
    state the previous step left. *)
Inductive chain (env : LoopEnv) (tok : Tokenizer) (eos pad : Z)
    : LoopState → list Step → Prop :=
| chain_nil st : chain env tok eos pad st []
| chain_cons st step steps :
    stop_generation st = false →
    step_spec env tok eos pad st step →
    chain env tok eos pad (after step) steps →
    chain env tok eos pad st (step :: steps).

(** The state the loop test sees last. *)
Definition final_state (st : LoopState) (steps : list Step) : LoopState :=
  from_option after st (last steps).

(** The ids the loop compares with and pads with; 0 stands in when the
    tokenizer has none, in which case no step completes. *)
Definition eos_of (tok : Tokenizer) : Z := default 0 (eos_token_id tok).
Definition pad_of (tok : Tokenizer) : Z := default 0 (pad_token_id tok).

(** What holds of the [k]-th step of a chain that starts from [st]. *)
Record step_facts (env : LoopEnv) (tok : Tokenizer) (eos pad : Z)
    (st : LoopState) (steps : list Step) (k : nat) (s : Step) : Prop := {
  fact_count : new_tokens_count (after s) = new_tokens_count st + Z.of_nat (S k);
  fact_flags : flags (unfinished_sequences (after s));
  fact_length : length (unfinished_sequences (after s)) = batch env;
  fact_rows : length (token_ids s) = batch env;
  fact_finished : ∀ i, (i < batch env)%nat →
    unfinished_sequences (after s) !! i = Some 0
    ↔ unfinished_sequences st !! i = Some 0 ∨ emitted_eos eos (take (S k) steps) i;
  fact_continue : (S k < length steps)%nat → stop_generation (after s) = false;
  fact_yielded :
    yielded_ids s = mask_finished (token_ids s) (unfinished_sequences (after s)) pad;
  fact_text : token_text s = batch_decode tok (column (yielded_ids s));
  fact_stop :
    _has_met_stopping_criteria (unfinished_sequences (after s))
      (new_tokens_count (after s)) (max_new_tokens env)
    = Ok (stop_generation (after s));
}.

End Invariants.

(** ** Further predicates: validation *)

(** Some architecture of the list ends with one of the suffixes, that is,
    is a prefix followed by the suffix. *)
Definition has_suffix_in (suffixes : list string) (archs : list string) : Prop :=
  ∃ arch prefix suffix,
    arch ∈ archs ∧ suffix ∈ suffixes ∧ arch = String.append prefix suffix.

(** [not model.config.architectures] *)
Definition no_architectures (cfg : ModelConfig) : Prop :=
  architectures cfg = None ∨ architectures cfg = Some [].

(** ** Further predicates: effects of a run *)

(** [engine] as the generator reads it from its keyword arguments. *)
Definition engine_of (kw : gmap string PyVal) : PyVal :=
  default VNone (kw !! "engine").

(** The external calls of one trip through the loop body that reaches its
    [yield]. *)
Definition step_calls (model_class : GenericModelClass) (eng : PyVal) : list Call :=
  match model_class with
  | CausalLM => if is_neuronx eng then [CallPrepareInputs] else []
  | Seq2SeqLM => []
  end ++ [CallForward; CallBatchDecode].

(** The external calls made before the loop. *)
Definition setup_calls (kw : gmap string PyVal) : list Call :=
  CallTokenizer :: if is_neuronx (engine_of kw) then [CallResetGeneration] else [].

(** The tokenizer as the generator leaves it: the pad token defaulted to
    the eos token, and for an encoder-decoder model the bos token id taken
    from the model config. *)
Definition setup_tokenizer (cfg : ModelConfig) (tok : Tokenizer) : Tokenizer :=
  {| pad_token := if str_falsy (pad_token tok) then eos_token tok else pad_token tok;
     eos_token := eos_token tok;
     bos_token_id := match (_get_generic_model_class cfg).1 with
                     | Seq2SeqLM => decoder_start_token_id cfg
                     | CausalLM => bos_token_id tok
                     end |}.

(** The prompts the tokenizer is called with. *)
Definition prompts_of (inputs : PyInputs) : list string :=
  match inputs with
  | InputList prompts => prompts
  | InputOther _ => []
  end.

Section Effects.
Context `{TF : Transformers} `{!Backend}.

(** Statements that leave the random generator, respectively the log and
    the model config, alone. *)
Definition keeps_rng {A} (m : M A) : Prop :=
  ∀ w r w', m w = (r, w') → w_rng w' = w_rng w.

Definition keeps_log {A} (m : M A) : Prop :=
  ∀ w r w', m w = (r, w') →
    w_log w' = w_log w ∧ config (w_model w') = config (w_model w).

(** Statements whose external calls are the calls [l], in this order, when
    they complete, and the first few of them when they raise. *)
Definition calls_within {A} (l : list Call) (m : M A) : Prop :=
  ∀ w r w', m w = (r, w') →
    ∃ p, w_calls w' = w_calls w ++ p ∧ p `prefix_of` l ∧ (∀ a, r = Ok a → p = l).

(** The tokens decoded for row [i] in the given steps, oldest first. *)
Definition row_tokens (i : nat) (steps : list Step) : list Z :=
  omap (λ s, token_ids s !! i) steps.

(** The steps of a run with the worlds they were taken in. *)
Inductive steps_from (env : LoopEnv) : LoopState → World → list Step → World → Prop :=
| steps_nil st w : steps_from env st w [] w
| steps_cons st w step w1 steps w2 :
    stop_generation st = false →
    loop_body env st w = (Ok step, w1) →
    steps_from env (after step) w1 steps w2 →
    steps_from env st w (step :: steps) w2.

(** The arguments of the [forward] call of a trip through the loop that
    starts in state [st], the model being in state [ms], and what that
    call returns. *)
Definition forward_args (env : LoopEnv) (st : LoopState) (ms : ModelState)
    : ForwardArgs :=
  match generic_model_class env with
  | CausalLM =>
      let attention_mask_curr := map (take (curr_length st)) (attention_mask st) in
      if is_neuronx (engine env)
      then NeuronArgs (prepare_inputs_for_generation ms (input_ids st)
                         attention_mask_curr (past_key_values st))
      else CausalArgs (input_ids st) attention_mask_curr (past_key_values st)
  | Seq2SeqLM =>
      Seq2SeqArgs (input_ids st) (attention_mask st) (decoder_input_ids st)
                  (encoder_last_hidden_state st) (past_key_values st)
  end.

Definition forward_outputs (env : LoopEnv) (st : LoopState) (ms : ModelState)
    : Outputs :=
  (forward ms (forward_args env st ms)).1.

Definition next_model_state (env : LoopEnv) (st : LoopState) (ms : ModelState)
    : ModelState :=
  (forward ms (forward_args env st ms)).2.

(** The state of the model at the start of each of the steps of a run
    that sets out from loop state [st] with the model in state [ms]. *)
Fixpoint model_states (env : LoopEnv) (st : LoopState) (ms : ModelState)
    (steps : list Step) : list ModelState :=
  match steps with
  | [] => []
  | step :: rest =>
      ms :: model_states env (after step) (next_model_state env st ms) rest
  end.

(** What a successful trip through the loop body keeps of the model's
    outputs: the cache (when no engine is named) and, for an
    encoder-decoder model, the encoder state. *)
Definition keeps_outputs (env : LoopEnv) (outputs : Outputs) (step : Step) : Prop :=
  (is_none (engine env) = true →
     past_key_values (after step) = Some (out_past_key_values outputs))
  ∧ (generic_model_class env = Seq2SeqLM →
       encoder_last_hidden_state (after step)
       = Some [out_encoder_last_hidden_state outputs]).

(** What a successful trip through the loop body does besides what
    [body_spec] records. *)
Record body_effects (env : LoopEnv) (st : LoopState) (step : Step) : Prop := {
  eff_history :
    all_decoder_input_ids (after step)
    = zip_with (λ row t, row ++ [t]) (all_decoder_input_ids st) (token_ids step);
  eff_history_rows : length (all_decoder_input_ids st) = length (token_ids step);
  eff_cache_kept :
    is_none (engine env) = false → past_key_values (after step) = past_key_values st;
  eff_cache_new :
    is_none (engine env) = true → is_Some (past_key_values (after step));
  eff_causal :
    generic_model_class env = CausalLM →
    assign_column (attention_mask st) (curr_length st) 1 = Ok (attention_mask (after step))
    ∧ curr_length (after step) = S (curr_length st)
    ∧ input_ids (after step) = Some (column (yielded_ids step));
  eff_seq2seq :
    generic_model_class env = Seq2SeqLM →
    attention_mask (after step) = attention_mask st
    ∧ input_ids (after step) = None
    ∧ decoder_input_ids (after step) = column (yielded_ids step)
    ∧ is_Some (encoder_last_hidden_state (after step));
}.

(** The loop variables as the set-up leaves them, for a model with config
    [cfg] and a tokenizer [tok] (the tokenizer after its pad and bos fields
    were set). *)
Record setup_spec (inputs : PyInputs) (kw : gmap string PyVal) (cfg : ModelConfig)
    (tok : Tokenizer) (env : LoopEnv) (st : LoopState) : Prop := {
  ss_class : generic_model_class env = (_get_generic_model_class cfg).1;
  ss_method : _get_decoding_method kw = Ok (decoding_method env);
  ss_engine : engine env = engine_of kw;
  ss_kwargs : kwargs env = kw;
  ss_batch : batch env = length (prompts_of inputs);
  ss_max_new : max_new_tokens env = max_new_tokens_of kw;
  ss_valid : (1 ≤ length (prompts_of inputs))%nat;
  ss_cache : past_key_values st = None;
  ss_encoder : encoder_last_hidden_state st = None;
  ss_input_ids : input_ids st = Some (tk_input_ids (tokenize tok (prompts_of inputs)));
  ss_causal :
    generic_model_class env = CausalLM →
    all_decoder_input_ids st = tk_input_ids (tokenize tok (prompts_of inputs))
    ∧ curr_length st = width (tk_input_ids (tokenize tok (prompts_of inputs)))
    ∧ ∃ cols mask,
        mask_columns (curr_length st) (max_new_tokens_of kw) = Ok cols
        ∧ new_zeros (length (prompts_of inputs)) cols = Ok mask
        ∧ if bool_decide (pad_token tok = eos_token tok)
          then attention_mask st = assign_prefix_scalar mask (curr_length st) 1
          else assign_prefix_tensor mask (curr_length st)
                 (tk_attention_mask (tokenize tok (prompts_of inputs)))
               = Ok (attention_mask st);
  ss_seq2seq :
    generic_model_class env = Seq2SeqLM →
    attention_mask st = tk_attention_mask (tokenize tok (prompts_of inputs))
    ∧ ∃ bos, decoder_start_token_id cfg = Some bos
             ∧ decoder_input_ids st = column (replicate (length (prompts_of inputs)) bos)
             ∧ all_decoder_input_ids st
               = column (replicate (length (prompts_of inputs)) bos);
}.

(** What the set-up does to the world, whatever its result. *)
Record setup_effects (inputs : PyInputs) (kw : gmap string PyVal) (w : World)
    (r : PyResult (LoopEnv * LoopState)) (w' : World) : Prop := {
  su_config : config (w_model w') = config (w_model w);
  su_rng : w_rng w' = w_rng w;
  su_refused : ∀ e,
    (_validate_inputs (config (w_model w)) inputs).1 = Raise e →
    r = Raise e ∧ w' = add_log (_validate_inputs (config (w_model w)) inputs).2 w;
  su_tokenizer :
    (_validate_inputs (config (w_model w)) inputs).1 = Ok tt →
    w_tokenizer w' = setup_tokenizer (config (w_model w)) (w_tokenizer w);
  su_log :
    (_validate_inputs (config (w_model w)) inputs).1 = Ok tt →
    w_log w' = w_log w ++ (_validate_inputs (config (w_model w)) inputs).2
                       ++ (_get_generic_model_class (config (w_model w))).2;
  su_no_method : ∀ e,
    (_validate_inputs (config (w_model w)) inputs).1 = Ok tt →
    _get_decoding_method kw = Raise e →
    r = Raise e ∧ w_calls w' = w_calls w ++ [CallTokenizer];
  su_calls : ∀ m,
    (_validate_inputs (config (w_model w)) inputs).1 = Ok tt →
    _get_decoding_method kw = Ok m →
    w_calls w' = w_calls w ++ setup_calls kw;
  su_no_columns : ∀ m e,
    (_validate_inputs (config (w_model w)) inputs).1 = Ok tt →
    _get_decoding_method kw = Ok m →
    (_get_generic_model_class (config (w_model w))).1 = CausalLM →
    mask_columns (width (tk_input_ids (tokenize (w_tokenizer w') (prompts_of inputs))))
                 (max_new_tokens_of kw) = Raise e →
    r = Raise e;
  su_ok : ∀ env st,
    r = Ok (env, st) →
    (_validate_inputs (config (w_model w)) inputs).1 = Ok tt
    ∧ setup_spec inputs kw (config (w_model w)) (w_tokenizer w') env st;
}.

(** The rows of [all_decoder_input_ids] before the loop: the prompt ids for
    a decoder-only model, one start token per prompt for an encoder-decoder
    model. *)
Definition initial_history (cfg : ModelConfig) (tok : Tokenizer) (inputs : PyInputs)
    : list (list Z) :=
  match (_get_generic_model_class cfg).1 with
  | CausalLM => tk_input_ids (tokenize tok (prompts_of inputs))
  | Seq2SeqLM =>
      column (replicate (length (prompts_of inputs))
                        (default 0 (decoder_start_token_id cfg)))
  end.

(** [input_ids.shape[1]] of the tokenized prompts. *)
Definition prompt_width (tok : Tokenizer) (inputs : PyInputs) : nat :=
  width (tk_input_ids (tokenize tok (prompts_of inputs))).

(** The ways the set-up can raise, for a model with config [cfg] and the
    tokenizer [tok] as the set-up leaves it. *)
Inductive setup_error (inputs : PyInputs) (kw : gmap string PyVal)
    (cfg : ModelConfig) (tok : Tokenizer) : PyExc → Prop :=
| err_validation e :
    (_validate_inputs cfg inputs).1 = Raise e →
    setup_error inputs kw cfg tok e
| err_method e :
    _get_decoding_method kw = Raise e →
    setup_error inputs kw cfg tok e
| err_columns e :
    (_get_generic_model_class cfg).1 = CausalLM →
    mask_columns (prompt_width tok inputs) (max_new_tokens_of kw) = Raise e →
    setup_error inputs kw cfg tok e
| err_zeros cols e :
    (_get_generic_model_class cfg).1 = CausalLM →
    mask_columns (prompt_width tok inputs) (max_new_tokens_of kw) = Ok cols →
    new_zeros (length (prompts_of inputs)) cols = Raise e →
    setup_error inputs kw cfg tok e
| err_mask cols mask e :
    (_get_generic_model_class cfg).1 = CausalLM →
    mask_columns (prompt_width tok inputs) (max_new_tokens_of kw) = Ok cols →
    new_zeros (length (prompts_of inputs)) cols = Ok mask →
    pad_token tok ≠ eos_token tok →
    assign_prefix_tensor mask (prompt_width tok inputs)
      (tk_attention_mask (tokenize tok (prompts_of inputs))) = Raise e →
    setup_error inputs kw cfg tok e
| err_start :
    (_get_generic_model_class cfg).1 = Seq2SeqLM →
    decoder_start_token_id cfg = None →
    setup_error inputs kw cfg tok RuntimeError.




(** Statements that do not read the random generator: run from another
    generator state they return the same and change the world the same. *)
Definition rng_blind {A} (m : M A) : Prop :=
  ∀ w g, m (set_rng g w) = ((m w).1, set_rng g (m w).2).

End Effects.

(** ** Further predicates: the streamer *)

(** The calls that set [started]. *)
Definition is_put (c : StreamerCall) : bool :=
  match c with
  | DoPut _ => true
  | DoPutText _ | DoEnd => false
  end.

(** * Properties *)

(** ** Numbers *)

Lemma Qlt_bool_iff (x y : Q) : Qlt_bool x y = true ↔ (x < y)%Q.
Proof.
  unfold Qlt_bool. rewrite negb_true_iff. split.
  - intros Hle. apply Qnot_le_lt. intros Hyx.
    apply Qle_bool_iff in Hyx. congruence.
  - intros Hlt. destruct (Qle_bool y x) eqn:Hle; [|done].
    apply Qle_bool_iff in Hle. exfalso. by apply (Qlt_not_le x y).
Qed.

(** ** Engine selection *)

Lemma elem_of_BUILTIN_ENGINES (e : string) :
  e ∈ BUILTIN_ENGINES
  ↔ e = "DeepSpeed" ∨ e = "Accelerate" ∨ e = "transformers-neuronx".
Proof.
  unfold BUILTIN_ENGINES. rewrite !elem_of_union, !elem_of_singleton. tauto.
Qed.

(** C7. [get_stream_generator] returns a generator exactly for the three
    built-in engine names DeepSpeed, Accelerate and transformers-neuronx;
    for every other name it raises [ValueError]. *)
Theorem get_stream_generator_builtin_only (execution_engine : string) :
  ((∃ g, get_stream_generator execution_engine = Ok g)
   ↔ execution_engine = "DeepSpeed" ∨ execution_engine = "Accelerate"
     ∨ execution_engine = "transformers-neuronx")
  ∧ ((∃ msg, get_stream_generator execution_engine = Raise (ValueError msg))
     ↔ ¬ (execution_engine = "DeepSpeed" ∨ execution_engine = "Accelerate"
          ∨ execution_engine = "transformers-neuronx")).
Proof.
  rewrite <- elem_of_BUILTIN_ENGINES. unfold get_stream_generator.
  case_bool_decide as Hin; split; split.
  - done.
  - eauto.
  - intros [msg Hmsg]. discriminate.
  - done.
  - intros [g Hg]. discriminate.
  - done.
  - done.
  - eauto.
Qed.

(** ** Decoding-method selection *)

Lemma existsb_has_key (kw : gmap string PyVal) (params : list string) :
  existsb (fun param => has_key param kw) params = true
  ↔ ∃ param, param ∈ params ∧ is_Some (kw !! param).
Proof.
  rewrite existsb_exists. split.
  - intros (p & Hin & Hk). exists p. split; [by apply list_elem_of_In|].
    unfold has_key in Hk. destruct (kw !! p); [eauto | discriminate].
  - intros (p & Hin & [v Hv]). exists p. split; [by apply list_elem_of_In|].
    unfold has_key. by rewrite Hv.
Qed.

Lemma truthy_is_true (v : PyVal) : truthy v = true ↔ is_true v.
Proof.
  destruct v as [|b|z|q|str]; cbn.
  - split; [discriminate | done].
  - done.
  - rewrite negb_true_iff, Z.eqb_neq. done.
  - rewrite negb_true_iff, <- not_true_iff_false, Qeq_bool_iff. done.
  - rewrite negb_true_iff, String.eqb_neq. done.
Qed.

(** C1, amended. Decoding-method selection: a [beam_size] that is given
    and is not a number cannot be compared with 1 and raises [TypeError];
    a [beam_size] that is a number greater than 1 is refused with
    [NotImplementedError]; otherwise any of temperature, top_p, top_k,
    typical_p being set, or a true do_sample, selects the sampling
    decoder; otherwise the greedy decoder is selected. *)
Theorem decoding_method_selection (kw : gmap string PyVal) :
  (∀ v, kw !! "beam_size" = Some v → as_number v = None →
        _get_decoding_method kw = Raise TypeError)
  ∧ (beam_size_numeric kw →
       (beam_size_above_one kw →
          _get_decoding_method kw
          = Raise (NotImplementedError "beam search is not supported yet!"))
       ∧ (¬ beam_size_above_one kw → sampling_requested kw →
            _get_decoding_method kw = Ok sampling_decoding)
       ∧ (¬ beam_size_above_one kw → ¬ sampling_requested kw →
            _get_decoding_method kw = Ok greedy_decoding)).
Proof.
  split.
  { intros v Hv Hnone. unfold _get_decoding_method, py_gt. by rewrite Hv, Hnone. }
  intros Hnum. unfold _get_decoding_method.
  assert (Hbeam : ∃ b,
    match kw !! "beam_size" with
    | Some v => py_gt v 1
    | None => Ok false
    end = Ok b ∧ (b = true ↔ beam_size_above_one kw)).
  { unfold beam_size_above_one.
    destruct (kw !! "beam_size") as [v|] eqn:Hv.
    - destruct (Hnum v Hv) as [x Hx]. unfold py_gt. rewrite Hx.
      exists (Qlt_bool 1 x). split; [done|]. rewrite Qlt_bool_iff. split.
      + eauto.
      + intros (v' & x' & Hv' & Hx' & Hlt'). by simplify_eq.
    - exists false. split; [done|]. split; [done|].
      intros (v' & x' & Hv' & _). discriminate. }
  destruct Hbeam as (b & -> & Hb). cbn [pbind].
  split; [|split].
  - intros Ha. apply Hb in Ha. by subst b.
  - intros Ha Hs. destruct b; [by destruct Ha; apply Hb|].
    destruct Hs as [Hp | (v & Hv & Ht)].
    + apply existsb_has_key in Hp. by rewrite Hp.
    + apply truthy_is_true in Ht.
      destruct (existsb _ SAMPLING_PARAMS); [done|]. by rewrite Hv, Ht.
  - intros Ha Hs. destruct b; [by destruct Ha; apply Hb|].
    destruct (existsb _ SAMPLING_PARAMS) eqn:Hp.
    { exfalso. apply Hs. left. by apply existsb_has_key. }
    destruct (kw !! "do_sample") as [v|] eqn:Hv; [|done].
    destruct (truthy v) eqn:Ht; [|done].
    exfalso. apply Hs. right. exists v. split; [done|]. by apply truthy_is_true.
Qed.

Lemma decoding_method_selection_witness :
  _get_decoding_method {[ "beam_size" := VInt 3 ]}
  = Raise (NotImplementedError "beam search is not supported yet!")
  ∧ _get_decoding_method {[ "beam_size" := VInt 1; "top_p" := VFloat (9 # 10) ]}
    = Ok sampling_decoding
  ∧ _get_decoding_method {[ "do_sample" := VBool true ]} = Ok sampling_decoding
  ∧ _get_decoding_method {[ "max_new_tokens" := VInt 8 ]} = Ok greedy_decoding
  ∧ _get_decoding_method {[ "beam_size" := VStr "2" ]} = Raise TypeError.
Proof.
  split; [|split; [|split; [|split]]].
  - apply (proj2 (decoding_method_selection {[ "beam_size" := VInt 3 ]})).
    + intros v Hv. vm_compute in Hv. injection Hv as <-. by eexists.
    + exists (VInt 3), (inject_Z 3). by vm_compute.
  - apply (proj2 (decoding_method_selection
                    {[ "beam_size" := VInt 1; "top_p" := VFloat (9 # 10) ]})).
    + intros v Hv. vm_compute in Hv. injection Hv as <-. by eexists.
    + intros (v & x & Hv & Hx & Hlt). vm_compute in Hv. injection Hv as <-.
      injection Hx as <-. vm_compute in Hlt. discriminate.
    + left. exists "top_p". split; [|by eexists].
      unfold SAMPLING_PARAMS. rewrite !elem_of_cons. tauto.
  - apply (proj2 (decoding_method_selection {[ "do_sample" := VBool true ]})).
    + intros v Hv. vm_compute in Hv. discriminate.
    + intros (v & x & Hv & _). vm_compute in Hv. discriminate.
    + right. exists (VBool true). split; [by vm_compute | reflexivity].
  - apply (proj2 (decoding_method_selection {[ "max_new_tokens" := VInt 8 ]})).
    + intros v Hv. vm_compute in Hv. discriminate.
    + intros (v & x & Hv & _). vm_compute in Hv. discriminate.
    + intros [(p & Hin & [v Hv]) | (v & Hv & _)].
      * unfold SAMPLING_PARAMS in Hin. rewrite !elem_of_cons, elem_of_nil in Hin.
        destruct Hin as [-> | [-> | [-> | [-> | []]]]]; vm_compute in Hv; discriminate.
      * vm_compute in Hv. discriminate.
  - apply (proj1 (decoding_method_selection {[ "beam_size" := VStr "2" ]})
             (VStr "2")); reflexivity.
Defined.

(** C1, as stated, fails: a [beam_size] of [None] is not greater than 1 and
    nothing asks for sampling, yet no decoder is selected: the comparison
    with 1 raises [TypeError]. The same holds for the string ['2']. *)
Lemma beam_size_none_selects_nothing :
  ¬ beam_size_above_one {[ "beam_size" := VNone ]}
  ∧ ¬ sampling_requested {[ "beam_size" := VNone ]}
  ∧ _get_decoding_method {[ "beam_size" := VNone ]} ≠ Ok greedy_decoding
  ∧ _get_decoding_method {[ "beam_size" := VNone ]} = Raise TypeError
  ∧ _get_decoding_method {[ "beam_size" := VStr "2" ]} = Raise TypeError.
Proof.
  split; [|split; [|split; [|split]]]; try reflexivity; try discriminate.
  - intros (v & x & Hv & Hx & _). vm_compute in Hv. injection Hv as <-.
    discriminate.
  - intros [(p & Hin & [v Hv]) | (v & Hv & _)].
    + unfold SAMPLING_PARAMS in Hin. rewrite !elem_of_cons, elem_of_nil in Hin.
      destruct Hin as [-> | [-> | [-> | [-> | []]]]]; vm_compute in Hv; discriminate.
    + vm_compute in Hv. discriminate.
Qed.

(** Presence alone counts for the sampling parameters, truth for
    [do_sample]; a [beam_size] that is not an [int] is compared as the
    number it is. *)
Example decoding_method_corner_cases :
  _get_decoding_method {[ "temperature" := VNone ]} = Ok sampling_decoding
  ∧ _get_decoding_method {[ "do_sample" := VBool false ]} = Ok greedy_decoding
  ∧ _get_decoding_method {[ "do_sample" := VInt 1; "beam_size" := VBool true ]}
    = Ok sampling_decoding
  ∧ _get_decoding_method {[ "beam_size" := VFloat (3 # 2) ]}
    = Raise (NotImplementedError "beam search is not supported yet!").
Proof. repeat split. Qed.

(** ** Input validation *)

Lemma list_falsy_nonempty {A} (l : list A) :
  l ≠ [] → list_falsy (Some l) = false.
Proof. by destruct l. Qed.

Lemma existsb_false_Forall {A} (f : A → bool) (l : list A) :
  Forall (λ a, f a = false) l → existsb f l = false.
Proof.
  induction 1 as [|a l Ha _ IH]; [done|]. simpl. by rewrite Ha, IH.
Qed.

Lemma validate_inputs_refused (cfg : ModelConfig) (inputs : PyInputs) :
  refused_inputs inputs →
  ∃ msg warnings, _validate_inputs cfg inputs = (Raise (AssertionError msg), warnings).
Proof.
  intros Hbad. unfold _validate_inputs.
  destruct (list_falsy (architectures cfg)).
  - destruct inputs as [prompts|v]; simpl in *; [subst prompts|]; eauto.
  - destruct (negb _); [eauto|].
    destruct inputs as [prompts|v]; simpl in *; [subst prompts|]; eauto.
Qed.

(** C3, as the code has it: the warning and the CausalLM default belong to
    a config with no architectures (the field missing or empty), where
    validation lets a non-empty list of prompts through; a non-empty
    architectures list with no recognized suffix fails the assertion, with
    no warning. *)
Theorem missing_architectures_best_effort (cfg : ModelConfig) (inputs : PyInputs) :
  (list_falsy (architectures cfg) = true →
     _get_generic_model_class cfg = (CausalLM, [WARN_NO_ARCH_ASSUME])
     ∧ (¬ refused_inputs inputs →
          _validate_inputs cfg inputs = (Ok tt, [WARN_NO_ARCH_SUPPORTED])))
  ∧ (∀ archs,
       architectures cfg = Some archs → archs ≠ [] →
       Forall (λ a, endswith_any a SUPPORTED_MODEL_ARCH_SUFFIXES = false) archs →
       _validate_inputs cfg inputs
       = (Raise (AssertionError (msg_unsupported_arch archs)), [])).
Proof.
  split.
  - intros Hnone. unfold _get_generic_model_class, _validate_inputs.
    rewrite Hnone. split; [done|]. intros Hok.
    destruct inputs as [[|p prompts]|v]; simpl in *; done.
  - intros archs Harch Hne Hnot. unfold _validate_inputs.
    rewrite Harch, (list_falsy_nonempty archs Hne).
    change (default [] (Some archs)) with archs.
    by rewrite (existsb_false_Forall _ archs Hnot).
Qed.

Lemma missing_architectures_best_effort_witness :
  _validate_inputs {| architectures := None; decoder_start_token_id := None |}
                   (InputList ["Hello"])
  = (Ok tt, [WARN_NO_ARCH_SUPPORTED])
  ∧ _validate_inputs Toy.bert_config (InputList ["Hello"])
    = (Raise (AssertionError (msg_unsupported_arch ["BertModel"])), []).
Proof.
  split.
  - apply (missing_architectures_best_effort
             {| architectures := None; decoder_start_token_id := None |}
             (InputList ["Hello"])); [reflexivity|]. simpl. discriminate.
  - apply (missing_architectures_best_effort Toy.bert_config (InputList ["Hello"]));
      [reflexivity | discriminate |]. by repeat constructor.
Defined.

Section GeneratorFacts.
Context `{TF : Transformers} `{!Backend}.

(** C5. An [inputs] value that is not a list, and an empty list, are
    refused by validation with an [AssertionError]; validation is the first
    thing the generator does: nothing is yielded, and the model, the
    tokenizer, the random generator and the record of external calls (no
    tokenizer call, no forward call) are as they were - only warnings may
    have been logged. *)
Theorem invalid_inputs_rejected_first (fuel : nat) (inputs : PyInputs)
    (device : option string) (kw : gmap string PyVal) (w : World) :
  refused_inputs inputs →
  ∃ msg warnings,
    _validate_inputs (config (w_model w)) inputs = (Raise (AssertionError msg), warnings)
    ∧ _hf_model_stream_generator fuel inputs device kw w
      = ([], Raised (AssertionError msg), add_log warnings w)
    ∧ w_model (add_log warnings w) = w_model w
    ∧ w_tokenizer (add_log warnings w) = w_tokenizer w
    ∧ w_rng (add_log warnings w) = w_rng w
    ∧ w_calls (add_log warnings w) = w_calls w.
Proof.
  intros Hbad.
  destruct (validate_inputs_refused (config (w_model w)) inputs Hbad)
    as (msg & warnings & Hval).
  exists msg, warnings. split; [done|]. split; [|done].
  unfold _hf_model_stream_generator, generator_setup, mbind, get_config.
  by rewrite Hval.
Qed.

End GeneratorFacts.

(** ** Sampling *)

Section SamplingFacts.
Context `{TF : Transformers}.

Lemma py_lt_numeric (v : PyVal) (c : Q) :
  is_Some (as_number v) → ∃ b, py_lt v c = Ok b.
Proof. intros [x Hx]. unfold py_lt. rewrite Hx. eauto. Qed.

Lemma stage_skip (kw : gmap string PyVal) (k : ProcessorKind)
    (ps : list LogitsProcessor) :
  present_non_default kw k = false → stage kw k ps ps.
Proof.
  intros Hk. exists []. rewrite app_nil_r, filter_cons, filter_nil.
  split; [done|]. split; [|split; constructor].
  case_decide; [congruence | done].
Qed.

Lemma stage_append (kw : gmap string PyVal) (p : LogitsProcessor)
    (ps : list LogitsProcessor) :
  present_non_default kw (kind_of p) = true → built_from kw p →
  processor_error p = None →
  stage kw (kind_of p) ps (ps ++ [p]).
Proof.
  intros Hk Hp He. exists [p]. rewrite filter_cons, filter_nil.
  split; [done|]. split; [|split; by repeat constructor].
  case_decide; [done | congruence].
Qed.

Lemma stage_append_if (kw : gmap string PyVal) (p : LogitsProcessor)
    (ps ps' : list LogitsProcessor) (c : bool) :
  present_non_default kw (kind_of p) = c → built_from kw p →
  append_if c p ps = Ok ps' →
  stage kw (kind_of p) ps ps'.
Proof.
  intros Hk Hp. unfold append_if. destruct c.
  - destruct (processor_error p) eqn:He; [discriminate|].
    intros [= <-]. by apply stage_append.
  - intros [= <-]. by apply stage_skip.
Qed.

Lemma stage_repetition_penalty kw ps ps' :
  match kw !! "repetition_penalty" with
  | Some v => append_if (py_ne v 1) (RepetitionPenaltyLogitsProcessor v) ps
  | None => Ok ps
  end = Ok ps' →
  stage kw KRepetitionPenalty ps ps'.
Proof.
  destruct (kw !! "repetition_penalty") as [v|] eqn:Hv.
  - apply (stage_append_if kw (RepetitionPenaltyLogitsProcessor v)); [|done].
    unfold present_non_default. cbn. by rewrite Hv.
  - intros [= <-]. apply stage_skip. unfold present_non_default. cbn. by rewrite Hv.
Qed.

Lemma stage_temperature kw ps ps' :
  match kw !! "temperature" with
  | Some v => if py_ne v 1
              then t <-? py_float v;
                   append_if true (TemperatureLogitsWarper t) ps
              else Ok ps
  | None => Ok ps
  end = Ok ps' →
  stage kw KTemperature ps ps'.
Proof.
  destruct (kw !! "temperature") as [v|] eqn:Hv.
  - destruct (py_ne v 1) eqn:Hne.
    + destruct (py_float v) as [t|] eqn:Ht; [|discriminate].
      cbn [pbind].
      apply (stage_append_if kw (TemperatureLogitsWarper t)).
      * unfold present_non_default. cbn. by rewrite Hv.
      * cbn. eauto.
    + intros [= <-]. apply stage_skip. unfold present_non_default. cbn. by rewrite Hv.
  - intros [= <-]. apply stage_skip. unfold present_non_default. cbn. by rewrite Hv.
Qed.

Lemma stage_top_p kw ps ps' :
  match kw !! "top_p" with
  | Some v => c <-? py_lt v 1; append_if c (TopPLogitsWarper v) ps
  | None => Ok ps
  end = Ok ps' →
  stage kw KTopP ps ps'.
Proof.
  destruct (kw !! "top_p") as [v|] eqn:Hv.
  - destruct (py_lt v 1) as [c|] eqn:Hc; [|discriminate].
    cbn [pbind].
    apply (stage_append_if kw (TopPLogitsWarper v)); [|done].
    unfold present_non_default. cbn. by rewrite Hv, Hc.
  - intros [= <-]. apply stage_skip. unfold present_non_default. cbn. by rewrite Hv.
Qed.

Lemma stage_top_k kw ps ps' :
  match kw !! "top_k" with
  | Some v => append_if (py_ne v 0) (TopKLogitsWarper v) ps
  | None => Ok ps
  end = Ok ps' →
  stage kw KTopK ps ps'.
Proof.
  destruct (kw !! "top_k") as [v|] eqn:Hv.
  - apply (stage_append_if kw (TopKLogitsWarper v)); [|done].
    unfold present_non_default. cbn. by rewrite Hv.
  - intros [= <-]. apply stage_skip. unfold present_non_default. cbn. by rewrite Hv.
Qed.

Lemma stage_typical_p kw ps ps' :
  match kw !! "typical_p" with
  | Some v => c <-? py_lt v 1; append_if c (TypicalLogitsWarper v) ps
  | None => Ok ps
  end = Ok ps' →
  stage kw KTypicalP ps ps'.
Proof.
  destruct (kw !! "typical_p") as [v|] eqn:Hv.
  - destruct (py_lt v 1) as [c|] eqn:Hc; [|discriminate].
    cbn [pbind].
    apply (stage_append_if kw (TypicalLogitsWarper v)); [|done].
    unfold present_non_default. cbn. by rewrite Hv, Hc.
  - intros [= <-]. apply stage_skip. unfold present_non_default. cbn. by rewrite Hv.
Qed.

Lemma stage_compose kw k ks ps1 ps2 :
  processors_of kw ks ps1 →
  stage kw k ps1 ps2 →
  processors_of kw (ks ++ [k]) ps2.
Proof.
  intros (Hks & Hb & Ha) (added & -> & Hk & Hadd & Hacc).
  unfold processors_of.
  rewrite map_app, filter_app, Hks, Hk. split; [done|].
  split; by apply Forall_app.
Qed.

Lemma sampling_processors_kinds (kw : gmap string PyVal)
    (procs : list LogitsProcessor) :
  sampling_processors kw = Ok procs →
  processors_of kw PROCESSOR_ORDER procs.
Proof.
  unfold sampling_processors. cbv zeta.
  destruct (match kw !! "repetition_penalty" with Some _ => _ | None => _ end)
    as [ps1|] eqn:H1; [|discriminate].
  apply stage_repetition_penalty in H1. cbn [pbind].
  destruct (match kw !! "temperature" with Some _ => _ | None => _ end)
    as [ps2|] eqn:H2; [|discriminate].
  apply stage_temperature in H2. cbn [pbind].
  destruct (match kw !! "top_p" with Some _ => _ | None => _ end)
    as [ps3|] eqn:H3; [|discriminate].
  apply stage_top_p in H3. cbn [pbind].
  destruct (match kw !! "top_k" with Some _ => _ | None => _ end)
    as [ps4|] eqn:H4; [|discriminate].
  apply stage_top_k in H4. cbn [pbind].
  intros H5. apply stage_typical_p in H5.
  assert (K0 : processors_of kw [] []) by (by repeat split).
  pose proof (stage_compose kw _ _ _ _ K0 H1) as K1.
  pose proof (stage_compose kw _ _ _ _ K1 H2) as K2.
  pose proof (stage_compose kw _ _ _ _ K2 H3) as K3.
  pose proof (stage_compose kw _ _ _ _ K3 H4) as K4.
  exact (stage_compose kw _ _ _ _ K4 H5).
Qed.

Lemma append_if_accepted (c : bool) (p : LogitsProcessor)
    (ps : list LogitsProcessor) :
  (c = true → processor_error p = None) → ∃ ps', append_if c p ps = Ok ps'.
Proof.
  intros Hc. unfold append_if. destruct c; [|eauto].
  rewrite Hc by done. eauto.
Qed.

Lemma sampling_processors_accepted (kw : gmap string PyVal) :
  processor_params_numeric kw → processor_params_accepted kw →
  ∃ procs, sampling_processors kw = Ok procs.
Proof.
  intros Hnum Hacc. unfold sampling_processors. cbv zeta.
  assert (∃ ps1, match kw !! "repetition_penalty" with
                 | Some v =>
                     append_if (py_ne v 1) (RepetitionPenaltyLogitsProcessor v) []
                 | None => Ok []
                 end = Ok ps1) as [ps1 ->].
  { destruct (kw !! "repetition_penalty") as [v|] eqn:Hv; [|eauto].
    apply append_if_accepted. intros Hne.
    exact (Hacc KRepetitionPenalty v Hv Hne). }
  cbn [pbind].
  assert (∃ ps2, match kw !! "temperature" with
                 | Some v => if py_ne v 1
                             then t <-? py_float v;
                                  append_if true (TemperatureLogitsWarper t) ps1
                             else Ok ps1
                 | None => Ok ps1
                 end = Ok ps2) as [ps2 ->].
  { destruct (kw !! "temperature") as [v|] eqn:Hv; [|eauto].
    destruct (py_ne v 1) eqn:Hne; [|eauto].
    destruct (Hacc KTemperature v Hv Hne) as (t & -> & Ht). cbn [pbind].
    by apply append_if_accepted. }
  cbn [pbind].
  assert (∃ ps3, match kw !! "top_p" with
                 | Some v => c <-? py_lt v 1; append_if c (TopPLogitsWarper v) ps2
                 | None => Ok ps2
                 end = Ok ps3) as [ps3 ->].
  { destruct (kw !! "top_p") as [v|] eqn:Hv; [|eauto].
    destruct (py_lt_numeric v 1 (Hnum KTopP v Hv)) as [c Hc]. rewrite Hc.
    cbn [pbind]. apply append_if_accepted. intros ->.
    apply (Hacc KTopP v Hv). cbn. by rewrite Hc. }
  cbn [pbind].
  assert (∃ ps4, match kw !! "top_k" with
                 | Some v => append_if (py_ne v 0) (TopKLogitsWarper v) ps3
                 | None => Ok ps3
                 end = Ok ps4) as [ps4 ->].
  { destruct (kw !! "top_k") as [v|] eqn:Hv; [|eauto].
    apply append_if_accepted. intros Hne.
    exact (Hacc KTopK v Hv Hne). }
  cbn [pbind].
  destruct (kw !! "typical_p") as [v|] eqn:Hv; [|eauto].
  destruct (py_lt_numeric v 1 (Hnum KTypicalP v Hv)) as [c Hc]. rewrite Hc.
  cbn [pbind]. apply append_if_accepted. intros ->.
  apply (Hacc KTypicalP v Hv). cbn. by rewrite Hc.
Qed.

(** C6. In [_sampling_decoding] the processors are, in this order,
    repetition penalty, temperature, top-p, top-k, typical-p, each present
    exactly when its parameter is set and non-default, built from that
    parameter and accepted by its constructor; they are applied to the
    last-step scores first to last, the result goes through softmax, and
    the token returned is one multinomial draw from those probabilities
    (unless [manual_seed] is given and refused by the generator, or
    [multinomial] refuses the probabilities, which raises). Every token
    the function returns is such a draw. The list is built whenever the
    parameters given are numbers, [float] converts a non-default
    temperature and the constructors accept the non-default values; a
    constructor that refuses its value makes the call raise instead. *)
Theorem sampling_decoding_composition (kw : gmap string PyVal) :
  (∀ procs, sampling_processors kw = Ok procs →
     map kind_of procs
     = filter (λ k, present_non_default kw k = true) PROCESSOR_ORDER
     ∧ Forall (built_from kw) procs
     ∧ Forall (λ p, processor_error p = None) procs
     ∧ ∀ logits ids g,
         let probs :=
           softmax (fold_left (λ sc p, call_processor p ids sc) procs
                              (last_scores logits)) in
         match seeding kw, draw_error probs with
         | Ok _, None =>
             _sampling_decoding logits ids kw g
             = (Ok (multinomial probs g).1, (multinomial probs g).2)
         | Ok _, Some e | Raise e, _ =>
             _sampling_decoding logits ids kw g = (Raise e, g)
         end)
  ∧ (∀ logits ids g token g',
       _sampling_decoding logits ids kw g = (Ok token, g') →
       ∃ procs, sampling_processors kw = Ok procs
         ∧ (token, g')
           = multinomial
               (softmax (fold_left (λ sc p, call_processor p ids sc) procs
                                   (last_scores logits))) g)
  ∧ (processor_params_numeric kw → processor_params_accepted kw →
     ∃ procs, sampling_processors kw = Ok procs)
  ∧ (∀ e, sampling_processors kw = Raise e →
     ∀ logits ids g, _sampling_decoding logits ids kw g = (Raise e, g)).
Proof.
  assert (Hrun : ∀ procs logits ids g, sampling_processors kw = Ok procs →
            let probs :=
              softmax (fold_left (λ sc p, call_processor p ids sc) procs
                                 (last_scores logits)) in
            match seeding kw, draw_error probs with
            | Ok _, None =>
                _sampling_decoding logits ids kw g
                = (Ok (multinomial probs g).1, (multinomial probs g).2)
            | Ok _, Some e | Raise e, _ =>
                _sampling_decoding logits ids kw g = (Raise e, g)
            end).
  { intros procs logits ids g Hprocs probs.
    unfold _sampling_decoding, seeding, draw. rewrite Hprocs.
    fold (call_processors procs ids (last_scores logits)).
    change (softmax (call_processors procs ids (last_scores logits))) with probs.
    destruct (kw !! "manual_seed") as [v|] eqn:Hv.
    - destruct (seeded_generator v) as [gen|e] eqn:Hgen; cbn [pbind]; [|done].
      destruct (draw_error probs) as [e|]; cbn [fst pbind]; [done|].
      destruct (multinomial probs gen). cbn [fst pbind].
      by destruct (multinomial probs g).
    - destruct (draw_error probs) as [e|]; [done|].
      by destruct (multinomial probs g). }
  split; [|split; [|split]].
  - intros procs Hprocs.
    destruct (sampling_processors_kinds kw procs Hprocs) as (Hk & Hb & Ha).
    repeat split; [done..|]. intros logits ids g. by apply Hrun.
  - intros logits ids g token g' Hcall.
    destruct (sampling_processors kw) as [procs|e] eqn:Hprocs.
    + exists procs. split; [done|].
      pose proof (Hrun procs logits ids g eq_refl) as Hr. cbv zeta in Hr.
      destruct (seeding kw); [destruct (draw_error _)|];
        rewrite Hr in Hcall; try discriminate.
      injection Hcall as <- <-. by destruct (multinomial _ g).
    + unfold _sampling_decoding in Hcall. rewrite Hprocs in Hcall. discriminate.
  - apply sampling_processors_accepted.
  - intros e He logits ids g. unfold _sampling_decoding. by rewrite He.
Qed.

(** C4, on the code: the generator seeded with [manual_seed] is drawn from
    once and that draw is dropped; the token returned is drawn from the
    default generator. A call with a [manual_seed] the generator takes
    therefore returns what the call without [manual_seed] returns,
    whatever the seed; a [manual_seed] the generator refuses makes the
    call raise torch's exception, after the processors were built. *)
Theorem manual_seed_draw_is_discarded (logits : Logits) (ids : list Z)
    (kw : gmap string PyVal) (seed : PyVal) (global_rng : Generator) :
  let seeded :=
    _sampling_decoding logits ids (<["manual_seed" := seed]> kw) global_rng in
  let unseeded :=
    _sampling_decoding logits ids (delete "manual_seed" kw) global_rng in
  match seeded_generator seed with
  | Ok _ => seeded = unseeded
  | Raise e =>
      match sampling_processors (delete "manual_seed" kw) with
      | Ok _ => seeded = (Raise e, global_rng)
      | Raise _ => seeded = unseeded
      end
  end.
Proof.
  assert (Hp : sampling_processors (<["manual_seed" := seed]> kw)
               = sampling_processors (delete "manual_seed" kw)).
  { unfold sampling_processors.
    by rewrite !lookup_insert_ne, !lookup_delete_ne by done. }
  cbv zeta. unfold _sampling_decoding.
  rewrite Hp, lookup_insert_eq, lookup_delete_eq. clear Hp.
  destruct (seeded_generator seed) as [gen|e];
    destruct (sampling_processors _) as [procs|e']; cbn [pbind]; try done.
  unfold draw. destruct (draw_error _) as [e|]; [done|].
  by destruct (multinomial _ gen).
Qed.

End SamplingFacts.

(** ** The queue-backed streamer *)

Section StreamerFacts.
Context `{T : Torch} `{!Backend}.

Lemma run_call_queue (c : StreamerCall) (s : HFStreamer) :
  queue (run_call c s) = queue s ++ [enqueued (hf_tokenizer s) c]
  ∧ hf_tokenizer (run_call c s) = hf_tokenizer s.
Proof. by destruct c. Qed.

Lemma next_value_queue (s s' : HFStreamer) (chunk : Chunk) :
  next_ s = Some (Returned chunk, s') →
  queue s = Some chunk :: queue s' ∧ hf_tokenizer s' = hf_tokenizer s.
Proof.
  unfold next_. destruct (queue s) as [|[c|] rest] eqn:Hq; [done| |done].
  intros [= -> <-]. done.
Qed.

Lemma next_stop_queue (s s' : HFStreamer) :
  next_ s = Some (StopIteration, s') →
  queue s = stop_signal :: queue s' ∧ hf_tokenizer s' = hf_tokenizer s.
Proof.
  unfold next_. destruct (queue s) as [|[c|] rest] eqn:Hq; [done|done|].
  intros [= <-]. done.
Qed.

Lemma stream_inv_step tok items s s' :
  stream_inv tok items s → stream_step s s' → stream_inv tok items s'.
Proof.
  intros [Htok Hitems] Hstep. unfold stream_inv in *.
  destruct Hstep as [c rest st got b | th st st' chunk got Hnext | th st st' got Hnext];
    cbn in *.
  - destruct (run_call_queue c st) as [-> ->]. split; [done|].
    rewrite Hitems, Htok. by rewrite <- !app_assoc.
  - destruct (next_value_queue _ _ _ Hnext) as [Hq Ht]. split; [congruence|].
    rewrite Hitems, Hq, map_app. cbn. by rewrite <- !app_assoc.
  - destruct (next_stop_queue _ _ Hnext) as [Hq Ht]. split; [congruence|].
    by rewrite Hitems, Hq.
Qed.

Lemma stream_inv_rtc tok items s s' :
  stream_inv tok items s → rtc stream_step s s' → stream_inv tok items s'.
Proof. intros Hinv Hsteps. induction Hsteps; eauto using stream_inv_step. Qed.

Lemma before_stop_chunks (got : list Chunk) (rest : list (option Chunk)) :
  before_stop (map Some got ++ rest) = got ++ before_stop rest.
Proof. induction got as [|c got IH]; cbn; [done | by rewrite IH]. Qed.

Lemma stream_step_measure s s' :
  stream_step s s' → (stream_measure s' < stream_measure s)%nat.
Proof.
  unfold stream_measure.
  intros [c rest st got b | th st st' chunk got Hnext | th st st' got Hnext]; cbn.
  - destruct (run_call_queue c st) as [-> _]. rewrite length_app. cbn. lia.
  - destruct (next_value_queue _ _ _ Hnext) as [-> _]. cbn. lia.
  - destruct (next_stop_queue _ _ Hnext) as [-> _]. cbn. lia.
Qed.

Lemma run_generation_ends (g : Generate) :
  ∃ calls, run_generation g = calls ++ [DoEnd]
    ∧ ∀ text, gen_exit g = RaisesException text →
        calls = gen_calls g ++ [DoPutText text].
Proof.
  unfold run_generation. destruct (gen_exit g) as [|text].
  - exists (gen_calls g). split; [done | discriminate].
  - exists (gen_calls g ++ [DoPutText text]). split; [by rewrite <- app_assoc|].
    by intros ? [= <-].
Qed.

(** C8. Every stream made by [use_hf_default_streamer] ends with the stop
    signal: the thread's last call is [end()], preceded by [put_text] of
    the exception text when [model.generate] raised. In every interleaving
    the consumer has received, in queue order, exactly the items ahead of
    the position it has reached, the stop signal being among the dequeued
    items exactly when it has stopped; once stopped it holds all chunks
    ahead of the first stop signal; it cannot block forever: every step
    lowers [stream_measure], and a state with no step left is stopped. *)
Theorem streamer_terminated_by_stop_signal (tokenizer : Tokenizer) (g : Generate) :
  let tok := (use_hf_default_streamer tokenizer g).1 in
  let s0 := (use_hf_default_streamer tokenizer g).2 in
  let items := map (enqueued tok) (thread s0) in
  (∃ calls, thread s0 = calls ++ [DoEnd]
     ∧ ∀ text, gen_exit g = RaisesException text →
         calls = gen_calls g ++ [DoPutText text])
  ∧ ∀ s, rtc stream_step s0 s →
      items = map Some (received s)
              ++ (if stopped s then [stop_signal] else [])
              ++ queue (streamer s)
              ++ map (enqueued tok) (thread s)
      ∧ (stopped s = true → received s = before_stop items)
      ∧ (∀ s', stream_step s s' → (stream_measure s' < stream_measure s)%nat)
      ∧ ((∀ s', ¬ stream_step s s') → stopped s = true).
Proof.
  intros tok s0 items.
  split; [apply run_generation_ends|].
  intros s Hsteps.
  assert (Hinv : stream_inv tok items s).
  { apply (stream_inv_rtc tok items s0); [|done]. split; [done|].
    subst items. cbn. done. }
  destruct Hinv as [Htok Hitems].
  split; [done|]. split; [|split].
  - intros Hstop. rewrite Hitems at 1. rewrite Hstop, before_stop_chunks. cbn.
    by rewrite app_nil_r.
  - intros s'. apply stream_step_measure.
  - intros Hstuck. destruct s as [th st got [|]]; [done|]. exfalso. cbn in *.
    destruct th as [|c rest]; [|by eapply Hstuck, step_thread].
    destruct (queue st) as [|[chunk|] q] eqn:Hq.
    + (* nothing left anywhere, yet the thread's last item is the stop signal *)
      destruct (run_generation_ends g) as (calls & Hcalls & _).
      subst items. cbn in Hitems. rewrite Hcalls, map_app in Hitems. cbn in Hitems.
      rewrite !app_nil_r in Hitems.
      assert (Hin : stop_signal ∈ map Some got).
      { rewrite <- Hitems. apply elem_of_app. right. by apply list_elem_of_singleton. }
      apply list_elem_of_fmap in Hin as (c & Hc & _). discriminate.
    + eapply Hstuck, step_next_value. unfold next_. by rewrite Hq.
    + eapply Hstuck, step_next_stop. unfold next_. by rewrite Hq.
Qed.

End StreamerFacts.

(** ** The generator loop *)

Section LoopFacts.
Context `{TF : Transformers} `{!Backend}.

Lemma mbind_ok {A B} (m : M A) (k : A → M B) (w w' : World) (b : B) :
  mbind m k w = (Ok b, w') →
  ∃ a w1, m w = (Ok a, w1) ∧ k a w1 = (Ok b, w').
Proof.
  unfold mbind. destruct (m w) as [[a|e] w1]; [eauto | discriminate].
Qed.

Lemma keeps_mret {A} (a : A) : keeps_tokenizer (mret a).
Proof. by intros w r w' [= _ <-]. Qed.

Lemma keeps_mraise {A} (e : PyExc) : keeps_tokenizer (mraise e : M A).
Proof. by intros w r w' [= _ <-]. Qed.

Lemma keeps_lift {A} (r : PyResult A) : keeps_tokenizer (lift r).
Proof. by intros w r' w' [= _ <-]. Qed.

Lemma keeps_mbind {A B} (m : M A) (k : A → M B) :
  keeps_tokenizer m → (∀ a, keeps_tokenizer (k a)) → keeps_tokenizer (mbind m k).
Proof.
  intros Hm Hk w r w'. unfold mbind.
  destruct (m w) as [[a|e] w1] eqn:Hmw.
  - intros Hka. rewrite (Hk a _ _ _ Hka). eauto.
  - intros [= _ <-]. eauto.
Qed.

Lemma keeps_get_tokenizer : keeps_tokenizer get_tokenizer.
Proof. by intros w r w' [= _ <-]. Qed.

Lemma keeps_call_forward args : keeps_tokenizer (call_forward args).
Proof.
  intros w r w'. unfold call_forward. destruct (forward _ _). by intros [= _ <-].
Qed.

Lemma keeps_call_prepare_inputs ids mask pkv :
  keeps_tokenizer (call_prepare_inputs ids mask pkv).
Proof. by intros w r w' [= _ <-]. Qed.

Lemma keeps_call_batch_decode ids : keeps_tokenizer (call_batch_decode ids).
Proof. by intros w r w' [= _ <-]. Qed.

Lemma keeps_call_decode m lg ids kw : keeps_tokenizer (call_decode m lg ids kw).
Proof.
  intros w r w'. unfold call_decode. destruct (call_decoding_method _ _ _ _ _).
  by intros [= _ <-].
Qed.

Lemma keeps_decode_rows env all_ids i rows :
  keeps_tokenizer (decode_rows env all_ids i rows).
Proof.
  revert i. induction rows as [|lg rows IH]; intros i; cbn [decode_rows].
  - apply keeps_mret.
  - apply keeps_mbind; [destruct (all_ids !! i); [apply keeps_mret | apply keeps_mraise]|].
    intros ids. apply keeps_mbind; [apply keeps_call_decode|].
    intros t. apply keeps_mbind; [apply IH|]. intros rest. apply keeps_mret.
Qed.

Create HintDb keeps discriminated.
Hint Resolve keeps_mret keeps_mraise keeps_lift keeps_get_tokenizer
  keeps_call_forward keeps_call_prepare_inputs keeps_call_batch_decode
  keeps_call_decode keeps_decode_rows : keeps.

Ltac keeps_step :=
  first [ apply keeps_mbind; [|intros ?]
        | match goal with
          | |- keeps_tokenizer (match ?x with _ => _ end) => destruct x
          | |- keeps_tokenizer (if ?x then _ else _) => destruct x
          end
        | solve [auto with keeps] ].

Lemma keeps_loop_body env st : keeps_tokenizer (loop_body env st).
Proof. unfold loop_body. repeat keeps_step. Qed.

Tactic Notation "inv_bind" hyp(H) "as" ident(a) ident(w1) ident(H1) :=
  apply mbind_ok in H as (a & w1 & H1 & H).

Lemma loop_body_ok env st w step w' :
  loop_body env st w = (Ok step, w') →
  ∃ eos pad, body_spec env st w step w' eos pad.
Proof.
  intros Hbody. pose proof (keeps_loop_body env st w _ _ Hbody) as Htok.
  unfold loop_body in Hbody.
  inv_bind Hbody as outputs w0 Hfwd.
  assert (Htok0 : w_tokenizer w0 = w_tokenizer w).
  { revert Hfwd. generalize (Ok outputs). intros r Hfwd. revert Hfwd.
    apply (λ K, K w r w0). change (keeps_tokenizer
      match generic_model_class env with
      | CausalLM =>
          if is_neuronx (engine env)
          then mbind (call_prepare_inputs (input_ids st)
                        (map (take (curr_length st)) (attention_mask st))
                        (past_key_values st))
                     (λ prepared, call_forward (NeuronArgs prepared))
          else call_forward (CausalArgs (input_ids st)
                               (map (take (curr_length st)) (attention_mask st))
                               (past_key_values st))
      | Seq2SeqLM =>
          call_forward (Seq2SeqArgs (input_ids st) (attention_mask st)
                          (decoder_input_ids st) (encoder_last_hidden_state st)
                          (past_key_values st))
      end).
    repeat keeps_step. }
  inv_bind Hbody as next_token_ids w1 Hdec.
  pose proof (keeps_decode_rows _ _ _ _ _ _ _ Hdec) as Htok1.
  inv_bind Hbody as u1 w2 Hcat.
  destruct (_ || _); [discriminate|]. injection Hcat as _ <-.
  inv_bind Hbody as tok w3 Hget. injection Hget as <- <-.
  inv_bind Hbody as eos w4 Heos.
  destruct (eos_token_id (w_tokenizer w1)) as [eos'|] eqn:Heos'; [|discriminate].
  injection Heos as <- <-.
  inv_bind Hbody as u2 w5 Hview.
  destruct (negb _) eqn:Hrows; [discriminate|]. injection Hview as _ <-.
  inv_bind Hbody as pad w6 Hpad.
  destruct (pad_token_id (w_tokenizer w1)) as [pad'|] eqn:Hpad'; [|discriminate].
  injection Hpad as <- <-.
  inv_bind Hbody as text w7 Htext. injection Htext as <- <-.
  inv_bind Hbody as st' w8 Hst.
  inv_bind Hbody as stop w9 Hstop.
  injection Hstop as Hstop <-. injection Hbody as <- <-.
  exists eos', pad'.
  apply negb_false_iff, Nat.eqb_eq in Hrows.
  assert (Hst' : unfinished_sequences st'
                 = zip_with Z.mul (unfinished_sequences st)
                     (map (λ t, if t =? eos' then 0 else 1) next_token_ids)
                 ∧ new_tokens_count st' = new_tokens_count st + 1).
  { destruct (generic_model_class env).
    - inv_bind Hst as mask w10 Hmask. by injection Hst as <- _.
    - by injection Hst as <- _. }
  destruct Hst' as [Hunf Hcount].
  split; cbn; try congruence.
  - by rewrite Hunf.
  - by rewrite Htok1, Htok0.
Qed.

(** *** The stopping criterion *)

Lemma tensor_sum_flags (u : list Z) :
  flags u → 0 <= tensor_sum u ∧ (tensor_sum u = 0 ↔ Forall (λ x, x = 0) u).
Proof.
  induction 1 as [|x u Hx _ [IH0 IH]].
  - cbn. split; [lia|]. split; [constructor | done].
  - change (tensor_sum (x :: u)) with (x + tensor_sum u).
    split; [lia|]. rewrite Forall_cons, <- IH. lia.
Qed.

Lemma has_met_stopping_criteria_true (u : list Z) (count : Z) (max_new : PyVal) :
  flags u →
  _has_met_stopping_criteria u count max_new = Ok true
  ↔ Forall (λ x, x = 0) u ∨ py_int_ge count max_new = Ok true.
Proof.
  intros Hu. destruct (tensor_sum_flags u Hu) as [_ Hsum].
  unfold _has_met_stopping_criteria.
  destruct (tensor_sum u =? 0) eqn:Hz.
  - apply Z.eqb_eq in Hz. split; [|done]. left. by apply Hsum.
  - apply Z.eqb_neq in Hz.
    destruct (py_int_ge count max_new) as [[]|e]; cbn; split; try done; eauto.
    + intros [Hall | ?]; [|done]. by apply Hsum in Hall.
    + intros [Hall | ?]; [|done]. by apply Hsum in Hall.
Qed.

Lemma has_met_stopping_criteria_false (u : list Z) (count : Z) (max_new : PyVal) :
  _has_met_stopping_criteria u count max_new = Ok false →
  ∃ q, as_number max_new = Some q ∧ (inject_Z count < q)%Q.
Proof.
  unfold _has_met_stopping_criteria, py_int_ge.
  destruct (tensor_sum u =? 0); [discriminate|].
  destruct (as_number max_new) as [q|]; [|discriminate]. cbn.
  destruct (Qle_bool q (inject_Z count)) eqn:Hle; [discriminate|].
  intros _. exists q. split; [done|].
  apply Qnot_le_lt. intros Hq. apply Qle_bool_iff in Hq. congruence.
Qed.

Lemma remaining_step (max_new : PyVal) (count : Z) (q : Q) :
  as_number max_new = Some q → (inject_Z (count + 1) < q)%Q →
  (1 ≤ remaining max_new (count + 1))%nat
  ∧ remaining max_new count = S (remaining max_new (count + 1)).
Proof.
  intros Hq Hlt. unfold remaining. rewrite Hq.
  assert (count + 1 < Qceiling q).
  { apply Qlt_le_trans with (z := inject_Z (Qceiling q)) in Hlt; [|apply Qle_ceiling].
    by rewrite <- Zlt_Qlt in Hlt. }
  lia.
Qed.

(** *** Finished rows *)

Lemma mul_not_eos_lookup (eos : Z) (u tokens : list Z) (i : nat) (x t : Z) :
  u !! i = Some x → tokens !! i = Some t →
  zip_with Z.mul u (not_eos eos tokens) !! i
  = Some (x * (if t =? eos then 0 else 1)).
Proof.
  intros Hx Ht. unfold not_eos.
  by rewrite lookup_zip_with, Hx, list_lookup_fmap, Ht.
Qed.

Lemma mul_not_eos_flags (eos : Z) (u tokens : list Z) :
  flags u → flags (zip_with Z.mul u (not_eos eos tokens)).
Proof.
  unfold flags, not_eos. intros Hu. revert tokens.
  induction Hu as [|x u Hx _ IH]; intros [|t tokens]; cbn; try constructor.
  - destruct (t =? eos); lia.
  - apply IH.
Qed.

Lemma mul_not_eos_length (eos : Z) (u tokens : list Z) :
  length tokens = length u →
  length (zip_with Z.mul u (not_eos eos tokens)) = length u.
Proof.
  intros Hlen. unfold not_eos. rewrite length_zip_with, length_map. lia.
Qed.

(** A row is finished after a step exactly when it was finished before or
    the step's token for it is [eos]. *)
Lemma mul_not_eos_zero (eos : Z) (u tokens : list Z) (i : nat) :
  flags u → length tokens = length u → (i < length u)%nat →
  zip_with Z.mul u (not_eos eos tokens) !! i = Some 0
  ↔ u !! i = Some 0 ∨ tokens !! i = Some eos.
Proof.
  intros Hu Hlen Hi.
  destruct (lookup_lt_is_Some_2 u i Hi) as [x Hx].
  destruct (lookup_lt_is_Some_2 tokens i ltac:(lia)) as [t Ht].
  rewrite (mul_not_eos_lookup eos u tokens i x t Hx Ht), Hx, Ht.
  assert (Hflag : x = 0 ∨ x = 1).
  { unfold flags in Hu. rewrite Forall_lookup in Hu. eauto. }
  destruct (Z.eqb_spec t eos) as [->|Hne]; split.
  - by right.
  - intros _. f_equal. lia.
  - intros [= Hz]. left. f_equal. lia.
  - intros [[= ->] | [= ?]]; [done | congruence].
Qed.

Lemma mask_finished_pad (tokens u : list Z) (pad : Z) (i : nat) :
  length tokens = length u → u !! i = Some 0 →
  mask_finished tokens u pad !! i = Some pad.
Proof.
  intros Hlen Hu. unfold mask_finished.
  assert (Hi : (i < length tokens)%nat).
  { rewrite Hlen. by eapply lookup_lt_Some. }
  destruct (lookup_lt_is_Some_2 tokens i Hi) as [t Ht].
  rewrite lookup_zip_with, Ht, Hu. cbn. f_equal. lia.
Qed.

(** *** Runs as chains of steps *)

Lemma final_state_cons st step steps :
  final_state st (step :: steps) = final_state (after step) steps.
Proof.
  unfold final_state. destruct steps as [|s steps]; [done|].
  rewrite last_cons_cons.
  destruct (last (s :: steps)) eqn:Hlast; [done|].
  by apply last_None in Hlast.
Qed.

Lemma stream_loop_chain fuel env st w steps outcome w' :
  stream_loop fuel env st w = (steps, outcome, w') →
  chain env (w_tokenizer w) (eos_of (w_tokenizer w)) (pad_of (w_tokenizer w)) st steps
  ∧ w_tokenizer w' = w_tokenizer w
  ∧ (outcome = Done → stop_generation (final_state st steps) = true)
  ∧ (∀ e, outcome = Raised e → stop_generation (final_state st steps) = false).
Proof.
  revert st w steps outcome w'.
  induction fuel as [|fuel IH]; intros st w steps outcome w'; cbn [stream_loop].
  { intros [= <- <- <-]. repeat split; [constructor | done..]. }
  destruct (stop_generation st) eqn:Hstop.
  { intros [= <- <- <-]. repeat split; [constructor | done..]. }
  destruct (loop_body env st w) as [[step|e] w1] eqn:Hbody.
  - destruct (stream_loop fuel env (after step) w1) as [[steps1 outcome1] w2] eqn:Hloop.
    intros [= <- <- <-].
    destruct (loop_body_ok _ _ _ _ _ Hbody) as (eos & pad & Hspec).
    destruct Hspec as [Heos Hpad Htok Hrows Hunf Hcount Hyield Htext Hstop'].
    destruct (IH _ _ _ _ _ Hloop) as (Hchain & Htok' & Hdone & Hraised).
    rewrite Htok in Hchain, Htok'. rewrite final_state_cons.
    unfold eos_of, pad_of in *. rewrite Heos, Hpad in *. cbn in *.
    repeat split; try done.
    constructor; [done | by split | done].
  - intros [= <- <- <-]. repeat split; try done; [constructor|].
    by apply (keeps_loop_body env st w _ _ Hbody).
Qed.

Lemma emitted_eos_cons eos step steps i :
  emitted_eos eos (step :: steps) i
  ↔ token_ids step !! i = Some eos ∨ emitted_eos eos steps i.
Proof.
  unfold emitted_eos. split.
  - intros (s & Hin & Hs). apply elem_of_cons in Hin as [->|Hin]; eauto.
  - intros [Hs | (s & Hin & Hs)].
    + exists step. split; [apply elem_of_cons; by left | done].
    + exists s. split; [apply elem_of_cons; by right | done].
Qed.

Lemma emitted_eos_nil eos i : ¬ emitted_eos eos [] i.
Proof. intros (s & Hin & _). by apply elem_of_nil in Hin. Qed.

Lemma chain_facts env tok eos pad st steps :
  chain env tok eos pad st steps →
  flags (unfinished_sequences st) →
  length (unfinished_sequences st) = batch env →
  ∀ k s, steps !! k = Some s → step_facts env tok eos pad st steps k s.
Proof.
  induction 1 as [st | st step steps Hgo Hstep Hchain IH]; intros Hflags Hlen k s Hk.
  { by rewrite lookup_nil in Hk. }
  destruct Hstep as [Hrows Hunf Hcount Hyield Htext Hstop].
  assert (Hflags' : flags (unfinished_sequences (after step))).
  { rewrite Hunf. by apply mul_not_eos_flags. }
  assert (Hlen' : length (unfinished_sequences (after step)) = batch env).
  { rewrite Hunf, mul_not_eos_length; congruence. }
  assert (Hzero : ∀ i, (i < batch env)%nat →
            unfinished_sequences (after step) !! i = Some 0
            ↔ unfinished_sequences st !! i = Some 0 ∨ token_ids step !! i = Some eos).
  { intros i Hi. rewrite Hunf. apply mul_not_eos_zero; [done | congruence | lia]. }
  destruct k as [|k]; cbn in Hk.
  - injection Hk as <-. split; try done.
    + intros i Hi. rewrite (Hzero i Hi). cbn [take].
      rewrite emitted_eos_cons. pose proof (emitted_eos_nil eos i). tauto.
    + cbn. intros Hmore. destruct Hchain as [|? s1 rest Hgo1 _ _]; [cbn in *; lia | done].
  - destruct (IH Hflags' Hlen' k s Hk) as [Fc Ff Fl Fr Fz Fgo Fy Ft Fs].
    split; try done.
    + rewrite Fc, Hcount. lia.
    + intros i Hi. rewrite (Fz i Hi), (Hzero i Hi). cbn [take].
      rewrite emitted_eos_cons. tauto.
    + cbn. intros Hmore. apply Fgo. lia.
Qed.

(** *** Fuel *)

Lemma stream_loop_fuel fuel env st w :
  (Nat.max 1 (remaining (max_new_tokens env) (new_tokens_count st)) < fuel)%nat →
  (stream_loop fuel env st w).1.2 ≠ OutOfFuel.
Proof.
  revert st w. induction fuel as [|fuel IH]; intros st w Hfuel; [lia|].
  cbn [stream_loop]. destruct (stop_generation st); [done|].
  destruct (loop_body env st w) as [[step|e] w1] eqn:Hbody; [|done].
  destruct (loop_body_ok _ _ _ _ _ Hbody) as (eos & pad & Hspec).
  specialize (IH (after step) w1).
  destruct (stream_loop fuel env (after step) w1) as [[steps outcome] w2] eqn:Hloop.
  cbn in *. destruct (stop_generation (after step)) eqn:Hstop.
  - destruct fuel as [|fuel]; [lia|]. cbn in Hloop. rewrite Hstop in Hloop.
    by injection Hloop as _ <- _.
  - apply IH. pose proof (body_stop _ _ _ _ _ _ _ Hspec) as Hmet.
    rewrite Hstop in Hmet.
    apply has_met_stopping_criteria_false in Hmet as (q & Hq & Hlt).
    rewrite (body_count _ _ _ _ _ _ _ Hspec) in Hlt |- *.
    destruct (remaining_step _ _ _ Hq Hlt). lia.
Qed.

Lemma chain_length env tok eos pad st steps :
  chain env tok eos pad st steps →
  (length steps ≤ Nat.max 1 (remaining (max_new_tokens env) (new_tokens_count st)))%nat.
Proof.
  induction 1 as [st | st step steps Hgo Hstep Hchain IH]; cbn [length]; [lia|].
  inversion Hchain as [|? s2 rest Hgo2 Hs2 Hc2]; subst; cbn [length] in *; [lia|].
  pose proof (step_stop _ _ _ _ _ _ Hstep) as Hmet. rewrite Hgo2 in Hmet.
  apply has_met_stopping_criteria_false in Hmet as (q & Hq & Hlt).
  rewrite (step_count _ _ _ _ _ _ Hstep) in Hlt, IH.
  destruct (remaining_step _ _ _ Hq Hlt). lia.
Qed.

(** *** From the generator to its chain *)

Lemma generator_setup_ok inputs device kw w env st w' :
  generator_setup inputs device kw w = (Ok (env, st), w') →
  batch env = prompt_count inputs
  ∧ max_new_tokens env = max_new_tokens_of kw
  ∧ new_tokens_count st = 0
  ∧ unfinished_sequences st = replicate (prompt_count inputs) 1
  ∧ stop_generation st = false.
Proof.
  assert (Hcount : length match inputs with
                          | InputList prompts => prompts
                          | InputOther _ => []
                          end = prompt_count inputs) by by destruct inputs.
  unfold generator_setup. intros Hsetup.
  inv_bind Hsetup as cfg w1 Hcfg.
  inv_bind Hsetup as u1 w2 Hval.
  inv_bind Hsetup as model_class w3 Hclass.
  inv_bind Hsetup as tok1 w4 Htok1.
  inv_bind Hsetup as u2 w5 Hpadfix.
  inv_bind Hsetup as tok2 w6 Htok2.
  inv_bind Hsetup as u3 w7 Hbos.
  inv_bind Hsetup as tokenized w8 Htokenize.
  inv_bind Hsetup as method w9 Hmethod.
  inv_bind Hsetup as u4 w10 Hreset.
  inv_bind Hsetup as tok3 w11 Htok3.
  destruct model_class.
  - inv_bind Hsetup as cols w12 Hcols.
    inv_bind Hsetup as mask0 w13 Hzeros.
    inv_bind Hsetup as mask w14 Hmask.
    injection Hsetup as <- <- _. cbn. by rewrite Hcount.
  - inv_bind Hsetup as bos w12 Hb.
    injection Hsetup as <- <- _. cbn. by rewrite Hcount.
Qed.

(** A run is a chain of steps from the initial loop state, unless the
    set-up raised. *)
Lemma generator_chain fuel inputs device kw w steps outcome w' :
  _hf_model_stream_generator fuel inputs device kw w = (steps, outcome, w') →
  (steps = [] ∧ ∃ e, outcome = Raised e)
  ∨ ∃ env st,
      batch env = prompt_count inputs
      ∧ max_new_tokens env = max_new_tokens_of kw
      ∧ new_tokens_count st = 0
      ∧ unfinished_sequences st = replicate (prompt_count inputs) 1
      ∧ stop_generation st = false
      ∧ chain env (w_tokenizer w') (eos_of (w_tokenizer w')) (pad_of (w_tokenizer w'))
              st steps
      ∧ (outcome = Done → stop_generation (final_state st steps) = true)
      ∧ (∀ e, outcome = Raised e → stop_generation (final_state st steps) = false)
      ∧ ((Nat.max 1 (remaining (max_new_tokens env) 0) < fuel)%nat →
           outcome ≠ OutOfFuel).
Proof.
  unfold _hf_model_stream_generator.
  destruct (generator_setup inputs device kw w) as [[[env st]|e] w1] eqn:Hsetup.
  - intros Hloop. right. exists env, st.
    destruct (generator_setup_ok _ _ _ _ _ _ _ Hsetup) as (Hb & Hm & Hc & Hu & Hs).
    destruct (stream_loop_chain _ _ _ _ _ _ _ Hloop) as (Hchain & Htok & Hdone & Hraised).
    rewrite <- Htok in Hchain.
    repeat split; try done.
    intros Hfuel. pose proof (stream_loop_fuel fuel env st w1) as Hnot.
    rewrite Hc, Hloop in Hnot. by apply Hnot.
  - intros [= <- <- <-]. left. eauto.
Qed.

(** *** The stopping condition along a run *)

Lemma num_unfinished_zero (u : list Z) :
  num_unfinished u = 0%nat ↔ Forall (λ x, x = 0) u.
Proof.
  unfold num_unfinished. induction u as [|x u IH]; [by split; [constructor|]|].
  rewrite filter_cons, Forall_cons. case_decide as Hx; cbn; [lia|].
  rewrite IH. split; [|tauto]. intros Hu. split; [lia | done].
Qed.

Lemma all_zero_lookup (u : list Z) :
  Forall (λ x, x = 0) u ↔ ∀ i, (i < length u)%nat → u !! i = Some 0.
Proof.
  rewrite Forall_lookup. split.
  - intros Hall i Hi. destruct (lookup_lt_is_Some_2 u i Hi) as [x Hx].
    by rewrite Hx, (Hall i x Hx).
  - intros Hall i x Hx. pose proof (lookup_lt_Some _ _ _ Hx) as Hi.
    rewrite (Hall i Hi) in Hx. by injection Hx.
Qed.

Lemma chain_should_stop env tok eos pad st steps k s :
  chain env tok eos pad st steps →
  new_tokens_count st = 0 →
  unfinished_sequences st = replicate (batch env) 1 →
  steps !! k = Some s →
  stop_generation (after s) = true
  ↔ should_stop eos (batch env) (max_new_tokens env) (take (S k) steps).
Proof.
  intros Hchain Hcount Hunf Hk.
  assert (Hflags : flags (unfinished_sequences st)).
  { rewrite Hunf. apply Forall_replicate. by right. }
  assert (Hlen : length (unfinished_sequences st) = batch env).
  { by rewrite Hunf, length_replicate. }
  destruct (chain_facts _ _ _ _ _ _ Hchain Hflags Hlen k s Hk)
    as [Fc Ff Fl Fr Fz Fgo Fy Ft Fs].
  assert (Hn : length (take (S k) steps) = S k).
  { rewrite length_take. apply lookup_lt_Some in Hk. lia. }
  assert (Hc : Z.of_nat (S k) = new_tokens_count (after s)) by lia.
  unfold should_stop. rewrite Hn, Hc.
  transitivity (_has_met_stopping_criteria (unfinished_sequences (after s))
                  (new_tokens_count (after s)) (max_new_tokens env) = Ok true).
  { rewrite Fs. split; [by intros -> | by intros [= ->]]. }
  rewrite (has_met_stopping_criteria_true _ _ _ Ff), all_zero_lookup, Fl.
  apply or_iff_compat_r. split.
  - intros Hall i Hi. destruct (proj1 (Fz i Hi) (Hall i Hi)) as [Hinit | Hem]; [|done].
    rewrite Hunf, lookup_replicate_2 in Hinit by done. discriminate.
  - intros Hall i Hi. apply (Fz i Hi). right. by apply Hall.
Qed.

Lemma final_state_last st steps s :
  last steps = Some s → final_state st steps = after s.
Proof. unfold final_state. by intros ->. Qed.

Lemma has_met_stopping_criteria_int (u : list Z) (count m : Z) :
  flags u →
  ∃ b, _has_met_stopping_criteria u count (VInt m) = Ok b
       ∧ (b = true ↔ num_unfinished u = 0%nat ∨ m <= count).
Proof.
  intros Hu. destruct (tensor_sum_flags u Hu) as [_ Hsum].
  pose proof (num_unfinished_zero u) as Hnum.
  unfold _has_met_stopping_criteria, py_int_ge. cbn.
  destruct (Z.eqb_spec (tensor_sum u) 0) as [Hz|Hz].
  { exists true. split; [done|]. tauto. }
  destruct (Qle_bool (inject_Z m) (inject_Z count)) eqn:Hle; cbn.
  - exists true. split; [done|]. apply Qle_bool_iff in Hle.
    rewrite <- Zle_Qle in Hle. tauto.
  - exists false. split; [done|]. split; [done|]. intros [?|Hm]; [tauto|].
    rewrite Zle_Qle in Hm. apply Qle_bool_iff in Hm. congruence.
Qed.

(** C2. [_has_met_stopping_criteria] returns [True] exactly when no
    sequence is unfinished or the token count has reached
    [max_new_tokens]. In every run of the stream generator the loop goes on
    while, after the steps taken so far, neither every row has emitted
    [eos] nor the count of new tokens has reached [max_new_tokens]; a run
    that ends normally has taken at least one step and ends at the first
    step after which one of the two holds; and the loop always ends. *)
Theorem generation_stops_at_first_stop (fuel : nat) (inputs : PyInputs)
    (device : option string) (kw : gmap string PyVal) (w w' : World)
    (steps : list Step) (outcome : Outcome) (eos : Z) :
  _hf_model_stream_generator fuel inputs device kw w = (steps, outcome, w') →
  eos_token_id (w_tokenizer w') = Some eos →
  (∀ u count m, flags u →
     ∃ b, _has_met_stopping_criteria u count (VInt m) = Ok b
          ∧ (b = true ↔ num_unfinished u = 0%nat ∨ m <= count))
  ∧ (∀ k, (0 < k < length steps)%nat →
       ¬ should_stop eos (prompt_count inputs) (max_new_tokens_of kw) (take k steps))
  ∧ (outcome = Done →
       steps ≠ []
       ∧ should_stop eos (prompt_count inputs) (max_new_tokens_of kw) steps)
  ∧ (∀ e, outcome = Raised e → steps ≠ [] →
       ¬ should_stop eos (prompt_count inputs) (max_new_tokens_of kw) steps)
  ∧ ((Nat.max 1 (remaining (max_new_tokens_of kw) 0) < fuel)%nat →
       outcome ≠ OutOfFuel).
Proof.
  intros Hrun Heos. split; [apply has_met_stopping_criteria_int|].
  destruct (generator_chain _ _ _ _ _ _ _ _ Hrun)
    as [[-> [e ->]] | (env & st & Hb & Hm & Hc & Hu & Hs & Hchain & Hdone & Hraised & Hfuel)].
  { repeat split; try done. cbn. lia. }
  unfold eos_of in Hchain. rewrite Heos in Hchain. cbn in Hchain.
  rewrite <- Hb in Hu. rewrite <- Hb, <- Hm.
  assert (Hlast : ∀ s, last steps = Some s →
            stop_generation (final_state st steps) = true
            ↔ should_stop eos (batch env) (max_new_tokens env) steps).
  { intros s Hs'. rewrite (final_state_last _ _ _ Hs').
    rewrite last_lookup in Hs'.
    rewrite (chain_should_stop _ _ _ _ _ _ _ _ Hchain Hc Hu Hs').
    rewrite take_ge; [done|]. apply lookup_lt_Some in Hs'. lia. }
  split; [|split; [|split]].
  - intros k [Hk0 Hkn] Hstop.
    destruct (lookup_lt_is_Some_2 steps (pred k) ltac:(lia)) as [s Hs'].
    pose proof (chain_should_stop _ _ _ _ _ _ _ _ Hchain Hc Hu Hs') as Hiff.
    replace (S (pred k)) with k in Hiff by lia. apply Hiff in Hstop.
    assert (Hflags : flags (unfinished_sequences st)).
    { rewrite Hu. apply Forall_replicate. by right. }
    assert (Hlen : length (unfinished_sequences st) = batch env).
    { by rewrite Hu, length_replicate. }
    pose proof (fact_continue _ _ _ _ _ _ _ _
                  (chain_facts _ _ _ _ _ _ Hchain Hflags Hlen _ _ Hs')) as Hgo.
    rewrite Hgo in Hstop by lia. discriminate.
  - intros Hd. specialize (Hdone Hd).
    destruct (last steps) as [s|] eqn:Hls.
    + split; [by intros -> | by apply (Hlast s)].
    + apply last_None in Hls as ->. cbn in Hdone. congruence.
  - intros e He Hne. specialize (Hraised e He).
    destruct (last steps) as [s|] eqn:Hls; [|by apply last_None in Hls].
    intros Hstop. apply (Hlast s eq_refl) in Hstop. congruence.
  - done.
Qed.

(** C10. Without a [max_new_tokens] keyword argument the bound is
    [DEFAULT_MAX_NEW_TOKENS = 50]: the stream yields at most 50 per-step
    token batches, and the loop has ended (normally or by an exception)
    within 50 trips. *)
Theorem default_max_new_tokens_bound (fuel : nat) (inputs : PyInputs)
    (device : option string) (kw : gmap string PyVal) (w : World) :
  kw !! "max_new_tokens" = None →
  max_new_tokens_of kw = VInt DEFAULT_MAX_NEW_TOKENS
  ∧ DEFAULT_MAX_NEW_TOKENS = 50
  ∧ (length (yields (_hf_model_stream_generator fuel inputs device kw w)) ≤ 50)%nat
  ∧ ((50 < fuel)%nat →
       (_hf_model_stream_generator fuel inputs device kw w).1.2 ≠ OutOfFuel).
Proof.
  intros Hnone.
  assert (Hmax : max_new_tokens_of kw = VInt DEFAULT_MAX_NEW_TOKENS).
  { unfold max_new_tokens_of. by rewrite Hnone. }
  split; [done|]. split; [done|].
  destruct (_hf_model_stream_generator fuel inputs device kw w)
    as [[steps outcome] w'] eqn:Hrun.
  unfold yields. cbn [fst snd]. rewrite length_map.
  destruct (generator_chain _ _ _ _ _ _ _ _ Hrun)
    as [[-> [e ->]] | (env & st & Hb & Hm & Hc & Hu & Hs & Hchain & Hdone & Hraised & Hfuel)].
  { cbn. split; [lia | done]. }
  rewrite Hm, Hmax in Hfuel.
  apply chain_length in Hchain. rewrite Hm, Hmax, Hc in Hchain.
  change (remaining (VInt DEFAULT_MAX_NEW_TOKENS) 0) with 50%nat in *.
  split; [lia|]. intros Hf. apply Hfuel. lia.
Qed.

Lemma lookup_elem_of_take {A} (l : list A) (j n : nat) (x : A) :
  l !! j = Some x → (j < n)%nat → x ∈ take n l.
Proof.
  intros Hj Hn. apply list_elem_of_lookup. exists j.
  by rewrite lookup_take_lt.
Qed.

Lemma emitted_eos_take eos steps i j n s :
  steps !! j = Some s → (j < n)%nat → token_ids s !! i = Some eos →
  emitted_eos eos (take n steps) i.
Proof. intros Hj Hn Hs. exists s. eauto using lookup_elem_of_take. Qed.

Lemma emitted_eos_take_mono eos steps i m n :
  (m ≤ n)%nat → emitted_eos eos (take m steps) i → emitted_eos eos (take n steps) i.
Proof.
  intros Hmn (s & Hin & Hs). exists s. split; [|done].
  apply list_elem_of_lookup in Hin as [j Hj].
  pose proof (lookup_lt_Some _ _ _ Hj) as Hlt. rewrite length_take in Hlt.
  rewrite lookup_take_lt in Hj by lia. eapply lookup_elem_of_take; [done | lia].
Qed.

(** C9. Along a run every row's unfinished flag is 0 or 1 and never goes
    up from one step to a later one; from the step at which a row emits
    [eos] onwards its flag is 0 and the id yielded for it is the pad token
    id, the yielded text being the decoding of the yielded ids. *)
Theorem finished_rows_stay_finished (fuel : nat) (inputs : PyInputs)
    (device : option string) (kw : gmap string PyVal) (w w' : World)
    (steps : list Step) (outcome : Outcome) (eos pad : Z) :
  _hf_model_stream_generator fuel inputs device kw w = (steps, outcome, w') →
  eos_token_id (w_tokenizer w') = Some eos →
  pad_token_id (w_tokenizer w') = Some pad →
  ∀ j k sj sk i,
    steps !! j = Some sj → steps !! k = Some sk → (j ≤ k)%nat →
    (i < prompt_count inputs)%nat →
    (∃ uj uk, unfinished_sequences (after sj) !! i = Some uj
              ∧ unfinished_sequences (after sk) !! i = Some uk
              ∧ 0 <= uk <= uj ∧ uj <= 1)
    ∧ (token_ids sj !! i = Some eos →
         unfinished_sequences (after sk) !! i = Some 0
         ∧ yielded_ids sk !! i = Some pad)
    ∧ token_text sk = batch_decode (w_tokenizer w') (column (yielded_ids sk)).
Proof.
  intros Hrun Heos Hpad j k sj sk i Hj Hk Hjk Hi.
  destruct (generator_chain _ _ _ _ _ _ _ _ Hrun)
    as [[-> _] | (env & st & Hb & Hm & Hc & Hu & Hs & Hchain & _)].
  { by rewrite lookup_nil in Hj. }
  unfold eos_of, pad_of in Hchain. rewrite Heos, Hpad in Hchain. cbn in Hchain.
  rewrite <- Hb in Hu, Hi.
  assert (Hflags : flags (unfinished_sequences st)).
  { rewrite Hu. apply Forall_replicate. by right. }
  assert (Hlen : length (unfinished_sequences st) = batch env).
  { by rewrite Hu, length_replicate. }
  destruct (chain_facts _ _ _ _ _ _ Hchain Hflags Hlen j sj Hj)
    as [_ Ffj Flj _ Fzj _ _ _ _].
  destruct (chain_facts _ _ _ _ _ _ Hchain Hflags Hlen k sk Hk)
    as [_ Ffk Flk Frk Fzk _ Fyk Ftk _].
  assert (Hinit : unfinished_sequences st !! i ≠ Some 0).
  { rewrite Hu, lookup_replicate_2 by done. discriminate. }
  assert (Hmono : unfinished_sequences (after sj) !! i = Some 0 →
                  unfinished_sequences (after sk) !! i = Some 0).
  { intros Hz. apply (Fzj i Hi) in Hz as [?|Hem]; [done|].
    apply (Fzk i Hi). right. eapply emitted_eos_take_mono; [|done]. lia. }
  split; [|split; [|done]].
  - destruct (lookup_lt_is_Some_2 (unfinished_sequences (after sj)) i ltac:(lia))
      as [uj Huj].
    destruct (lookup_lt_is_Some_2 (unfinished_sequences (after sk)) i ltac:(lia))
      as [uk Huk].
    exists uj, uk. split; [done|]. split; [done|].
    unfold flags in Ffj, Ffk. rewrite Forall_lookup in Ffj, Ffk.
    destruct (Ffj i uj Huj) as [->| ->], (Ffk i uk Huk) as [->| ->]; try lia.
    specialize (Hmono Huj). rewrite Huk in Hmono. by injection Hmono.
  - intros Hemit.
    assert (Hz : unfinished_sequences (after sk) !! i = Some 0).
    { apply (Fzk i Hi). right. eapply emitted_eos_take; [exact Hj | lia | done]. }
    split; [done|]. rewrite Fyk. apply mask_finished_pad; [congruence | done].
Qed.

End LoopFacts.

(** ** Further properties: validation and model class *)

Lemma substring_all (s : string) : substring 0 (String.length s) s = s.
Proof. induction s as [|c s IH]; cbn; [done | by rewrite IH]. Qed.

Lemma append_cons (c : Ascii.ascii) (s t : string) :
  String.append (String c s) t = String c (String.append s t).
Proof. reflexivity. Qed.

Lemma substring_append_suffix (prefix suffix : string) :
  substring (String.length prefix) (String.length suffix)
            (String.append prefix suffix) = suffix.
Proof.
  induction prefix as [|c prefix IH]; [apply substring_all|].
  by rewrite append_cons.
Qed.

Lemma length_append (s t : string) :
  String.length (String.append s t) = (String.length s + String.length t)%nat.
Proof.
  induction s as [|c s IH]; [done|]. rewrite append_cons. cbn. by rewrite IH.
Qed.

Lemma append_substring (s : string) (k : nat) :
  (k ≤ String.length s)%nat →
  String.append (substring 0 k s) (substring k (String.length s - k) s) = s.
Proof.
  revert k. induction s as [|c s IH]; intros [|k] Hk; cbn in *; try lia.
  - done.
  - by rewrite substring_all.
  - rewrite append_cons. f_equal. apply IH. lia.
Qed.

(** [str.endswith]: the string is some prefix followed by the suffix. *)
Lemma endswith_spec (s suffix : string) :
  endswith s suffix = true ↔ ∃ prefix, s = String.append prefix suffix.
Proof.
  unfold endswith. rewrite andb_true_iff, Nat.leb_le, String.eqb_eq. split.
  - intros [Hle Hsub].
    exists (substring 0 (String.length s - String.length suffix) s).
    rewrite <- Hsub at 2.
    pose proof (append_substring s (String.length s - String.length suffix)) as Happ.
    replace (String.length s - (String.length s - String.length suffix))%nat
      with (String.length suffix) in Happ by lia.
    symmetry. apply Happ. lia.
  - intros [prefix ->]. rewrite length_append. split; [lia|].
    replace (String.length prefix + String.length suffix - String.length suffix)%nat
      with (String.length prefix) by lia.
    apply substring_append_suffix.
Qed.

Lemma existsb_endswith_any (suffixes archs : list string) :
  existsb (λ arch, endswith_any arch suffixes) archs = true
  ↔ has_suffix_in suffixes archs.
Proof.
  unfold has_suffix_in, endswith_any. rewrite existsb_exists. split.
  - intros (arch & Hin & Hany). apply existsb_exists in Hany as (suffix & Hs & Hends).
    apply endswith_spec in Hends as [prefix ->].
    exists (String.append prefix suffix), prefix, suffix.
    by rewrite !list_elem_of_In.
  - intros (arch & prefix & suffix & Hin & Hs & ->).
    exists (String.append prefix suffix). split; [by apply list_elem_of_In|].
    apply existsb_exists. exists suffix. split; [by apply list_elem_of_In|].
    apply endswith_spec. eauto.
Qed.

Lemma list_falsy_spec (cfg : ModelConfig) :
  list_falsy (architectures cfg) = true ↔ no_architectures cfg.
Proof.
  unfold no_architectures. destruct (architectures cfg) as [[|a archs]|]; cbn;
    split; try done; try tauto; intros [?|?]; done.
Qed.

(** The three ways [_validate_inputs] can go. *)
Lemma validate_inputs_cases (cfg : ModelConfig) (inputs : PyInputs) :
  let supported :=
    existsb (λ arch, endswith_any arch SUPPORTED_MODEL_ARCH_SUFFIXES)
            (default [] (architectures cfg)) in
  ∃ r warnings,
    _validate_inputs cfg inputs = (r, warnings)
    ∧ (∀ e, r = Raise e → ∃ msg, e = AssertionError msg)
    ∧ (r = Ok tt ↔ (list_falsy (architectures cfg) = true ∨ supported = true)
                   ∧ ¬ refused_inputs inputs)
    ∧ warnings = (if list_falsy (architectures cfg) then [WARN_NO_ARCH_SUPPORTED] else []).
Proof.
  intros supported. unfold _validate_inputs. fold supported. clearbody supported.
  destruct (list_falsy (architectures cfg)); [|destruct supported]; cbn [negb];
    try (destruct inputs as [[|p ps]|v]; cbn);
    eexists _, _; (split; [reflexivity|]);
    (split; [intros e He; inversion He; eauto|]);
    (split; [|reflexivity]); split;
    try discriminate; try (intros [_ Hin]; by destruct Hin);
    try (intros _; split; [tauto | discriminate]);
    try (intros _; split; [tauto | cbn; tauto]).
  all: first [done | intros [[?|?] _]; discriminate].
Qed.

(** X1. [_validate_inputs] lets a request through exactly when the config
    has no architectures or one of them ends with a supported suffix, and
    [inputs] is a non-empty list; for anything else it raises, and what it
    raises is always an [AssertionError]. The warning is logged exactly for
    a config with no architectures. *)
Theorem validate_inputs_accepts (cfg : ModelConfig) (inputs : PyInputs) :
  ((∃ warnings, _validate_inputs cfg inputs = (Ok tt, warnings))
   ↔ (no_architectures cfg
      ∨ ∃ archs, architectures cfg = Some archs
                 ∧ has_suffix_in SUPPORTED_MODEL_ARCH_SUFFIXES archs)
     ∧ ¬ refused_inputs inputs)
  ∧ (∀ e warnings, _validate_inputs cfg inputs = (Raise e, warnings) →
       ∃ msg, e = AssertionError msg)
  ∧ ((_validate_inputs cfg inputs).2 = [WARN_NO_ARCH_SUPPORTED] ↔ no_architectures cfg)
  ∧ ((_validate_inputs cfg inputs).2 = [] ↔ ¬ no_architectures cfg).
Proof.
  destruct (validate_inputs_cases cfg inputs) as (r & warnings & -> & Herr & Hok & ->).
  cbn [snd]. rewrite <- list_falsy_spec.
  assert (Hsup :
    existsb (λ arch, endswith_any arch SUPPORTED_MODEL_ARCH_SUFFIXES)
            (default [] (architectures cfg)) = true
    → ∃ archs, architectures cfg = Some archs
               ∧ has_suffix_in SUPPORTED_MODEL_ARCH_SUFFIXES archs).
  { destruct (architectures cfg) as [archs|]; [|done].
    intros Hex. exists archs. split; [done|]. by apply existsb_endswith_any. }
  assert (Hsup' :
    (∃ archs, architectures cfg = Some archs
              ∧ has_suffix_in SUPPORTED_MODEL_ARCH_SUFFIXES archs)
    → existsb (λ arch, endswith_any arch SUPPORTED_MODEL_ARCH_SUFFIXES)
              (default [] (architectures cfg)) = true).
  { intros (archs & -> & Hsuf). by apply existsb_endswith_any. }
  split; [|split; [|split]].
  - split.
    + intros [warnings [= Hr _]]. apply Hok in Hr as [[?|?] ?]; split; auto.
    + intros [[?|?] ?]; eexists; f_equal; apply Hok; split; auto.
  - intros e warnings [= Hr _]. by apply Herr.
  - destruct (list_falsy (architectures cfg)); split; done.
  - destruct (list_falsy (architectures cfg)); split; done.
Qed.

Lemma validate_inputs_accepts_witness :
  ∃ warnings,
    _validate_inputs {| architectures := Some ["BloomForCausalLM"];
                        decoder_start_token_id := None |}
                     (InputList ["Hello"; "World"])
    = (Ok tt, warnings).
Proof.
  apply (proj1 (validate_inputs_accepts _ _)). split.
  - right. exists ["BloomForCausalLM"]. split; [done|].
    exists "BloomForCausalLM", "BloomFor", "CausalLM".
    split; [by apply list_elem_of_singleton|]. split; [|done].
    unfold SUPPORTED_MODEL_ARCH_SUFFIXES. cbn. apply elem_of_cons. by left.
  - cbn. discriminate.
Defined.

(** X2. [_get_generic_model_class] answers [Seq2SeqLM] exactly when some
    architecture ends with [T5ForConditionalGeneration] (also when a causal
    architecture stands beside it) and [CausalLM] otherwise; for a config
    that passed [_validate_inputs] with a non-empty architectures list, the
    answer [CausalLM] means that an architecture does end with [CausalLM]
    or [GPT2LMHeadModel]. The fallback warning is logged exactly for a
    config with no architectures. *)
Theorem generic_model_class_spec (cfg : ModelConfig) :
  ((_get_generic_model_class cfg).1 = Seq2SeqLM
   ↔ ∃ archs, architectures cfg = Some archs
              ∧ has_suffix_in SUPPORTED_MODEL_ARCH_SUFFIXES_SEQ_2_SEQ_LM archs)
  ∧ (∀ inputs warnings archs,
       _validate_inputs cfg inputs = (Ok tt, warnings) →
       architectures cfg = Some archs → archs ≠ [] →
       (_get_generic_model_class cfg).1 = CausalLM →
       has_suffix_in SUPPORTED_MODEL_ARCH_SUFFIXES_CAUSAL_LM archs)
  ∧ ((_get_generic_model_class cfg).2 = [WARN_NO_ARCH_ASSUME] ↔ no_architectures cfg)
  ∧ ((_get_generic_model_class cfg).2 = [] ↔ ¬ no_architectures cfg).
Proof.
  assert (Hclass :
    (_get_generic_model_class cfg).1 = Seq2SeqLM
    ↔ ∃ archs, architectures cfg = Some archs
               ∧ has_suffix_in SUPPORTED_MODEL_ARCH_SUFFIXES_SEQ_2_SEQ_LM archs).
  { unfold _get_generic_model_class.
    destruct (architectures cfg) as [[|a archs]|] eqn:Harch; cbn [list_falsy].
    - cbn. split; [done|]. intros (archs & [= <-] & arch & _ & _ & Hin & _).
      by apply elem_of_nil in Hin.
    - change (default [] (Some (a :: archs))) with (a :: archs).
      pose proof (existsb_endswith_any SUPPORTED_MODEL_ARCH_SUFFIXES_SEQ_2_SEQ_LM
                    (a :: archs)) as Hsup.
      destruct (existsb _ (a :: archs)); cbn.
      + split; [|done]. intros _. exists (a :: archs). split; [done|]. by apply Hsup.
      + split; [done|]. intros (archs' & [= <-] & Hsuf). apply Hsup in Hsuf. discriminate.
    - cbn. split; [done|]. by intros (archs & [=] & _). }
  split; [done|]. split; [|split].
  - intros inputs warnings archs Hvalid Harch Hne Hcausal.
    destruct (proj1 (proj1 (validate_inputs_accepts cfg inputs)) (ex_intro _ _ Hvalid))
      as [[[Hno|Hno]|(archs' & Harch' & arch & prefix & suffix & Hin & Hs & ->)] _].
    { congruence. }
    { rewrite Harch in Hno. injection Hno as ->. done. }
    rewrite Harch in Harch'. injection Harch' as <-.
    unfold SUPPORTED_MODEL_ARCH_SUFFIXES in Hs. apply elem_of_app in Hs as [Hs|Hs].
    + exists (String.append prefix suffix), prefix, suffix. done.
    + exfalso. assert (Hseq : (_get_generic_model_class cfg).1 = Seq2SeqLM).
      { apply Hclass. exists archs. split; [done|].
        exists (String.append prefix suffix), prefix, suffix. done. }
      congruence.
  - rewrite <- list_falsy_spec. unfold _get_generic_model_class.
    destruct (list_falsy (architectures cfg)); [done|].
    destruct (existsb _ _); cbn; split; done.
  - rewrite <- list_falsy_spec. unfold _get_generic_model_class.
    destruct (list_falsy (architectures cfg)); [split; [done|]; by intros []|].
    destruct (existsb _ _); cbn; split; done.
Qed.

Lemma generic_model_class_spec_witness :
  (_get_generic_model_class
     {| architectures := Some ["GPT2LMHeadModel"; "MT5ForConditionalGeneration"];
        decoder_start_token_id := Some 0 |}).1 = Seq2SeqLM.
Proof.
  apply (proj1 (generic_model_class_spec _)).
  exists ["GPT2LMHeadModel"; "MT5ForConditionalGeneration"]. split; [done|].
  exists "MT5ForConditionalGeneration", "M", "T5ForConditionalGeneration".
  split; [|split; [|done]].
  - apply elem_of_cons. right. by apply list_elem_of_singleton.
  - by apply list_elem_of_singleton.
Defined.

(** Without validation an unrecognised architecture is classed causal. *)
Example unvalidated_bert_is_causal :
  _get_generic_model_class Toy.bert_config = (CausalLM, []).
Proof. reflexivity. Qed.

(** ** Further properties: effects of the generator *)

Section EffectFacts.
Context `{TF : Transformers} `{!Backend}.

Lemma mbind_inv {A B} (m : M A) (k : A → M B) (w w' : World) (r : PyResult B) :
  mbind m k w = (r, w') →
  (∃ e, m w = (Raise e, w') ∧ r = Raise e)
  ∨ (∃ a w1, m w = (Ok a, w1) ∧ k a w1 = (r, w')).
Proof.
  unfold mbind. destruct (m w) as [[a|e] w1]; [eauto|].
  intros [= <- <-]. eauto.
Qed.

Tactic Notation "bind_ok" hyp(H) "as" ident(a) ident(w1) ident(H1) :=
  apply mbind_ok in H as (a & w1 & H1 & H).

(** *** The random generator *)

Lemma keeps_rng_mret {A} (a : A) : keeps_rng (mret a).
Proof. by intros w r w' [= _ <-]. Qed.

Lemma keeps_rng_mraise {A} (e : PyExc) : keeps_rng (mraise e : M A).
Proof. by intros w r w' [= _ <-]. Qed.

Lemma keeps_rng_lift {A} (r : PyResult A) : keeps_rng (lift r).
Proof. by intros w r' w' [= _ <-]. Qed.

Lemma keeps_rng_mbind {A B} (m : M A) (k : A → M B) :
  keeps_rng m → (∀ a, keeps_rng (k a)) → keeps_rng (mbind m k).
Proof.
  intros Hm Hk w r w' Hb. apply mbind_inv in Hb as [(e & Hmw & _) | (a & w1 & Hmw & Hka)].
  - eauto.
  - rewrite (Hk a _ _ _ Hka). eauto.
Qed.

Lemma keeps_rng_get_tokenizer : keeps_rng get_tokenizer.
Proof. by intros w r w' [= _ <-]. Qed.

Lemma keeps_rng_get_config : keeps_rng get_config.
Proof. by intros w r w' [= _ <-]. Qed.

Lemma keeps_rng_put_tokenizer tok : keeps_rng (put_tokenizer tok).
Proof. by intros w r w' [= _ <-]. Qed.

Lemma keeps_rng_call_tokenizer prompts : keeps_rng (call_tokenizer prompts).
Proof. by intros w r w' [= _ <-]. Qed.

Lemma keeps_rng_call_reset_generation : keeps_rng call_reset_generation.
Proof. by intros w r w' [= _ <-]. Qed.

Lemma keeps_rng_call_forward args : keeps_rng (call_forward args).
Proof.
  intros w r w'. unfold call_forward. destruct (forward _ _). by intros [= _ <-].
Qed.

Lemma keeps_rng_call_prepare_inputs ids mask pkv :
  keeps_rng (call_prepare_inputs ids mask pkv).
Proof. by intros w r w' [= _ <-]. Qed.

Lemma keeps_rng_call_batch_decode ids : keeps_rng (call_batch_decode ids).
Proof. by intros w r w' [= _ <-]. Qed.

(** The greedy decoder does not draw. *)
Lemma keeps_rng_call_decode_greedy lg ids kw :
  keeps_rng (call_decode greedy_decoding lg ids kw).
Proof. by intros w r w' [= _ <-]. Qed.

Lemma keeps_rng_decode_rows env all_ids i rows :
  decoding_method env = greedy_decoding →
  keeps_rng (decode_rows env all_ids i rows).
Proof.
  intros Hgreedy. revert i. induction rows as [|lg rows IH]; intros i; cbn [decode_rows].
  - apply keeps_rng_mret.
  - apply keeps_rng_mbind.
    { destruct (all_ids !! i); [apply keeps_rng_mret | apply keeps_rng_mraise]. }
    intros ids. apply keeps_rng_mbind.
    { rewrite Hgreedy. apply keeps_rng_call_decode_greedy. }
    intros t. apply keeps_rng_mbind; [apply IH|]. intros rest. apply keeps_rng_mret.
Qed.

Create HintDb keeps_rng discriminated.
Hint Resolve keeps_rng_mret keeps_rng_mraise keeps_rng_lift keeps_rng_get_tokenizer
  keeps_rng_get_config keeps_rng_put_tokenizer keeps_rng_call_tokenizer
  keeps_rng_call_reset_generation keeps_rng_call_forward
  keeps_rng_call_prepare_inputs keeps_rng_call_batch_decode
  keeps_rng_decode_rows : keeps_rng.

Ltac keeps_rng_step :=
  first [ apply keeps_rng_mbind; [|intros ?]
        | match goal with
          | |- keeps_rng (match ?x with _ => _ end) => destruct x
          | |- keeps_rng (if ?x then _ else _) => destruct x
          end
        | solve [auto with keeps_rng]
        | by intros w r w' [= _ <-] ].

Lemma keeps_rng_loop_body env st :
  decoding_method env = greedy_decoding → keeps_rng (loop_body env st).
Proof. intros Hgreedy. unfold loop_body. repeat keeps_rng_step. Qed.

Lemma keeps_rng_generator_setup inputs device kw :
  keeps_rng (generator_setup inputs device kw).
Proof.
  unfold generator_setup. repeat keeps_rng_step.
  - intros w r w'. destruct (_validate_inputs _ _). by intros [= _ <-].
  - intros w r w'. destruct (_get_generic_model_class _). by intros [= _ <-].
Qed.

Lemma keeps_rng_stream_loop fuel env st w :
  decoding_method env = greedy_decoding →
  w_rng (stream_loop fuel env st w).2 = w_rng w.
Proof.
  intros Hgreedy. revert st w. induction fuel as [|fuel IH]; intros st w; [done|].
  cbn [stream_loop]. destruct (stop_generation st); [done|].
  destruct (loop_body env st w) as [[step|e] w1] eqn:Hbody.
  - specialize (IH (after step) w1).
    destruct (stream_loop fuel env (after step) w1) as [[steps outcome] w2].
    cbn in *. rewrite IH. by eapply keeps_rng_loop_body.
  - cbn. by eapply keeps_rng_loop_body.
Qed.

(** *** The log and the model config *)

Lemma keeps_log_mret {A} (a : A) : keeps_log (mret a).
Proof. by intros w r w' [= _ <-]. Qed.

Lemma keeps_log_mraise {A} (e : PyExc) : keeps_log (mraise e : M A).
Proof. by intros w r w' [= _ <-]. Qed.

Lemma keeps_log_lift {A} (r : PyResult A) : keeps_log (lift r).
Proof. by intros w r' w' [= _ <-]. Qed.

Lemma keeps_log_mbind {A B} (m : M A) (k : A → M B) :
  keeps_log m → (∀ a, keeps_log (k a)) → keeps_log (mbind m k).
Proof.
  intros Hm Hk w r w' Hb. apply mbind_inv in Hb as [(e & Hmw & _) | (a & w1 & Hmw & Hka)].
  - eauto.
  - destruct (Hk a _ _ _ Hka) as [-> ->]. eauto.
Qed.

Lemma keeps_log_get_tokenizer : keeps_log get_tokenizer.
Proof. by intros w r w' [= _ <-]. Qed.

Lemma keeps_log_put_tokenizer tok : keeps_log (put_tokenizer tok).
Proof. by intros w r w' [= _ <-]. Qed.

Lemma keeps_log_call_tokenizer prompts : keeps_log (call_tokenizer prompts).
Proof. by intros w r w' [= _ <-]. Qed.

Lemma keeps_log_call_reset_generation : keeps_log call_reset_generation.
Proof. by intros w r w' [= _ <-]. Qed.

Lemma keeps_log_call_forward args : keeps_log (call_forward args).
Proof.
  intros w r w'. unfold call_forward. destruct (forward _ _). by intros [= _ <-].
Qed.

Lemma keeps_log_call_prepare_inputs ids mask pkv :
  keeps_log (call_prepare_inputs ids mask pkv).
Proof. by intros w r w' [= _ <-]. Qed.

Lemma keeps_log_call_batch_decode ids : keeps_log (call_batch_decode ids).
Proof. by intros w r w' [= _ <-]. Qed.

Lemma keeps_log_call_decode m lg ids kw : keeps_log (call_decode m lg ids kw).
Proof.
  intros w r w'. unfold call_decode. destruct (call_decoding_method _ _ _ _ _).
  by intros [= _ <-].
Qed.

Lemma keeps_log_decode_rows env all_ids i rows :
  keeps_log (decode_rows env all_ids i rows).
Proof.
  revert i. induction rows as [|lg rows IH]; intros i; cbn [decode_rows].
  - apply keeps_log_mret.
  - apply keeps_log_mbind.
    { destruct (all_ids !! i); [apply keeps_log_mret | apply keeps_log_mraise]. }
    intros ids. apply keeps_log_mbind; [apply keeps_log_call_decode|].
    intros t. apply keeps_log_mbind; [apply IH|]. intros rest. apply keeps_log_mret.
Qed.

Create HintDb keeps_log discriminated.
Hint Resolve keeps_log_mret keeps_log_mraise keeps_log_lift keeps_log_get_tokenizer
  keeps_log_put_tokenizer keeps_log_call_tokenizer keeps_log_call_reset_generation
  keeps_log_call_forward keeps_log_call_prepare_inputs keeps_log_call_batch_decode
  keeps_log_call_decode keeps_log_decode_rows : keeps_log.

Ltac keeps_log_step :=
  first [ apply keeps_log_mbind; [|intros ?]
        | match goal with
          | |- keeps_log (match ?x with _ => _ end) => destruct x
          | |- keeps_log (if ?x then _ else _) => destruct x
          end
        | solve [auto with keeps_log] ].

Lemma keeps_log_loop_body env st : keeps_log (loop_body env st).
Proof. unfold loop_body. repeat keeps_log_step. Qed.

Lemma keeps_log_stream_loop fuel env st w :
  w_log (stream_loop fuel env st w).2 = w_log w
  ∧ config (w_model (stream_loop fuel env st w).2) = config (w_model w).
Proof.
  revert st w. induction fuel as [|fuel IH]; intros st w; [done|].
  cbn [stream_loop]. destruct (stop_generation st); [done|].
  destruct (loop_body env st w) as [[step|e] w1] eqn:Hbody.
  - specialize (IH (after step) w1).
    destruct (stream_loop fuel env (after step) w1) as [[steps outcome] w2].
    cbn in *. destruct IH as [-> ->]. by eapply keeps_log_loop_body.
  - cbn. by eapply keeps_log_loop_body.
Qed.

(** *** External calls *)

Lemma calls_within_pure {A} (m : M A) :
  (∀ w r w', m w = (r, w') → w_calls w' = w_calls w) → calls_within [] m.
Proof.
  intros Hm w r w' Hw. exists []. rewrite (Hm _ _ _ Hw), app_nil_r. done.
Qed.

Lemma calls_within_mbind {A B} (l l1 l2 : list Call) (m : M A) (k : A → M B) :
  calls_within l1 m → (∀ a, calls_within l2 (k a)) → l1 ++ l2 = l →
  calls_within l (mbind m k).
Proof.
  intros Hm Hk <- w r w' Hb.
  apply mbind_inv in Hb as [(e & Hmw & ->) | (a & w1 & Hmw & Hka)].
  - destruct (Hm _ _ _ Hmw) as (p & Hp & Hpre & _).
    exists p. split; [done|]. split; [by apply prefix_app_r | done].
  - destruct (Hm _ _ _ Hmw) as (p1 & Hp1 & _ & Hfull1).
    destruct (Hk a _ _ _ Hka) as (p2 & Hp2 & Hpre2 & Hfull2).
    rewrite (Hfull1 a eq_refl) in Hp1.
    exists (l1 ++ p2). split; [by rewrite Hp2, Hp1, app_assoc|].
    split; [by apply prefix_app|]. intros b Hb. by rewrite (Hfull2 b Hb).
Qed.

Lemma calls_within_mret {A} (a : A) : calls_within [] (mret a).
Proof. apply calls_within_pure. by intros w r w' [= _ <-]. Qed.

Lemma calls_within_mraise {A} (e : PyExc) : calls_within [] (mraise e : M A).
Proof. apply calls_within_pure. by intros w r w' [= _ <-]. Qed.

Lemma calls_within_lift {A} (r : PyResult A) : calls_within [] (lift r).
Proof. apply calls_within_pure. by intros w r' w' [= _ <-]. Qed.

Lemma calls_within_get_tokenizer : calls_within [] get_tokenizer.
Proof. apply calls_within_pure. by intros w r w' [= _ <-]. Qed.

Lemma calls_within_get_config : calls_within [] get_config.
Proof. apply calls_within_pure. by intros w r w' [= _ <-]. Qed.

Lemma calls_within_put_tokenizer tok : calls_within [] (put_tokenizer tok).
Proof. apply calls_within_pure. by intros w r w' [= _ <-]. Qed.

Lemma calls_within_call_decode m lg ids kw : calls_within [] (call_decode m lg ids kw).
Proof.
  apply calls_within_pure. intros w r w'. unfold call_decode.
  destruct (call_decoding_method _ _ _ _ _). by intros [= _ <-].
Qed.

Lemma calls_within_one {A} (c : Call) (m : M A) :
  (∀ w, ∃ a w1, m w = (Ok a, w1) ∧ w_calls w1 = w_calls w ++ [c]) →
  calls_within [c] m.
Proof.
  intros Hm w r w' Hw. destruct (Hm w) as (a & w1 & Hw1 & Hcalls).
  rewrite Hw1 in Hw. injection Hw as <- <-. by exists [c].
Qed.

Lemma calls_within_call_tokenizer prompts :
  calls_within [CallTokenizer] (call_tokenizer prompts).
Proof. apply calls_within_one. intros w. by eexists _, _. Qed.

Lemma calls_within_call_reset_generation :
  calls_within [CallResetGeneration] call_reset_generation.
Proof. apply calls_within_one. intros w. by eexists _, _. Qed.

Lemma calls_within_call_prepare_inputs ids mask pkv :
  calls_within [CallPrepareInputs] (call_prepare_inputs ids mask pkv).
Proof. apply calls_within_one. intros w. by eexists _, _. Qed.

Lemma calls_within_call_batch_decode ids :
  calls_within [CallBatchDecode] (call_batch_decode ids).
Proof. apply calls_within_one. intros w. by eexists _, _. Qed.

Lemma calls_within_call_forward args : calls_within [CallForward] (call_forward args).
Proof.
  apply calls_within_one. intros w. unfold call_forward.
  destruct (forward _ _). by eexists _, _.
Qed.

Lemma calls_within_decode_rows env all_ids i rows :
  calls_within [] (decode_rows env all_ids i rows).
Proof.
  revert i. induction rows as [|lg rows IH]; intros i; cbn [decode_rows].
  - apply calls_within_mret.
  - apply (calls_within_mbind [] [] []); [|intros ids|done].
    { destruct (all_ids !! i); [apply calls_within_mret | apply calls_within_mraise]. }
    apply (calls_within_mbind [] [] []); [apply calls_within_call_decode|intros t|done].
    apply (calls_within_mbind [] [] []); [apply IH|intros rest|done].
    apply calls_within_mret.
Qed.

Lemma calls_within_logged {A} (p : PyResult A * list string) :
  calls_within [] (λ w, let '(r, warnings) := p in (r, add_log warnings w)).
Proof. apply calls_within_pure. intros w r w'. destruct p. by intros [= _ <-]. Qed.

Lemma calls_within_logged_ok {A} (p : A * list string) :
  calls_within [] (λ w, let '(c, warnings) := p in (Ok c, add_log warnings w)).
Proof. apply calls_within_pure. intros w r w'. destruct p. by intros [= _ <-]. Qed.

Create HintDb calls discriminated.
Hint Resolve calls_within_mret calls_within_mraise calls_within_lift
  calls_within_get_tokenizer calls_within_get_config calls_within_put_tokenizer
  calls_within_call_decode calls_within_call_tokenizer
  calls_within_call_reset_generation calls_within_call_prepare_inputs
  calls_within_call_batch_decode calls_within_call_forward
  calls_within_decode_rows calls_within_logged calls_within_logged_ok : calls.

Ltac calls_step :=
  first [ eapply calls_within_mbind; [| intros ? |]
        | match goal with
          | |- calls_within _ (match ?x with _ => _ end) => destruct x
          | |- calls_within _ (if ?x then _ else _) => destruct x
          end
        | solve [eauto with calls]
        | reflexivity ].

Lemma calls_within_loop_body env st :
  calls_within (step_calls (generic_model_class env) (engine env)) (loop_body env st).
Proof.
  unfold loop_body, step_calls.
  destruct (generic_model_class env), (is_neuronx (engine env)); cbn [app];
    repeat calls_step.
Qed.

(** *** One trip through the loop body *)

Lemma loop_body_effects env st w step w' :
  loop_body env st w = (Ok step, w') → body_effects env st step.
Proof.
  unfold loop_body. intros Hbody.
  bind_ok Hbody as outputs w0 Hfwd. clear Hfwd.
  bind_ok Hbody as next_token_ids w1 Hdec. clear Hdec.
  bind_ok Hbody as u1 w2 Hcat.
  destruct (_ || _) eqn:Hlen; [discriminate|]. injection Hcat as _ <-.
  apply orb_false_iff in Hlen as [_ Hlen]. apply negb_false_iff, Nat.eqb_eq in Hlen.
  bind_ok Hbody as tok w3 Hget. injection Hget as <- <-.
  bind_ok Hbody as eos w4 Heos.
  destruct (eos_token_id (w_tokenizer w1)) as [eos'|]; [|discriminate].
  injection Heos as <- <-.
  bind_ok Hbody as u2 w5 Hview.
  destruct (negb _) eqn:Hrows; [discriminate|]. injection Hview as _ <-.
  bind_ok Hbody as pad w6 Hpad.
  destruct (pad_token_id (w_tokenizer w1)) as [pad'|]; [|discriminate].
  injection Hpad as <- <-.
  bind_ok Hbody as text w7 Htext. injection Htext as <- <-.
  bind_ok Hbody as st' w8 Hst.
  bind_ok Hbody as stop w9 Hstop.
  injection Hstop as Hstop <-. injection Hbody as <- <-.
  destruct (generic_model_class env) eqn:Hclass.
  - bind_ok Hst as mask w10 Hmask. injection Hmask as Hmask <-. injection Hst as <- _.
    split; cbn; try done; try congruence.
    + by intros ->.
    + intros ->. eauto.
  - injection Hst as <- _. split; cbn; try done; try congruence.
    + by intros ->.
    + intros ->. eauto.
Qed.

Lemma decode_rows_model env all_ids i rows w r w' :
  decode_rows env all_ids i rows w = (r, w') → w_model w' = w_model w.
Proof.
  revert i w r w'. induction rows as [|lg rows IH]; intros i w r w'; cbn [decode_rows].
  { by intros [= _ <-]. }
  intros Hb.
  apply mbind_inv in Hb as [(e & Hm & _) | (ids & w1 & Hm & Hb)].
  { destruct (all_ids !! i); by injection Hm as _ <-. }
  assert (w1 = w) as -> by (destruct (all_ids !! i); by injection Hm as _ <-).
  apply mbind_inv in Hb as [(e & Hm' & _) | (t & w2 & Hm' & Hb)];
    unfold call_decode in Hm'; destruct (call_decoding_method _ _ _ _ _);
    injection Hm' as _ <-; [done|].
  apply mbind_inv in Hb as [(e & Hm' & _) | (rest & w3 & Hm' & Hb)].
  { by rewrite (IH _ _ _ _ Hm'). }
  injection Hb as _ <-. by rewrite (IH _ _ _ _ Hm').
Qed.

Lemma loop_body_outputs env st w step w' :
  loop_body env st w = (Ok step, w') →
  keeps_outputs env (forward_outputs env st (state (w_model w))) step
  ∧ state (w_model w') = next_model_state env st (state (w_model w)).
Proof.
  unfold loop_body. intros Hbody.
  bind_ok Hbody as outputs w0 Hfwd.
  assert (Hout : outputs = forward_outputs env st (state (w_model w))
                 ∧ state (w_model w0) = next_model_state env st (state (w_model w))).
  { unfold forward_outputs, next_model_state, forward_args.
    destruct (generic_model_class env); [destruct (is_neuronx (engine env))|];
      unfold mbind, call_prepare_inputs, call_forward in Hfwd; cbn in Hfwd;
      destruct (forward _ _); by injection Hfwd as <- <-. }
  clear Hfwd. destruct Hout as [-> Hms].
  bind_ok Hbody as next_token_ids w1 Hdec.
  apply decode_rows_model in Hdec. rewrite <- Hdec in Hms. clear Hdec.
  bind_ok Hbody as u1 w2 Hcat.
  destruct (_ || _) eqn:Hlen; [discriminate|]. injection Hcat as _ <-.
  clear Hlen.
  bind_ok Hbody as tok w3 Hget. injection Hget as <- <-.
  bind_ok Hbody as eos w4 Heos.
  destruct (eos_token_id (w_tokenizer w1)) as [eos'|]; [|discriminate].
  injection Heos as <- <-.
  bind_ok Hbody as u2 w5 Hview.
  destruct (negb _) eqn:Hrows; [discriminate|]. injection Hview as _ <-.
  bind_ok Hbody as pad w6 Hpad.
  destruct (pad_token_id (w_tokenizer w1)) as [pad'|]; [|discriminate].
  injection Hpad as <- <-.
  bind_ok Hbody as text w7 Htext. injection Htext as <- <-.
  bind_ok Hbody as st' w8 Hst.
  bind_ok Hbody as stop w9 Hstop.
  injection Hstop as Hstop <-. injection Hbody as <- <-.
  destruct (generic_model_class env) eqn:Hclass.
  - bind_ok Hst as mask w10 Hmask. injection Hmask as Hmask <-. injection Hst as <- <-.
    split; [|exact Hms]. split; cbn; [by intros -> | intros; congruence].
  - injection Hst as <- <-. split; [|exact Hms]. split; cbn; [by intros -> | done].
Qed.

(** *** Runs as sequences of trips *)

Lemma stream_loop_steps fuel env st w steps outcome w' :
  stream_loop fuel env st w = (steps, outcome, w') →
  ∃ w2, steps_from env st w steps w2
    ∧ match outcome with
      | Done => w' = w2 ∧ stop_generation (final_state st steps) = true
      | OutOfFuel => w' = w2
      | Raised e =>
          stop_generation (final_state st steps) = false
          ∧ loop_body env (final_state st steps) w2 = (Raise e, w')
      end.
Proof.
  revert st w steps outcome w'.
  induction fuel as [|fuel IH]; intros st w steps outcome w'; cbn [stream_loop].
  { intros [= <- <- <-]. exists w. split; [constructor | done]. }
  destruct (stop_generation st) eqn:Hstop.
  { intros [= <- <- <-]. exists w. split; [constructor | done]. }
  destruct (loop_body env st w) as [[step|e] w1] eqn:Hbody.
  - destruct (stream_loop fuel env (after step) w1) as [[steps1 outcome1] w2] eqn:Hloop.
    intros [= <- <- <-]. destruct (IH _ _ _ _ _ Hloop) as (w3 & Hsteps & Hend).
    exists w3. split; [by econstructor|]. by rewrite final_state_cons.
  - intros [= <- <- <-]. exists w. split; [constructor | done].
Qed.

Lemma steps_from_lookup env st w steps w2 (P : LoopState → Prop) :
  steps_from env st w steps w2 →
  P st →
  (∀ st step, P st → body_effects env st step → P (after step)) →
  ∀ k s, steps !! k = Some s → P (after s).
Proof.
  intros Hsteps Hst Hpres.
  induction Hsteps as [st w | st w step w1 steps w2 Hgo Hbody Hsteps IH];
    intros k s Hk.
  { by rewrite lookup_nil in Hk. }
  assert (Hafter : P (after step)).
  { eapply Hpres; [done|]. by eapply loop_body_effects. }
  destruct k as [|k]; cbn in Hk.
  - by injection Hk as <-.
  - by eapply IH.
Qed.

Lemma concat_replicate_S {A} (n : nat) (l : list A) :
  concat (replicate (S n) l) = l ++ concat (replicate n l).
Proof. done. Qed.

Lemma steps_from_calls env st w steps w2 :
  steps_from env st w steps w2 →
  w_calls w2
  = w_calls w ++ concat (replicate (length steps)
                           (step_calls (generic_model_class env) (engine env))).
Proof.
  induction 1 as [st w | st w step w1 steps w2 Hgo Hbody Hsteps IH].
  { cbn. by rewrite app_nil_r. }
  destruct (calls_within_loop_body env st _ _ _ Hbody) as (p & Hp & _ & Hfull).
  rewrite (Hfull step eq_refl) in Hp.
  cbn [length]. by rewrite concat_replicate_S, IH, Hp, app_assoc.
Qed.

Lemma row_tokens_cons i step steps t :
  token_ids step !! i = Some t →
  row_tokens i (step :: steps) = t :: row_tokens i steps.
Proof. intros Ht. unfold row_tokens. cbn [omap list_omap]. by rewrite Ht. Qed.

Lemma steps_from_history env st w steps w2 :
  steps_from env st w steps w2 →
  ∀ k s i row,
    steps !! k = Some s → all_decoder_input_ids st !! i = Some row →
    all_decoder_input_ids (after s) !! i = Some (row ++ row_tokens i (take (S k) steps))
    ∧ length (row_tokens i (take (S k) steps)) = S k.
Proof.
  induction 1 as [st w | st w step w1 steps w2 Hgo Hbody Hsteps IH];
    intros k s i row Hk Hrow.
  { by rewrite lookup_nil in Hk. }
  destruct (loop_body_effects _ _ _ _ _ Hbody) as [Hhist Hrows _ _ _ _].
  destruct (lookup_lt_is_Some_2 (token_ids step) i) as [t Ht].
  { rewrite <- Hrows. by eapply lookup_lt_Some. }
  assert (Hnext : all_decoder_input_ids (after step) !! i = Some (row ++ [t])).
  { by rewrite Hhist, lookup_zip_with, Hrow, Ht. }
  destruct k as [|k]; cbn in Hk.
  - injection Hk as <-. change (take 1 (step :: steps)) with (step :: take 0 steps).
    by rewrite (row_tokens_cons _ _ _ _ Ht), take_0.
  - destruct (IH k s i _ Hk Hnext) as [Hs Hn].
    change (take (S (S k)) (step :: steps)) with (step :: take (S k) steps).
    rewrite (row_tokens_cons _ _ _ _ Ht). cbn [length]. rewrite Hs, Hn.
    split; [|done]. by rewrite <- app_assoc.
Qed.

(** *** The set-up *)

Lemma mbind_get_config {B} (k : ModelConfig → M B) w :
  mbind get_config k w = k (config (w_model w)) w.
Proof. done. Qed.

Lemma mbind_get_tokenizer {B} (k : Tokenizer → M B) w :
  mbind get_tokenizer k w = k (w_tokenizer w) w.
Proof. done. Qed.

Lemma mbind_put_tokenizer {B} tok (k : unit → M B) w :
  mbind (put_tokenizer tok) k w = k tt (set_tokenizer tok w).
Proof. done. Qed.

Lemma mbind_mret {A B} (a : A) (k : A → M B) w : mbind (mret a) k w = k a w.
Proof. done. Qed.

Lemma mbind_mraise {A B} (e : PyExc) (k : A → M B) w :
  mbind (mraise e) k w = (Raise e, w).
Proof. done. Qed.

Lemma mbind_lift {A B} (r : PyResult A) (k : A → M B) w :
  mbind (lift r) k w = match r with Ok a => k a w | Raise e => (Raise e, w) end.
Proof. by destruct r. Qed.

Lemma mbind_call_tokenizer {B} prompts (k : TokenizedInputs → M B) w :
  mbind (call_tokenizer prompts) k w
  = k (tokenize (w_tokenizer w) prompts) (add_call CallTokenizer w).
Proof. done. Qed.

Lemma mbind_call_reset_generation {B} (k : unit → M B) w :
  mbind call_reset_generation k w
  = k tt (add_call CallResetGeneration
            (set_model_state (reset_generation (state (w_model w))) w)).
Proof. done. Qed.

Lemma mbind_logged {A B} (p : PyResult A * list string) (k : A → M B) w :
  mbind (λ w, let '(r, warnings) := p in (r, add_log warnings w)) k w
  = match p.1 with
    | Ok a => k a (add_log p.2 w)
    | Raise e => (Raise e, add_log p.2 w)
    end.
Proof. by destruct p as [[a|e] warnings]. Qed.

Lemma mbind_logged_ok {A B} (p : A * list string) (k : A → M B) w :
  mbind (λ w, let '(c, warnings) := p in (Ok c, add_log warnings w)) k w
  = k p.1 (add_log p.2 w).
Proof. by destruct p as [c warnings]. Qed.

Lemma validate_inputs_ok_prompts cfg inputs warnings :
  _validate_inputs cfg inputs = (Ok tt, warnings) →
  (1 ≤ length (prompts_of inputs))%nat.
Proof.
  unfold _validate_inputs. intros Hv. destruct inputs as [prompts|v]; cbn.
  - destruct (Nat.leb_spec 1 (length prompts)); [done|].
    repeat case_match; simplify_eq.
  - repeat case_match; simplify_eq.
Qed.

Ltac world_cbn :=
  cbn [w_model w_tokenizer w_rng w_log w_calls config state
       add_call add_log set_tokenizer set_model_state set_rng
       pad_token eos_token bos_token_id fst snd] in *.

Ltac setup_leaf :=
  intros [= <- <-]; split; world_cbn;
  unfold setup_tokenizer, setup_calls, prompts_of, max_new_tokens_of, engine_of in *;
  world_cbn;
  repeat match goal with
         | H : _validate_inputs _ _ = _ |- _ => rewrite !H
         | H : _get_generic_model_class _ = _ |- _ => rewrite !H
         | H : str_falsy _ = _ |- _ => rewrite !H
         | H : is_neuronx _ = _ |- _ => rewrite !H
         end;
  world_cbn; intros; simplify_eq;
  rewrite <- ?app_assoc;
  first [done | congruence | split; congruence | idtac].

Lemma generator_setup_effects inputs device kw w r w' :
  generator_setup inputs device kw w = (r, w') → setup_effects inputs kw w r w'.
Proof.
  destruct w as [[cfg ms] [pad eos bos] g log calls].
  unfold generator_setup. rewrite mbind_get_config, mbind_logged.
  cbn [w_model config].
  destruct (_validate_inputs cfg inputs) as [[[]|e] ws] eqn:Hval; cbn [fst snd].
  2:{ setup_leaf. }
  rewrite mbind_logged_ok, mbind_get_tokenizer.
  destruct (_get_generic_model_class cfg) as [model_class ws2] eqn:Hclass.
  world_cbn.
  destruct (str_falsy pad) eqn:Hpad;
    rewrite ?mbind_put_tokenizer, ?mbind_mret, mbind_get_tokenizer;
    world_cbn;
    destruct model_class;
    rewrite ?mbind_put_tokenizer, ?mbind_mret, mbind_call_tokenizer, mbind_lift;
    world_cbn;
    (destruct (_get_decoding_method kw) as [method|e] eqn:Hmethod; [|setup_leaf]);
    destruct (is_neuronx (default VNone (kw !! "engine"))) eqn:Hneuron;
    cbv beta iota;
    rewrite ?mbind_call_reset_generation, ?mbind_mret, mbind_get_tokenizer;
    world_cbn.
  1,2,5,6: rewrite mbind_lift;
    (destruct (mask_columns _ _) as [cols|e] eqn:Hcols; [|setup_leaf]);
    rewrite mbind_lift;
    (destruct (new_zeros _ _) as [mask0|e] eqn:Hzeros; [|setup_leaf]);
    (destruct (bool_decide _) eqn:Hsame;
     [rewrite mbind_mret
     |rewrite mbind_lift;
      (destruct (assign_prefix_tensor _ _ _) as [mask|e] eqn:Hmask; [|setup_leaf])]).
  9-12: (destruct (decoder_start_token_id cfg) as [start|] eqn:Hstart;
         [rewrite mbind_mret | rewrite mbind_mraise; setup_leaf]).
  all: unfold mret; setup_leaf.
  all: (split; [done|]); split; cbn; try done.
  all: try (by rewrite Hclass).
  all: try (by eapply validate_inputs_ok_prompts).
  all: try (intros _; split; [done|]; by exists start).
  all: intros _; split; [done|]; split; [done|]; exists cols, mask0; by rewrite Hsame.
Qed.

Ltac raise_leaf :=
  intros [= <- <-]; world_cbn;
  first
    [ eapply err_validation;
      match goal with H : _validate_inputs _ _ = _ |- _ => by rewrite H end
    | eapply err_method;
      match goal with H : _get_decoding_method _ = Raise _ |- _ => exact H end
    | eapply err_columns;
      [ match goal with H : _get_generic_model_class _ = _ |- _ => by rewrite H end
      | match goal with H : mask_columns _ _ = Raise _ |- _ => exact H end ]
    | eapply err_zeros;
      [ match goal with H : _get_generic_model_class _ = _ |- _ => by rewrite H end
      | match goal with H : mask_columns _ _ = Ok _ |- _ => exact H end
      | match goal with H : new_zeros _ _ = Raise _ |- _ => exact H end ]
    | eapply err_mask;
      [ match goal with H : _get_generic_model_class _ = _ |- _ => by rewrite H end
      | match goal with H : mask_columns _ _ = Ok _ |- _ => exact H end
      | match goal with H : new_zeros _ _ = Ok _ |- _ => exact H end
      | match goal with H : bool_decide _ = false |- _ =>
          by apply bool_decide_eq_false in H end
      | match goal with H : assign_prefix_tensor _ _ _ = Raise _ |- _ => exact H end ]
    | eapply err_start;
      [ match goal with H : _get_generic_model_class _ = _ |- _ => by rewrite H end
      | match goal with H : decoder_start_token_id _ = None |- _ => exact H end ] ].

(** Every exception of the set-up has one of the causes of [setup_error]. *)
Lemma generator_setup_raises inputs device kw w e w' :
  generator_setup inputs device kw w = (Raise e, w') →
  setup_error inputs kw (config (w_model w)) (w_tokenizer w') e.
Proof.
  destruct w as [[cfg ms] [pad eos bos] g log calls].
  unfold generator_setup. rewrite mbind_get_config, mbind_logged.
  cbn [w_model config].
  destruct (_validate_inputs cfg inputs) as [[[]|e0] ws] eqn:Hval; cbn [fst snd].
  2:{ raise_leaf. }
  rewrite mbind_logged_ok, mbind_get_tokenizer.
  destruct (_get_generic_model_class cfg) as [model_class ws2] eqn:Hclass.
  world_cbn.
  destruct (str_falsy pad) eqn:Hpad;
    rewrite ?mbind_put_tokenizer, ?mbind_mret, mbind_get_tokenizer;
    world_cbn;
    destruct model_class;
    rewrite ?mbind_put_tokenizer, ?mbind_mret, mbind_call_tokenizer, mbind_lift;
    world_cbn;
    (destruct (_get_decoding_method kw) as [method|e0] eqn:Hmethod; [|raise_leaf]);
    destruct (is_neuronx (default VNone (kw !! "engine"))) eqn:Hneuron;
    cbv beta iota;
    rewrite ?mbind_call_reset_generation, ?mbind_mret, mbind_get_tokenizer;
    world_cbn.
  1,2,5,6: rewrite mbind_lift;
    (destruct (mask_columns _ _) as [cols|e0] eqn:Hcols; [|raise_leaf]);
    rewrite mbind_lift;
    (destruct (new_zeros _ _) as [mask0|e0] eqn:Hzeros; [|raise_leaf]);
    (destruct (bool_decide _) eqn:Hsame;
     [rewrite mbind_mret
     |rewrite mbind_lift;
      (destruct (assign_prefix_tensor _ _ _) as [mask|e0] eqn:Hmask; [|raise_leaf])]).
  9-12: (destruct (decoder_start_token_id cfg) as [start|] eqn:Hstart;
         [rewrite mbind_mret | rewrite mbind_mraise; raise_leaf]).
  all: unfold mret; intros; simplify_eq.
Qed.

End EffectFacts.

(** ** Further properties: the attention mask of a decoder-only model *)

Lemma width_cons (row : list Z) (t : list (list Z)) : width (row :: t) = length row.
Proof. done. Qed.

Lemma width_replicate (n : nat) (row : list Z) :
  (0 < n)%nat → width (replicate n row) = length row.
Proof. destruct n; [lia | done]. Qed.

Lemma expand_length {A} (n : nat) (l l' : list A) :
  expand n l = Some l' → length l' = n.
Proof.
  unfold expand. destruct (Nat.eqb_spec (length l) n) as [Hn|Hn].
  - by intros [= <-].
  - destruct l as [|x [|y l]]; try discriminate. intros [= <-].
    by rewrite length_replicate.
Qed.

Lemma new_zeros_ok `{Torch} (rows : nat) (cols : Z) (t : list (list Z)) :
  new_zeros rows cols = Ok t →
  0 <= cols ∧ t = replicate rows (replicate (Z.to_nat cols) 0).
Proof.
  unfold new_zeros. destruct (alloc_error rows cols); [discriminate|].
  destruct (Z.ltb_spec cols 0); [discriminate|].
  by intros [= <-].
Qed.


Lemma new_zeros_raises `{Torch} (rows : nat) (cols : Z) (e : PyExc) :
  new_zeros rows cols = Raise e →
  alloc_error rows cols = Some e ∨ e = RuntimeError ∧ cols < 0.
Proof.
  unfold new_zeros. destruct (alloc_error rows cols) as [e'|].
  - intros [= <-]. by left.
  - destruct (Z.ltb_spec cols 0); [|discriminate]. intros [= <-]. by right.
Qed.

Lemma assign_prefix_scalar_width (t : list (list Z)) (n : nat) (x : Z) :
  width (assign_prefix_scalar t n x) = width t.
Proof.
  destruct t as [|row t]; [done|]. unfold assign_prefix_scalar.
  cbn [map]. rewrite !width_cons, length_app, length_replicate, length_drop. lia.
Qed.

Lemma assign_prefix_tensor_width (t : list (list Z)) (n : nat) (src t' : list (list Z)) :
  assign_prefix_tensor t n src = Ok t' → width t' = width t.
Proof.
  unfold assign_prefix_tensor.
  destruct (expand (length t) src) as [src_rows|] eqn:Hexp; [|discriminate].
  apply expand_length in Hexp.
  destruct (mapM _ _) as [rows|] eqn:Hmap; [|discriminate]. intros [= <-].
  apply mapM_Some in Hmap.
  destruct t as [|row t]; destruct src_rows as [|src_row src_rows]; try discriminate.
  { by inversion Hmap. }
  cbn [zip zip_with] in Hmap.
  inversion Hmap as [|? y ? rest Hy _]; subst.
  cbn in Hy. destruct (expand _ src_row) as [s|] eqn:Hs; [|discriminate].
  apply expand_length in Hs. injection Hy as <-.
  rewrite !width_cons, length_app, length_drop, Hs. lia.
Qed.

Lemma assign_column_ok (t : list (list Z)) (j : nat) (x : Z) (t' : list (list Z)) :
  assign_column t j x = Ok t' → (j < width t)%nat ∧ width t' = width t.
Proof.
  unfold assign_column. destruct (Nat.ltb_spec j (width t)); [|discriminate].
  intros [= <-]. split; [done|]. destruct t as [|row t]; [done|].
  cbn [map]. by rewrite !width_cons, length_insert.
Qed.


Lemma map_replicate {A B} (f : A → B) (n : nat) (x : A) :
  map f (replicate n x) = replicate n (f x).
Proof. induction n as [|n IH]; [done|]. cbn. by rewrite IH. Qed.

(** Writing a one just after the ones of a mask whose rows are ones
    followed by zeros. *)
Lemma assign_column_ones (n c d : nat) (t' : list (list Z)) :
  (0 < n)%nat →
  assign_column (replicate n (replicate c 1 ++ replicate d 0)) c 1 = Ok t' →
  (0 < d)%nat ∧ t' = replicate n (replicate (S c) 1 ++ replicate (pred d) 0).
Proof.
  intros Hn Hassign. destruct (assign_column_ok _ _ _ _ Hassign) as [Hlt _].
  rewrite width_replicate, length_app, !length_replicate in Hlt by done.
  split; [lia|]. unfold assign_column in Hassign.
  destruct (_ <? _)%nat; [|discriminate]. injection Hassign as <-.
  rewrite map_replicate. f_equal.
  destruct d as [|d]; [lia|]. cbn [pred replicate].
  rewrite insert_app_r_alt by (rewrite length_replicate; lia).
  rewrite length_replicate, Nat.sub_diag.
  change (1 :: replicate c 1) with (replicate (S c) 1).
  by rewrite (replicate_S_end c), <- app_assoc.
Qed.

Lemma map_zip_replicate {A B C} (f : A → B → C) (n : nat) (x : A) (l : list B) :
  length l = n → zip_with f (replicate n x) l = map (f x) l.
Proof.
  revert n. induction l as [|y l IH]; intros [|n] Hn; try done.
  cbn. rewrite IH; [done|]. cbn in Hn. lia.
Qed.

Lemma mapM_prefix (t : list (list Z)) (n : nat) (src : list (list Z)) :
  length src = length t →
  Forall (λ row, length row = n) src →
  Forall (λ row, (n ≤ length row)%nat) t →
  mapM (λ '(row, src_row),
          (λ s, s ++ drop n row) <$> expand (min n (length row)) src_row)
       (zip t src)
  = Some (zip_with (λ row s, s ++ drop n row) t src).
Proof.
  revert src. induction t as [|row t IH]; intros [|s src] Hlen Hsrc Ht; try done.
  inversion Hsrc as [|? ? Hs Hsrc']; subst. inversion Ht as [|? ? Hr Ht']; subst.
  cbn [zip zip_with mapM]. rewrite IH; [|cbn in Hlen; lia|done..].
  unfold expand. replace (length s =? length s `min` length row)%nat with true
    by (symmetry; apply Nat.eqb_eq; lia).
  done.
Qed.

Lemma assign_prefix_tensor_exact (t : list (list Z)) (n : nat) (src : list (list Z)) :
  length src = length t →
  Forall (λ row, length row = n) src →
  Forall (λ row, (n ≤ length row)%nat) t →
  assign_prefix_tensor t n src = Ok (zip_with (λ row s, s ++ drop n row) t src).
Proof.
  intros Hlen Hsrc Ht. unfold assign_prefix_tensor, expand at 1.
  rewrite Hlen, Nat.eqb_refl. by rewrite mapM_prefix.
Qed.

(** Writing a one just after the ones of a mask whose rows are a prefix of
    fixed length, ones, then zeros. *)
Lemma assign_column_prefixed (prefixes : list (list Z)) (L c d : nat)
    (t' : list (list Z)) :
  (0 < length prefixes)%nat →
  Forall (λ p, length p = L) prefixes →
  assign_column (map (λ p, p ++ replicate c 1 ++ replicate d 0) prefixes) (L + c) 1
  = Ok t' →
  (0 < d)%nat
  ∧ t' = map (λ p, p ++ replicate (S c) 1 ++ replicate (pred d) 0) prefixes.
Proof.
  intros Hn Hpre Hassign. destruct (assign_column_ok _ _ _ _ Hassign) as [Hlt _].
  assert (Hw : width (map (λ p, p ++ replicate c 1 ++ replicate d 0) prefixes)
               = (L + (c + d))%nat).
  { destruct prefixes as [|p0 ps]; [cbn in Hn; lia|]. inversion Hpre; subst.
    cbn [map]. by rewrite width_cons, !length_app, !length_replicate. }
  rewrite Hw in Hlt. split; [lia|]. unfold assign_column in Hassign.
  destruct (_ <? _)%nat; [|discriminate]. injection Hassign as <-.
  rewrite map_map. apply map_ext_in. intros p Hin.
  rewrite List.Forall_forall in Hpre. specialize (Hpre p Hin).
  destruct d as [|d]; [lia|]. cbn [pred].
  rewrite insert_app_r_alt by lia.
  rewrite insert_app_r_alt by (rewrite length_replicate; lia).
  rewrite length_replicate.
  replace (L + c - length p - c)%nat with 0%nat by lia.
  change (1 :: replicate c 1) with (replicate (S c) 1).
  by rewrite (replicate_S_end c), <- app_assoc.
Qed.

Section MaskFacts.
Context `{TF : Transformers} `{!Backend}.

(** The column written at each step is the next one, and there has to be
    room for it. *)
Lemma steps_from_causal env st w steps w2 :
  generic_model_class env = CausalLM →
  steps_from env st w steps w2 →
  ∀ k s, steps !! k = Some s →
    curr_length (after s) = (curr_length st + S k)%nat
    ∧ width (attention_mask (after s)) = width (attention_mask st)
    ∧ (curr_length st + k < width (attention_mask st))%nat.
Proof.
  intros Hclass.
  induction 1 as [st w | st w step w1 steps w2 Hgo Hbody Hsteps IH]; intros k s Hk.
  { by rewrite lookup_nil in Hk. }
  destruct (loop_body_effects _ _ _ _ _ Hbody) as [_ _ _ _ Hcausal _].
  destruct (Hcausal Hclass) as (Hassign & Hcurr & _).
  apply assign_column_ok in Hassign as [Hlt Hwidth].
  destruct k as [|k]; cbn in Hk.
  - injection Hk as <-. split; [lia|]. split; [done | lia].
  - destruct (IH k s Hk) as (Hc & Hw & Hroom).
    rewrite Hc, Hw, Hcurr, Hwidth. rewrite Hcurr, Hwidth in Hroom. lia.
Qed.

Lemma steps_from_ones env st w steps w2 (n d : nat) :
  generic_model_class env = CausalLM →
  (0 < n)%nat →
  steps_from env st w steps w2 →
  attention_mask st = replicate n (replicate (curr_length st) 1 ++ replicate d 0) →
  ∀ k s, steps !! k = Some s →
    (S k ≤ d)%nat
    ∧ attention_mask (after s)
      = replicate n (replicate (curr_length st + S k) 1 ++ replicate (d - S k) 0).
Proof.
  intros Hclass Hn Hsteps. revert d.
  induction Hsteps as [st w | st w step w1 steps w2 Hgo Hbody Hsteps IH];
    intros d Hmask k s Hk.
  { by rewrite lookup_nil in Hk. }
  destruct (loop_body_effects _ _ _ _ _ Hbody) as [_ _ _ _ Hcausal _].
  destruct (Hcausal Hclass) as (Hassign & Hcurr & _).
  rewrite Hmask in Hassign. apply assign_column_ones in Hassign as [Hd Hmask']; [|done].
  rewrite <- Hcurr in Hmask'.
  destruct k as [|k]; cbn in Hk.
  - injection Hk as <-. split; [lia|]. rewrite Hmask', Hcurr.
    by replace (curr_length st + 1)%nat with (S (curr_length st)) by lia;
       replace (d - 1)%nat with (pred d) by lia.
  - destruct (IH (pred d) Hmask' k s Hk) as [Hle ->]. split; [lia|].
    rewrite Hcurr. f_equal. f_equal; f_equal; lia.
Qed.

Lemma steps_from_prefixed env st w steps w2 (prefixes : list (list Z)) (L : nat) :
  generic_model_class env = CausalLM →
  (0 < length prefixes)%nat →
  Forall (λ p, length p = L) prefixes →
  steps_from env st w steps w2 →
  ∀ c d,
    curr_length st = (L + c)%nat →
    attention_mask st = map (λ p, p ++ replicate c 1 ++ replicate d 0) prefixes →
    ∀ k s, steps !! k = Some s →
      (S k ≤ d)%nat
      ∧ attention_mask (after s)
        = map (λ p, p ++ replicate (c + S k) 1 ++ replicate (d - S k) 0) prefixes.
Proof.
  intros Hclass Hn Hpre.
  induction 1 as [st w | st w step w1 steps w2 Hgo Hbody Hsteps IH];
    intros c d Hcurr Hmask k s Hk.
  { by rewrite lookup_nil in Hk. }
  destruct (loop_body_effects _ _ _ _ _ Hbody) as [_ _ _ _ Hcausal _].
  destruct (Hcausal Hclass) as (Hassign & Hcurr' & _).
  rewrite Hmask, Hcurr in Hassign.
  apply assign_column_prefixed in Hassign as [Hd Hmask']; [|done..].
  destruct k as [|k]; cbn in Hk.
  - injection Hk as <-. split; [lia|]. rewrite Hmask'.
    by replace (c + 1)%nat with (S c) by lia; replace (d - 1)%nat with (pred d) by lia.
  - destruct (IH (S c) (pred d) ltac:(lia) Hmask' k s Hk) as [Hle ->]. split; [lia|].
    apply map_ext. intros p. do 2 f_equal; f_equal; lia.
Qed.

End MaskFacts.

(** ** Further properties: the decoding methods *)

Section DecodingFacts.
Context `{TF : Transformers}.

Lemma py_lt_raises (v : PyVal) (c : Q) (e : PyExc) :
  py_lt v c = Raise e → as_number v = None ∧ e = TypeError.
Proof.
  unfold py_lt. destruct (as_number v); [discriminate|]. by intros [= <-].
Qed.

Lemma append_if_raises (c : bool) (p : LogitsProcessor)
    (ps : list LogitsProcessor) (e : PyExc) :
  append_if c p ps = Raise e → c = true ∧ processor_error p = Some e.
Proof.
  unfold append_if. destruct c; [|discriminate].
  destruct (processor_error p); [|discriminate]. by intros [= <-].
Qed.

Lemma append_if_refused (kw : gmap string PyVal) (c : bool) (p : LogitsProcessor)
    (ps : list LogitsProcessor) (e : PyExc) :
  present_non_default kw (kind_of p) = c → built_from kw p →
  append_if c p ps = Raise e → refused kw e.
Proof.
  intros Hc Hb Hr. apply append_if_raises in Hr as [-> He]. by exists p.
Qed.

Lemma greedy_processors_raises (kw : gmap string PyVal) (e : PyExc) :
  greedy_processors kw = Raise e → greedy_error kw e.
Proof.
  unfold greedy_processors, greedy_error.
  destruct (kw !! "repetition_penalty") as [v|]; [|discriminate].
  intros Hr. apply append_if_raises in Hr as [Hne He]. eauto.
Qed.


Lemma greedy_processors_refused (kw : gmap string PyVal) (e : PyExc) :
  greedy_processors kw = Raise e → refused kw e.
Proof.
  intros (v & Hv & Hne & He)%greedy_processors_raises.
  exists (RepetitionPenaltyLogitsProcessor v). repeat split; [|done..].
  unfold present_non_default. cbn. by rewrite Hv.
Qed.

Lemma sampling_processors_raises (kw : gmap string PyVal) (e : PyExc) :
  sampling_processors kw = Raise e →
  refused kw e
  ∨ (∃ v, kw !! "temperature" = Some v ∧ py_ne v 1 = true ∧ py_float v = Raise e)
  ∨ (∃ v, kw !! "top_p" = Some v ∧ as_number v = None ∧ e = TypeError)
  ∨ (∃ v, kw !! "typical_p" = Some v ∧ as_number v = None ∧ e = TypeError).
Proof.
  unfold sampling_processors. cbv zeta.
  destruct (match kw !! "repetition_penalty" with Some _ => _ | None => _ end)
    as [ps1|e1] eqn:H1; cbn [pbind].
  2:{ intros [= <-]. left. by apply greedy_processors_refused. }
  clear H1.
  destruct (match kw !! "temperature" with Some _ => _ | None => _ end)
    as [ps2|e2] eqn:H2; cbn [pbind].
  2:{ intros [= <-]. destruct (kw !! "temperature") as [v|] eqn:Hv; [|discriminate].
      destruct (py_ne v 1) eqn:Hne; [|discriminate].
      destruct (py_float v) as [t|e3] eqn:Ht; cbn [pbind] in H2.
      - left. apply (append_if_refused kw) in H2; [done| |cbn; eauto].
        unfold present_non_default. cbn. by rewrite Hv.
      - injection H2 as <-. right. left. eauto. }
  clear H2.
  destruct (match kw !! "top_p" with Some _ => _ | None => _ end)
    as [ps3|e3] eqn:H3; cbn [pbind].
  2:{ intros [= <-]. destruct (kw !! "top_p") as [v|] eqn:Hv; [|discriminate].
      destruct (py_lt v 1) as [c|e4] eqn:Hc; cbn [pbind] in H3.
      - left. apply (append_if_refused kw) in H3; [done| |done].
        unfold present_non_default. cbn. by rewrite Hv, Hc.
      - injection H3 as <-. apply py_lt_raises in Hc as [? ->].
        right. right. left. eauto. }
  clear H3.
  destruct (match kw !! "top_k" with Some _ => _ | None => _ end)
    as [ps4|e4] eqn:H4; cbn [pbind].
  2:{ intros [= <-]. destruct (kw !! "top_k") as [v|] eqn:Hv; [|discriminate].
      left. apply (append_if_refused kw) in H4; [done| |done].
      unfold present_non_default. cbn. by rewrite Hv. }
  clear H4.
  intros H5. destruct (kw !! "typical_p") as [v|] eqn:Hv; [|discriminate].
  destruct (py_lt v 1) as [c|e5] eqn:Hc; cbn [pbind] in H5.
  - left. apply (append_if_refused kw) in H5; [done| |done].
    unfold present_non_default. cbn. by rewrite Hv, Hc.
  - injection H5 as <-. apply py_lt_raises in Hc as [? ->].
    right. right. right. eauto.
Qed.


(** X14. A call of [_sampling_decoding] that raises has not drawn from the
    default generator, and the exception has one of six causes: the
    constructor of a processor refused the set, non-default value of its
    parameter (the exception is the constructor's); [float()] of a
    [temperature] other than 1.0 failed (the exception is that of
    [float]); [top_p] or [typical_p] is not a number ([TypeError] from the
    comparison with 1.0); the generator refused [manual_seed] (the
    exception is that of [manual_seed]); or [multinomial] refused the
    softmax of the processed scores (the exception is that of
    [multinomial]). *)
Theorem sampling_decoding_failures (logits : Logits) (ids : list Z)
    (kw : gmap string PyVal) (g g' : Generator) (e : PyExc) :
  _sampling_decoding logits ids kw g = (Raise e, g') →
  g' = g
  ∧ ((∃ p, present_non_default kw (kind_of p) = true
           ∧ built_from kw p
           ∧ processor_error p = Some e)
     ∨ (∃ v, kw !! "temperature" = Some v ∧ py_ne v 1 = true ∧ py_float v = Raise e)
     ∨ (∃ v, kw !! "top_p" = Some v ∧ as_number v = None ∧ e = TypeError)
     ∨ (∃ v, kw !! "typical_p" = Some v ∧ as_number v = None ∧ e = TypeError)
     ∨ (∃ v, kw !! "manual_seed" = Some v ∧ seeded_generator v = Raise e)
     ∨ (∃ procs, sampling_processors kw = Ok procs
          ∧ draw_error (softmax (fold_left (λ sc p, call_processor p ids sc) procs
                                           (last_scores logits)))
            = Some e)).
Proof.
  unfold _sampling_decoding, draw, call_processors.
  destruct (sampling_processors kw) as [procs|e1] eqn:Hprocs.
  - destruct (kw !! "manual_seed") as [v|] eqn:Hv.
    + destruct (seeded_generator v) as [gen|e2] eqn:Hgen; cbn [pbind].
      * destruct (draw_error _) as [e3|] eqn:Hdraw; cbn [fst pbind].
        { intros [= <- <-]. split; [done|]. do 5 right. eauto. }
        destruct (multinomial _ gen). cbn [fst pbind].
        destruct (multinomial _ g). discriminate.
      * intros [= <- <-]. split; [done|]. do 4 right. left. eauto.
    + destruct (draw_error _) as [e3|] eqn:Hdraw.
      * intros [= <- <-]. split; [done|]. do 5 right. eauto.
      * destruct (multinomial _ g). discriminate.
  - intros [= <- <-]. split; [done|].
    destruct (sampling_processors_raises _ _ Hprocs)
      as [Hr | [(v & Hv & Hne & Hf) | [(v & Hv & Hn & ->) | (v & Hv & Hn & ->)]]].
    + by left.
    + right. left. eauto.
    + right. right. left. eauto.
    + right. right. right. left. eauto.
Qed.

Lemma stage_warpers (kw : gmap string PyVal) (k : ProcessorKind)
    (ps ps' : list LogitsProcessor) :
  k ≠ KRepetitionPenalty → stage kw k ps ps' →
  ∃ added, ps' = ps ++ added
    ∧ Forall (λ p, kind_of p ≠ KRepetitionPenalty) added
    ∧ (kw !! param_name k = None → added = []).
Proof.
  intros Hk (added & -> & Hkind & _). exists added. split; [done|].
  rewrite filter_cons, filter_nil in Hkind. case_decide as Hp.
  - destruct added as [|p [|q added]]; try discriminate.
    injection Hkind as Hkind. split; [repeat constructor; congruence|].
    intros Hnone. unfold present_non_default in Hp. by rewrite Hnone in Hp.
  - destruct added; [|discriminate]. by split; [constructor|].
Qed.

(** X15. The processors of [_sampling_decoding] are those of
    [_greedy_decoding] (the repetition penalty, when set and not 1.0)
    followed by warpers only, and by nothing when none of [temperature],
    [top_p], [top_k] and [typical_p] is given: with [do_sample] alone,
    sampling draws from the softmax of the very scores greedy decoding
    takes the argmax of. *)
Theorem sampling_extends_greedy (kw : gmap string PyVal) (procs : list LogitsProcessor) :
  sampling_processors kw = Ok procs →
  ∃ base warpers,
    greedy_processors kw = Ok base
    ∧ procs = base ++ warpers
    ∧ Forall (λ p, kind_of p ≠ KRepetitionPenalty) warpers
    ∧ ((∀ param, param ∈ SAMPLING_PARAMS → kw !! param = None) → warpers = []).
Proof.
  unfold sampling_processors. cbv zeta.
  change (match kw !! "repetition_penalty" with
          | Some v => append_if (py_ne v 1) (RepetitionPenaltyLogitsProcessor v) []
          | None => Ok []
          end) with (greedy_processors kw).
  destruct (greedy_processors kw) as [base|e1]; [|discriminate]. cbn [pbind].
  destruct (match kw !! "temperature" with Some _ => _ | None => _ end)
    as [ps2|] eqn:H2; [|discriminate].
  apply stage_temperature, stage_warpers in H2 as (a2 & -> & F2 & N2); [|done].
  cbn [pbind].
  destruct (match kw !! "top_p" with Some _ => _ | None => _ end)
    as [ps3|] eqn:H3; [|discriminate].
  apply stage_top_p, stage_warpers in H3 as (a3 & -> & F3 & N3); [|done].
  cbn [pbind].
  destruct (match kw !! "top_k" with Some _ => _ | None => _ end)
    as [ps4|] eqn:H4; [|discriminate].
  apply stage_top_k, stage_warpers in H4 as (a4 & -> & F4 & N4); [|done].
  cbn [pbind].
  intros H5.
  apply stage_typical_p, stage_warpers in H5 as (a5 & -> & F5 & N5); [|done].
  exists base, (a2 ++ a3 ++ a4 ++ a5). split; [done|].
  split; [by rewrite <- !app_assoc|].
  split; [by repeat apply Forall_app_2|].
  assert (Hin : ∀ param, param ∈ SAMPLING_PARAMS ↔
            param = "temperature" ∨ param = "top_p" ∨ param = "top_k"
            ∨ param = "typical_p").
  { intros param. unfold SAMPLING_PARAMS. rewrite !elem_of_cons, elem_of_nil. tauto. }
  intros Hnone.
  rewrite N2, N3, N4, N5; [done|apply Hnone, Hin; cbn; tauto..].
Qed.

End DecodingFacts.

(** ** Further properties: the streamer *)

Section StreamerEffects.
Context `{T : Torch} `{!Backend}.

Lemma run_call_started (c : StreamerCall) (s : HFStreamer) :
  started (run_call c s) = started s || is_put c.
Proof. destruct c; cbn; by rewrite ?orb_true_r, ?orb_false_r. Qed.

Lemma next_started (s s' : HFStreamer) (r : NextResult) :
  next_ s = Some (r, s') → started s' = started s.
Proof.
  unfold next_. destruct (queue s) as [|[chunk|] rest]; [discriminate|..];
    by intros [= _ <-].
Qed.

Lemma stream_started_inv (s0 s : Stream) :
  rtc stream_step s0 s →
  ∃ made, thread s0 = made ++ thread s
          ∧ started (streamer s) = started (streamer s0) || existsb is_put made.
Proof.
  revert s. apply rtc_ind_r.
  - exists []. by rewrite orb_false_r.
  - intros s1 s2 Hrtc Hstep (made & Hthread & Hstarted).
    destruct Hstep as [c rest st got b | th st st' chunk got Hnext | th st st' got Hnext];
      cbn in *.
    + exists (made ++ [c]). split; [by rewrite Hthread, <- app_assoc|].
      rewrite run_call_started, existsb_app, Hstarted. cbn.
      by rewrite orb_false_r, orb_assoc.
    + exists made. split; [done|]. by rewrite (next_started _ _ _ Hnext).
    + exists made. split; [done|]. by rewrite (next_started _ _ _ Hnext).
Qed.

(** X19. In every interleaving, the calls the thread has made so far are
    a prefix of its calls, and the streamer's [started] flag is set
    exactly when one of them was a [put]: neither [put_text] (the
    exception text) nor [end] sets it, and the consumer never changes it. *)
Theorem streamer_started_flag (tokenizer : Tokenizer) (g : Generate) (s : Stream) :
  rtc stream_step (use_hf_default_streamer tokenizer g).2 s →
  ∃ made,
    thread (use_hf_default_streamer tokenizer g).2 = made ++ thread s
    ∧ (started (streamer s) = true ↔ ∃ value, DoPut value ∈ made).
Proof.
  intros Hsteps.
  pose proof (stream_started_inv _ _ Hsteps) as Hinv.
  destruct Hinv as (made & Hthread & Hstarted). exists made. split; [done|].
  rewrite Hstarted. cbn [use_hf_default_streamer snd streamer new_streamer started orb].
  rewrite existsb_exists. split.
  - intros (c & Hin & Hc). destruct c; try discriminate.
    exists value. by apply list_elem_of_In.
  - intros (value & Hin). exists (DoPut value). split; [|done].
    by apply list_elem_of_In.
Qed.

End StreamerEffects.

(** ** Further properties: runs of the generator *)

Section RunFacts.
Context `{TF : Transformers} `{!Backend}.

(** A run is the set-up followed by trips through the loop body. *)
Lemma generator_run fuel inputs device kw w steps outcome w' :
  _hf_model_stream_generator fuel inputs device kw w = (steps, outcome, w') →
  (∃ e, generator_setup inputs device kw w = (Raise e, w')
        ∧ steps = [] ∧ outcome = Raised e)
  ∨ ∃ env st w1 w2,
      generator_setup inputs device kw w = (Ok (env, st), w1)
      ∧ setup_spec inputs kw (config (w_model w)) (w_tokenizer w1) env st
      ∧ w_tokenizer w' = w_tokenizer w1
      ∧ steps_from env st w1 steps w2
      ∧ match outcome with
        | Done => w' = w2 ∧ stop_generation (final_state st steps) = true
        | OutOfFuel => w' = w2
        | Raised e =>
            stop_generation (final_state st steps) = false
            ∧ loop_body env (final_state st steps) w2 = (Raise e, w')
        end.
Proof.
  unfold _hf_model_stream_generator.
  destruct (generator_setup inputs device kw w) as [[[env st]|e] w1] eqn:Hsetup.
  - intros Hloop. right. exists env, st, w1.
    destruct (generator_setup_effects _ _ _ _ _ _ Hsetup) as [_ _ _ _ _ _ _ _ Hok].
    destruct (Hok env st eq_refl) as [_ Hspec].
    destruct (stream_loop_chain _ _ _ _ _ _ _ Hloop) as (_ & Htok & _).
    destruct (stream_loop_steps _ _ _ _ _ _ _ Hloop) as (w2 & Hsteps & Hend).
    by exists w2.
  - intros [= <- <- <-]. left. by exists e.
Qed.

(** X3. A run whose decoding method is not the sampling one (greedy
    decoding, or a selection that fails) never draws from torch's default
    random generator: its state after the run is its state before. *)
Theorem greedy_run_keeps_generator (fuel : nat) (inputs : PyInputs)
    (device : option string) (kw : gmap string PyVal) (w : World) :
  _get_decoding_method kw ≠ Ok sampling_decoding →
  w_rng (_hf_model_stream_generator fuel inputs device kw w).2 = w_rng w.
Proof.
  intros Hns. unfold _hf_model_stream_generator.
  destruct (generator_setup inputs device kw w) as [[[env st]|e] w1] eqn:Hsetup.
  - destruct (generator_setup_effects _ _ _ _ _ _ Hsetup) as [_ Hrng _ _ _ _ _ _ Hok].
    destruct (Hok env st eq_refl) as [_ Hspec].
    rewrite keeps_rng_stream_loop; [done|].
    pose proof (ss_method _ _ _ _ _ _ Hspec) as Hm.
    destruct (decoding_method env); [done | congruence].
  - cbn. by apply (keeps_rng_generator_setup _ _ _ _ _ _ Hsetup).
Qed.

(** X4. Once validation has passed and a decoding method was selected,
    the external calls of a run are: the tokenizer call (followed by
    [model.reset_generation] on transformers-neuronx), then for every batch
    yielded one [forward] (preceded by [prepare_inputs_for_generation] for
    a decoder-only model on transformers-neuronx) and one [batch_decode],
    then the first calls of one more trip if the run ended by an
    exception. *)
Theorem generator_call_trace (fuel : nat) (inputs : PyInputs)
    (device : option string) (kw : gmap string PyVal) (w w' : World)
    (steps : list Step) (outcome : Outcome) (m : DecodingMethod) :
  _hf_model_stream_generator fuel inputs device kw w = (steps, outcome, w') →
  (_validate_inputs (config (w_model w)) inputs).1 = Ok tt →
  _get_decoding_method kw = Ok m →
  ∃ partial,
    w_calls w'
    = w_calls w ++ setup_calls kw
      ++ concat (replicate (length steps)
                   (step_calls (_get_generic_model_class (config (w_model w))).1
                               (engine_of kw)))
      ++ partial
    ∧ partial `prefix_of` step_calls (_get_generic_model_class (config (w_model w))).1
                                     (engine_of kw)
    ∧ (outcome = Done → partial = []).
Proof.
  intros Hrun Hval Hm.
  destruct (generator_run _ _ _ _ _ _ _ _ Hrun)
    as [(e & Hsetup & -> & ->) | (env & st & w1 & w2 & Hsetup & Hspec & _ & Hsteps & Hend)];
    destruct (generator_setup_effects _ _ _ _ _ _ Hsetup) as [_ _ _ _ _ _ Hcalls _ _];
    specialize (Hcalls m Hval Hm).
  { exists []. cbn. rewrite !app_nil_r. split; [done|]. split; [|done].
    apply prefix_nil. }
  apply steps_from_calls in Hsteps.
  rewrite (ss_class _ _ _ _ _ _ Hspec), (ss_engine _ _ _ _ _ _ Hspec), Hcalls in Hsteps.
  destruct outcome as [|e|].
  - destruct Hend as [-> _]. exists []. rewrite app_nil_r, <- app_assoc in *.
    split; [done|]. split; [apply prefix_nil | done].
  - destruct Hend as [_ Hbody].
    destruct (calls_within_loop_body _ _ _ _ _ Hbody) as (p & Hp & Hpre & _).
    rewrite (ss_class _ _ _ _ _ _ Hspec), (ss_engine _ _ _ _ _ _ Hspec) in Hpre.
    exists p. split; [|done]. by rewrite Hp, Hsteps, <- !app_assoc.
  - subst w'. exists []. rewrite app_nil_r, <- app_assoc in *.
    split; [done|]. split; [apply prefix_nil | done].
Qed.

(** X5. What a run does to the tokenizer object: nothing when validation
    refuses the call; otherwise the pad token is set to the eos token if it
    was unset or empty, and for an encoder-decoder model the bos token id
    is set to the config's decoder start token id. The eos token is never
    changed, a pad token that was set is kept, and a second run makes no
    further change. *)
Theorem generator_tokenizer_effect (fuel : nat) (inputs : PyInputs)
    (device : option string) (kw : gmap string PyVal) (w : World) :
  ((_validate_inputs (config (w_model w)) inputs).1 = Ok tt →
     w_tokenizer (_hf_model_stream_generator fuel inputs device kw w).2
     = setup_tokenizer (config (w_model w)) (w_tokenizer w))
  ∧ ((_validate_inputs (config (w_model w)) inputs).1 ≠ Ok tt →
       w_tokenizer (_hf_model_stream_generator fuel inputs device kw w).2
       = w_tokenizer w)
  ∧ eos_token (w_tokenizer (_hf_model_stream_generator fuel inputs device kw w).2)
    = eos_token (w_tokenizer w)
  ∧ (str_falsy (pad_token (w_tokenizer w)) = false →
       pad_token (w_tokenizer (_hf_model_stream_generator fuel inputs device kw w).2)
       = pad_token (w_tokenizer w))
  ∧ setup_tokenizer (config (w_model w))
      (setup_tokenizer (config (w_model w)) (w_tokenizer w))
    = setup_tokenizer (config (w_model w)) (w_tokenizer w).
Proof.
  assert (Htok : w_tokenizer (_hf_model_stream_generator fuel inputs device kw w).2
                 = w_tokenizer (generator_setup inputs device kw w).2).
  { unfold _hf_model_stream_generator.
    destruct (generator_setup inputs device kw w) as [[[env st]|e] w1]; [|done].
    destruct (stream_loop fuel env st w1) as [[steps outcome] w2] eqn:Hloop.
    cbn [snd]. by destruct (stream_loop_chain _ _ _ _ _ _ _ Hloop) as (_ & -> & _). }
  rewrite Htok. clear Htok.
  destruct (generator_setup inputs device kw w) as [r w1] eqn:Hsetup.
  destruct (generator_setup_effects _ _ _ _ _ _ Hsetup) as [_ _ Href Hset _ _ _ _ _].
  cbn [snd].
  assert (Hcases : (_validate_inputs (config (w_model w)) inputs).1 = Ok tt
                   ∧ w_tokenizer w1 = setup_tokenizer (config (w_model w)) (w_tokenizer w)
                   ∨ (_validate_inputs (config (w_model w)) inputs).1 ≠ Ok tt
                     ∧ w_tokenizer w1 = w_tokenizer w).
  { destruct ((_validate_inputs (config (w_model w)) inputs).1) as [[]|e] eqn:Hval.
    - left. eauto.
    - right. split; [done|]. by destruct (Href e eq_refl) as [_ ->]. }
  split; [|split; [|split; [|split]]].
  - by destruct Hcases as [[_ ->] | [? _]].
  - by destruct Hcases as [[? _] | [_ ->]].
  - by destruct Hcases as [[_ ->] | [_ ->]].
  - intros Hpad. destruct Hcases as [[_ ->] | [_ ->]]; [|done].
    cbn. by rewrite Hpad.
  - unfold setup_tokenizer. cbn.
    destruct (str_falsy (pad_token (w_tokenizer w))) eqn:Hpad.
    + by destruct (str_falsy (eos_token (w_tokenizer w))), (_get_generic_model_class _).1.
    + rewrite Hpad. by destruct (_get_generic_model_class _).1.
Qed.

(** X6. A run logs nothing but the warnings about a missing architectures
    field: nothing when the field is set, the first warning when the
    inputs are then refused, both warnings otherwise; the model config is
    never changed. *)
Theorem generator_log_effect (fuel : nat) (inputs : PyInputs)
    (device : option string) (kw : gmap string PyVal) (w : World) :
  config (w_model (_hf_model_stream_generator fuel inputs device kw w).2)
  = config (w_model w)
  ∧ (¬ no_architectures (config (w_model w)) →
       w_log (_hf_model_stream_generator fuel inputs device kw w).2 = w_log w)
  ∧ (no_architectures (config (w_model w)) → refused_inputs inputs →
       w_log (_hf_model_stream_generator fuel inputs device kw w).2
       = w_log w ++ [WARN_NO_ARCH_SUPPORTED])
  ∧ (no_architectures (config (w_model w)) → ¬ refused_inputs inputs →
       w_log (_hf_model_stream_generator fuel inputs device kw w).2
       = w_log w ++ [WARN_NO_ARCH_SUPPORTED; WARN_NO_ARCH_ASSUME]).
Proof.
  assert (Hloop : w_log (_hf_model_stream_generator fuel inputs device kw w).2
                  = w_log (generator_setup inputs device kw w).2
                  ∧ config (w_model (_hf_model_stream_generator fuel inputs device kw w).2)
                    = config (w_model (generator_setup inputs device kw w).2)).
  { unfold _hf_model_stream_generator.
    destruct (generator_setup inputs device kw w) as [[[env st]|e] w1]; [|done].
    apply keeps_log_stream_loop. }
  destruct Hloop as [-> ->].
  destruct (generator_setup inputs device kw w) as [r w1] eqn:Hsetup.
  destruct (generator_setup_effects _ _ _ _ _ _ Hsetup) as [Hcfg _ Href _ Hlog _ _ _ _].
  cbn [snd]. split; [done|].
  destruct (validate_inputs_cases (config (w_model w)) inputs)
    as (res & warnings & Hval & _ & Hres & Hwarn).
  rewrite Hval in Href, Hlog. cbn [fst snd] in Href, Hlog.
  pose proof (list_falsy_spec (config (w_model w))) as Hfalsy.
  unfold _get_generic_model_class in Hlog.
  destruct (list_falsy (architectures (config (w_model w)))) eqn:Hlf.
  - assert (Hno : no_architectures (config (w_model w))) by by apply Hfalsy.
    subst warnings. split; [done|]. split.
    + intros _ Hbad. destruct res as [[]|e].
      * by destruct (proj1 Hres eq_refl) as [_ Hgood].
      * by destruct (Href e eq_refl) as [_ ->].
    + intros _ Hgood. destruct res as [[]|e].
      * by rewrite (Hlog eq_refl).
      * pose proof (proj2 Hres (conj (or_introl eq_refl) Hgood)) as Hx.
        discriminate Hx.
  - assert (Hno : ¬ no_architectures (config (w_model w))).
    { intros Hno. apply Hfalsy in Hno. congruence. }
    subst warnings. split; [|done]. intros _. destruct res as [[]|e].
    + rewrite (Hlog eq_refl). cbn. destruct (existsb _ _); cbn; by rewrite app_nil_r.
    + destruct (Href e eq_refl) as [_ ->]. cbn. by rewrite app_nil_r.
Qed.

Lemma steps_from_step env st w steps w2 :
  steps_from env st w steps w2 →
  ∀ k s, steps !! k = Some s → body_effects env (final_state st (take k steps)) s.
Proof.
  induction 1 as [st w | st w step w1 steps w2 Hgo Hbody Hsteps IH]; intros k s Hk.
  { by rewrite lookup_nil in Hk. }
  destruct k as [|k]; cbn in Hk.
  - injection Hk as <-. rewrite take_0. by eapply loop_body_effects.
  - change (take (S k) (step :: steps)) with (step :: take k steps).
    rewrite final_state_cons. by apply IH.
Qed.

(** X7. A row that has not emitted [eos] up to and including a step is
    still unfinished after it (flag 1), and what is decoded and yielded for
    it at that step is the token the decoding method chose. *)
Theorem unfinished_rows_yield_their_token (fuel : nat) (inputs : PyInputs)
    (device : option string) (kw : gmap string PyVal) (w w' : World)
    (steps : list Step) (outcome : Outcome) (eos : Z) (k : nat) (s : Step) (i : nat) :
  _hf_model_stream_generator fuel inputs device kw w = (steps, outcome, w') →
  eos_token_id (w_tokenizer w') = Some eos →
  steps !! k = Some s →
  (i < prompt_count inputs)%nat →
  ¬ emitted_eos eos (take (S k) steps) i →
  unfinished_sequences (after s) !! i = Some 1
  ∧ ∃ t, token_ids s !! i = Some t ∧ t ≠ eos ∧ yielded_ids s !! i = Some t.
Proof.
  intros Hrun Heos Hk Hi Hnot.
  destruct (generator_chain _ _ _ _ _ _ _ _ Hrun)
    as [[-> _] | (env & st & Hb & Hm & Hc & Hu & Hs & Hchain & _)].
  { by rewrite lookup_nil in Hk. }
  unfold eos_of in Hchain. rewrite Heos in Hchain. cbn in Hchain.
  rewrite <- Hb in Hu, Hi.
  assert (Hflags : flags (unfinished_sequences st)).
  { rewrite Hu. apply Forall_replicate. by right. }
  assert (Hlen : length (unfinished_sequences st) = batch env).
  { by rewrite Hu, length_replicate. }
  destruct (chain_facts _ _ _ _ _ _ Hchain Hflags Hlen k s Hk)
    as [_ Ff Fl Fr Fz _ Fy _ _].
  destruct (lookup_lt_is_Some_2 (unfinished_sequences (after s)) i ltac:(lia))
    as [u Hu'].
  destruct (lookup_lt_is_Some_2 (token_ids s) i ltac:(lia)) as [t Ht].
  assert (Hone : u = 1).
  { unfold flags in Ff. rewrite Forall_lookup in Ff.
    destruct (Ff i u Hu') as [-> | ->]; [|done].
    apply (Fz i Hi) in Hu' as [Hinit | Hem]; [|done].
    rewrite Hu, lookup_replicate_2 in Hinit by done. discriminate. }
  subst u. split; [done|]. exists t. split; [done|]. split.
  - intros ->. apply Hnot. exists s. split; [|done].
    eapply lookup_elem_of_take; [done | lia].
  - rewrite Fy. unfold mask_finished. rewrite lookup_zip_with, Ht, Hu'. cbn.
    f_equal. lia.
Qed.

Lemma steps_from_outputs env st w steps w2 :
  steps_from env st w steps w2 →
  ∀ k s, steps !! k = Some s →
    ∃ ms, model_states env st (state (w_model w)) steps !! k = Some ms
      ∧ keeps_outputs env (forward_outputs env (final_state st (take k steps)) ms) s.
Proof.
  induction 1 as [st w | st w step w1 steps w2 Hgo Hbody Hsteps IH]; intros k s Hk.
  { by rewrite lookup_nil in Hk. }
  destruct (loop_body_outputs _ _ _ _ _ Hbody) as [Hout Hms].
  destruct k as [|k]; cbn in Hk.
  - injection Hk as <-. rewrite take_0. exists (state (w_model w)). by split.
  - change (take (S k) (step :: steps)) with (step :: take k steps).
    rewrite final_state_cons. cbn [model_states]. rewrite <- Hms. by apply IH.
Qed.

(** X8. What the next [forward] call is given. Step [k] of a run calls
    [forward] on the state left by the steps before it (the state of the
    set-up for the first step), the model being in the state the earlier
    [forward] calls left it in. With no [engine] keyword argument (or
    [engine=None]) the cache that very call returned is kept after the
    step; with any other engine [past_key_values] stays [None] for the
    whole run. A decoder-only model is then fed one column, the ids that
    were yielded; an encoder-decoder model is fed no [input_ids] but the
    yielded ids as [decoder_input_ids], with the encoder state that call
    returned, in a one-element list. *)
Theorem next_forward_inputs (fuel : nat) (inputs : PyInputs)
    (device : option string) (kw : gmap string PyVal) (w w' : World)
    (steps : list Step) (outcome : Outcome) (k : nat) (s : Step) :
  _hf_model_stream_generator fuel inputs device kw w = (steps, outcome, w') →
  steps !! k = Some s →
  ∃ env st w1 ms,
    generator_setup inputs device kw w = (Ok (env, st), w1)
    ∧ model_states env st (state (w_model w1)) steps !! k = Some ms
    ∧ let outputs := forward_outputs env (final_state st (take k steps)) ms in
      (is_none (engine_of kw) = true →
         past_key_values (after s) = Some (out_past_key_values outputs))
      ∧ (is_none (engine_of kw) = false → past_key_values (after s) = None)
      ∧ ((_get_generic_model_class (config (w_model w))).1 = CausalLM →
           input_ids (after s) = Some (column (yielded_ids s)))
      ∧ ((_get_generic_model_class (config (w_model w))).1 = Seq2SeqLM →
           input_ids (after s) = None
           ∧ decoder_input_ids (after s) = column (yielded_ids s)
           ∧ encoder_last_hidden_state (after s)
             = Some [out_encoder_last_hidden_state outputs]).
Proof.
  intros Hrun Hk.
  destruct (generator_run _ _ _ _ _ _ _ _ Hrun)
    as [(e & _ & -> & _) | (env & st & w1 & w2 & Hsetup & Hspec & _ & Hsteps & _)].
  { by rewrite lookup_nil in Hk. }
  destruct Hspec as [Hclass _ Heng _ _ _ _ Hcache _ _ _ _].
  destruct (steps_from_step _ _ _ _ _ Hsteps k s Hk) as [_ _ _ _ Hcausal Hseq].
  destruct (steps_from_outputs _ _ _ _ _ Hsteps k s Hk) as (ms & Hms & Hnew & Henc).
  exists env, st, w1, ms. split; [done|]. split; [done|]. cbv zeta.
  rewrite <- Heng, <- Hclass.
  split; [done|]. split; [|split].
  - intros Hgiven.
    refine (steps_from_lookup _ _ _ _ _ (λ st, past_key_values st = None)
              Hsteps Hcache _ k s Hk).
    intros st0 step0 Hnone Heff. by rewrite (eff_cache_kept _ _ _ Heff Hgiven).
  - intros Hc. by destruct (Hcausal Hc) as (_ & _ & ?).
  - intros Hc. destruct (Hseq Hc) as (_ & ? & ? & _). auto.
Qed.

(** X9. The ids handed to the decoding method for row [i] (the history
    the repetition penalty looks at) are the row's initial ids followed by
    every token decoded for it so far, one per step - the tokens as the
    method chose them, also after the row has finished and pad ids are
    being yielded in their place. *)
Theorem decoder_history_rows (fuel : nat) (inputs : PyInputs)
    (device : option string) (kw : gmap string PyVal) (w w' : World)
    (steps : list Step) (outcome : Outcome) (k : nat) (s : Step)
    (i : nat) (row : list Z) :
  _hf_model_stream_generator fuel inputs device kw w = (steps, outcome, w') →
  steps !! k = Some s →
  initial_history (config (w_model w)) (w_tokenizer w') inputs !! i = Some row →
  all_decoder_input_ids (after s) !! i = Some (row ++ row_tokens i (take (S k) steps))
  ∧ length (row_tokens i (take (S k) steps)) = S k.
Proof.
  intros Hrun Hk Hrow.
  destruct (generator_run _ _ _ _ _ _ _ _ Hrun)
    as [(e & _ & -> & _) | (env & st & w1 & w2 & Hsetup & Hspec & Htok & Hsteps & _)].
  { by rewrite lookup_nil in Hk. }
  apply (steps_from_history _ _ _ _ _ Hsteps k s i row Hk).
  destruct Hspec as [Hclass _ _ _ _ _ _ _ _ _ Hcausal Hseq].
  unfold initial_history in Hrow. rewrite Htok, <- Hclass in Hrow.
  destruct (generic_model_class env).
  - destruct (Hcausal eq_refl) as (-> & _). done.
  - destruct (Hseq eq_refl) as (_ & bos & Hbos & _ & ->).
    by rewrite Hbos in Hrow.
Qed.

Lemma remaining_int (m : Z) : remaining (VInt m) 0 = Z.to_nat m.
Proof. unfold remaining. cbn. rewrite Qceiling_Z. f_equal. lia. Qed.

Lemma mask_columns_int (n : nat) (m : Z) (cols : Z) :
  mask_columns n (VInt m) = Ok cols → cols = Z.of_nat n + m.
Proof. by intros [= <-]. Qed.

(** The mask of a decoder-only model before the loop: as wide as
    [input_length + max_new_tokens]. *)
Lemma setup_mask_width inputs kw cfg tok env st :
  setup_spec inputs kw cfg tok env st →
  generic_model_class env = CausalLM →
  ∃ cols, mask_columns (curr_length st) (max_new_tokens_of kw) = Ok cols
          ∧ 0 <= cols
          ∧ width (attention_mask st) = Z.to_nat cols.
Proof.
  intros Hspec Hclass.
  destruct (ss_causal _ _ _ _ _ _ Hspec Hclass) as (_ & _ & cols & mask & Hcols & Hz & Hm).
  apply new_zeros_ok in Hz as [Hpos ->].
  exists cols. split; [done|]. split; [done|].
  pose proof (ss_valid _ _ _ _ _ _ Hspec) as Hn.
  assert (Hw : width (replicate (length (prompts_of inputs))
                        (replicate (Z.to_nat cols) 0)) = Z.to_nat cols).
  { rewrite width_replicate by lia. by rewrite length_replicate. }
  destruct (bool_decide _).
  - by rewrite Hm, assign_prefix_scalar_width.
  - apply assign_prefix_tensor_width in Hm. by rewrite Hm.
Qed.

(** X10. With [max_new_tokens <= 0] a decoder-only model yields nothing
    and the run ends by an exception (the attention mask has no column for
    the first new token), while an encoder-decoder model that runs to its
    end still yields one batch. *)
Theorem non_positive_max_new_tokens (fuel : nat) (inputs : PyInputs)
    (device : option string) (kw : gmap string PyVal) (w w' : World)
    (steps : list Step) (outcome : Outcome) (m : Z) :
  _hf_model_stream_generator fuel inputs device kw w = (steps, outcome, w') →
  max_new_tokens_of kw = VInt m →
  m <= 0 →
  ((_get_generic_model_class (config (w_model w))).1 = CausalLM →
     steps = [] ∧ outcome ≠ Done ∧ ((1 < fuel)%nat → ∃ e, outcome = Raised e))
  ∧ ((_get_generic_model_class (config (w_model w))).1 = Seq2SeqLM →
       outcome = Done → length steps = 1%nat).
Proof.
  intros Hrun Hmax Hm.
  destruct (generator_chain _ _ _ _ _ _ _ _ Hrun)
    as [[-> [e ->]] | (env0 & st0 & _ & Hm0 & Hc0 & _ & Hs0 & Hchain & Hdone & _ & Hfuel)].
  { split; [|done]. intros _. split; [done|]. split; [done|]. eauto. }
  apply chain_length in Hchain. rewrite Hm0, Hmax, Hc0, remaining_int in Hchain.
  rewrite Hm0, Hmax, remaining_int in Hfuel.
  assert (Hone : (length steps ≤ 1)%nat) by lia.
  assert (Hsome : outcome = Done → steps ≠ []).
  { intros Hd ->. specialize (Hdone Hd). cbn in Hdone. congruence. }
  split.
  - intros Hclass.
    destruct (generator_run _ _ _ _ _ _ _ _ Hrun)
      as [(e & _ & -> & ->) | (env & st & w1 & w2 & Hsetup & Hspec & _ & Hsteps & _)].
    { split; [done|]. split; [done|]. eauto. }
    assert (Hnil : steps = []).
    { destruct steps as [|s steps]; [done|]. exfalso.
      rewrite <- (ss_class _ _ _ _ _ _ Hspec) in Hclass.
      destruct (setup_mask_width _ _ _ _ _ _ Hspec Hclass) as (cols & Hcols & Hpos & Hw).
      rewrite Hmax in Hcols. apply mask_columns_int in Hcols.
      destruct (steps_from_causal _ _ _ _ _ Hclass Hsteps 0%nat s eq_refl) as (_ & _ & Hlt).
      lia. }
    split; [done|]. split; [by intros Hd; apply (Hsome Hd)|].
    intros Hf. destruct outcome as [|e|]; [by destruct (Hsome eq_refl) | eauto |].
    exfalso. apply Hfuel; [lia | done].
  - intros _ Hd. specialize (Hsome Hd). destruct steps; [done | cbn in *; lia].
Qed.

(** X11. When the pad token is the eos token (as after the pad token was
    defaulted), the attention mask of a decoder-only model does not use
    the tokenizer's attention mask: after step [k] every row is
    [input_length + k + 1] ones followed by zeros, so every position of
    every prompt, padding included, is attended to. *)
Theorem causal_mask_is_all_ones (fuel : nat) (inputs : PyInputs)
    (device : option string) (kw : gmap string PyVal) (w w' : World)
    (steps : list Step) (outcome : Outcome) (k : nat) (s : Step) :
  _hf_model_stream_generator fuel inputs device kw w = (steps, outcome, w') →
  (_get_generic_model_class (config (w_model w))).1 = CausalLM →
  pad_token (w_tokenizer w') = eos_token (w_tokenizer w') →
  steps !! k = Some s →
  ∃ cols,
    mask_columns (prompt_width (w_tokenizer w') inputs) (max_new_tokens_of kw) = Ok cols
    ∧ Z.of_nat (prompt_width (w_tokenizer w') inputs + S k) <= cols
    ∧ curr_length (after s) = (prompt_width (w_tokenizer w') inputs + S k)%nat
    ∧ attention_mask (after s)
      = replicate (length (prompts_of inputs))
          (replicate (prompt_width (w_tokenizer w') inputs + S k) 1
           ++ replicate (Z.to_nat cols - (prompt_width (w_tokenizer w') inputs + S k)) 0).
Proof.
  intros Hrun Hclass Hsame Hk.
  destruct (generator_run _ _ _ _ _ _ _ _ Hrun)
    as [(e & _ & -> & _) | (env & st & w1 & w2 & Hsetup & Hspec & Htok & Hsteps & _)].
  { by rewrite lookup_nil in Hk. }
  rewrite <- Htok in Hspec. rewrite <- (ss_class _ _ _ _ _ _ Hspec) in Hclass.
  pose proof (ss_valid _ _ _ _ _ _ Hspec) as Hn.
  destruct (ss_causal _ _ _ _ _ _ Hspec Hclass)
    as (_ & Hcurr & cols & mask & Hcols & Hz & Hmask).
  rewrite bool_decide_eq_true_2 in Hmask by done.
  apply new_zeros_ok in Hz as [Hpos ->].
  fold (prompt_width (w_tokenizer w') inputs) in Hcurr.
  destruct (steps_from_causal _ _ _ _ _ Hclass Hsteps k s Hk) as (Hc & _ & Hroom).
  rewrite Hmask, assign_prefix_scalar_width, width_replicate, length_replicate in Hroom
    by lia.
  assert (Hinit : attention_mask st
                  = replicate (length (prompts_of inputs))
                      (replicate (curr_length st) 1
                       ++ replicate (Z.to_nat cols - curr_length st) 0)).
  { rewrite Hmask. unfold assign_prefix_scalar. rewrite map_replicate.
    rewrite length_replicate, drop_replicate. f_equal. f_equal. f_equal. lia. }
  destruct (steps_from_ones _ _ _ _ _ _ _ Hclass Hn Hsteps Hinit k s Hk) as [Hle Hones].
  exists cols. rewrite <- Hcurr. split; [done|]. split; [lia|]. split; [done|].
  rewrite Hones. f_equal. f_equal. f_equal. lia.
Qed.

Lemma get_decoding_method_raises (kw : gmap string PyVal) (e : PyExc) :
  _get_decoding_method kw = Raise e →
  e = NotImplementedError "beam search is not supported yet!" ∨ e = TypeError.
Proof.
  unfold _get_decoding_method, py_gt.
  destruct (kw !! "beam_size") as [v|]; [destruct (as_number v) as [x|]|]; cbn [pbind].
  - destruct (Qlt_bool 1 x); [intros [= <-]; by left|].
    repeat case_match; discriminate.
  - intros [= <-]. by right.
  - repeat case_match; discriminate.
Qed.

(** X12. Every exception raised before the first trip through the loop
    has one of seven causes: validation ([AssertionError]), the choice of
    the decoding method ([NotImplementedError] for beam search,
    [TypeError] for a [beam_size] that is not a number), and then for a
    decoder-only model a [max_new_tokens] that is not an [int]
    ([TypeError]), a mask of a size torch cannot take or allocate (torch's
    exception, for a width [input_length + max_new_tokens] that is the
    exact sum of Python's unbounded integers), a negative mask width or an
    attention mask of the wrong shape ([RuntimeError]), for an
    encoder-decoder model a config without decoder start token
    ([RuntimeError]). Nothing has been yielded then, and at most the
    tokenizer call and [reset_generation] were made. *)
Theorem setup_failures (inputs : PyInputs) (device : option string)
    (kw : gmap string PyVal) (w w' : World) (e : PyExc) :
  generator_setup inputs device kw w = (Raise e, w') →
  setup_error inputs kw (config (w_model w)) (w_tokenizer w') e
  ∧ ((∃ msg, e = AssertionError msg)
     ∨ e = NotImplementedError "beam search is not supported yet!"
     ∨ e = TypeError ∨ e = RuntimeError
     ∨ ∃ cols,
         mask_columns (prompt_width (w_tokenizer w') inputs) (max_new_tokens_of kw)
         = Ok cols
         ∧ alloc_error (length (prompts_of inputs)) cols = Some e)
  ∧ (∀ fuel, _hf_model_stream_generator fuel inputs device kw w = ([], Raised e, w'))
  ∧ ∃ p, w_calls w' = w_calls w ++ p ∧ p `prefix_of` setup_calls kw.
Proof.
  intros Hsetup. pose proof (generator_setup_raises _ _ _ _ _ _ Hsetup) as Herr.
  split; [done|]. split; [|split].
  - destruct Herr as [e Hv | e Hm | e _ Hc | cols e _ Hc Hz | cols mask e _ _ _ _ Ht | _ _].
    + destruct (validate_inputs_cases (config (w_model w)) inputs)
        as (r & ws & Hval & Hassert & _).
      rewrite Hval in Hv. cbn in Hv. left. by apply Hassert.
    + right. destruct (get_decoding_method_raises _ _ Hm) as [-> | ->]; eauto.
    + right. right. left. unfold mask_columns in Hc. repeat case_match; simplify_eq; done.
    + right. right. right. apply new_zeros_raises in Hz as [Hz | [-> _]]; eauto.
    + right. right. right. left. unfold assign_prefix_tensor in Ht.
      by repeat case_match; simplify_eq.
    + by right; right; right; left.
  - intros fuel. unfold _hf_model_stream_generator. by rewrite Hsetup.
  - destruct (generator_setup_effects _ _ _ _ _ _ Hsetup) as [_ _ Href _ _ Hnom Hcalls _ _].
    destruct ((_validate_inputs (config (w_model w)) inputs).1) as [[]|e0] eqn:Hval.
    + destruct (_get_decoding_method kw) as [m|e1] eqn:Hm.
      * exists (setup_calls kw). split; [by eapply Hcalls | done].
      * exists [CallTokenizer]. destruct (Hnom e1 eq_refl eq_refl) as [_ ->].
        split; [done|]. by exists (if is_neuronx (engine_of kw)
                                   then [CallResetGeneration] else []).
    + destruct (Href e0 eq_refl) as [_ ->]. exists []. cbn.
      split; [by rewrite app_nil_r | apply prefix_nil].
Qed.

(** *** Runs that complete *)















(** X16. The tokenizer's attention mask is what the model is given for
    the prompt positions whenever the pad token differs from the eos
    token: an encoder-decoder model gets it unchanged at every step, and a
    decoder-only model gets its rows followed by one 1 for every token
    generated so far, then zeros up to [input_length + max_new_tokens]
    (the tokenizer returning one mask row per prompt, as wide as the ids). *)
Theorem tokenizer_mask_is_kept (fuel : nat) (inputs : PyInputs)
    (device : option string) (kw : gmap string PyVal) (w w' : World)
    (steps : list Step) (outcome : Outcome) (k : nat) (s : Step) :
  _hf_model_stream_generator fuel inputs device kw w = (steps, outcome, w') →
  steps !! k = Some s →
  ((_get_generic_model_class (config (w_model w))).1 = Seq2SeqLM →
     attention_mask (after s)
     = tk_attention_mask (tokenize (w_tokenizer w') (prompts_of inputs)))
  ∧ ((_get_generic_model_class (config (w_model w))).1 = CausalLM →
       pad_token (w_tokenizer w') ≠ eos_token (w_tokenizer w') →
       length (tk_attention_mask (tokenize (w_tokenizer w') (prompts_of inputs)))
       = length (prompts_of inputs) →
       Forall (λ row, length row = prompt_width (w_tokenizer w') inputs)
              (tk_attention_mask (tokenize (w_tokenizer w') (prompts_of inputs))) →
       ∃ cols,
         mask_columns (prompt_width (w_tokenizer w') inputs) (max_new_tokens_of kw)
         = Ok cols
         ∧ attention_mask (after s)
           = map (λ row, row ++ replicate (S k) 1
                         ++ replicate (Z.to_nat cols
                                       - (prompt_width (w_tokenizer w') inputs + S k)) 0)
                 (tk_attention_mask (tokenize (w_tokenizer w') (prompts_of inputs)))).
Proof.
  intros Hrun Hk.
  destruct (generator_run _ _ _ _ _ _ _ _ Hrun)
    as [(e & _ & -> & _) | (env & st & w1 & w2 & Hsetup & Hspec & Htok & Hsteps & _)].
  { by rewrite lookup_nil in Hk. }
  rewrite <- Htok in Hspec. rewrite <- (ss_class _ _ _ _ _ _ Hspec).
  pose proof (ss_valid _ _ _ _ _ _ Hspec) as Hn.
  split.
  - intros Hclass. destruct (ss_seq2seq _ _ _ _ _ _ Hspec Hclass) as (Hmask & _).
    refine (steps_from_lookup _ _ _ _ _
              (λ st, attention_mask st
                     = tk_attention_mask (tokenize (w_tokenizer w') (prompts_of inputs)))
              Hsteps Hmask _ k s Hk).
    intros st0 step0 Hst0 Heff. destruct (eff_seq2seq _ _ _ Heff Hclass) as (-> & _).
    done.
  - intros Hclass Hdiff Hrows Hwide.
    destruct (ss_causal _ _ _ _ _ _ Hspec Hclass)
      as (_ & Hcurr & cols & mask & Hcols & Hz & Hmask).
    rewrite bool_decide_eq_false_2 in Hmask by done.
    apply new_zeros_ok in Hz as [Hpos ->].
    fold (prompt_width (w_tokenizer w') inputs) in Hcurr.
    rewrite Hcurr in Hcols, Hmask.
    destruct (steps_from_causal _ _ _ _ _ Hclass Hsteps k s Hk) as (_ & _ & Hroom).
    rewrite (assign_prefix_tensor_width _ _ _ _ Hmask), width_replicate,
      length_replicate, Hcurr in Hroom by lia.
    rewrite assign_prefix_tensor_exact in Hmask.
    2:{ by rewrite length_replicate. }
    2:{ done. }
    2:{ apply Forall_replicate. rewrite length_replicate. lia. }
    injection Hmask as Hmask.
    rewrite map_zip_replicate, drop_replicate in Hmask by done.
    exists cols. split; [done|].
    assert (Hn' : (0 < length (tk_attention_mask
                                 (tokenize (w_tokenizer w') (prompts_of inputs))))%nat)
      by lia.
    assert (Hc0 : curr_length st = (prompt_width (w_tokenizer w') inputs + 0)%nat)
      by lia.
    destruct (steps_from_prefixed _ _ _ _ _ _ _ Hclass Hn' Hwide Hsteps 0%nat
                (Z.to_nat cols - prompt_width (w_tokenizer w') inputs)%nat
                Hc0 (eq_sym Hmask) k s Hk) as [Hle ->].
    apply map_ext. intros row. cbn [Nat.add]. do 2 f_equal. f_equal. lia.
Qed.

(** *** Runs that raise *)








(** *** Runs that do not read the random generator *)

Lemma rng_blind_mbind {A B} (m : M A) (k : A → M B) :
  rng_blind m → (∀ a, rng_blind (k a)) → rng_blind (mbind m k).
Proof.
  intros Hm Hk w g. unfold mbind. rewrite Hm.
  destruct (m w) as [[a|e] w1]; cbn; [apply Hk | done].
Qed.

Lemma rng_blind_pure {A} (m : M A) :
  (∀ w g, m (set_rng g w) = ((m w).1, set_rng g (m w).2)) → rng_blind m.
Proof. done. Qed.

Lemma rng_blind_mret {A} (a : A) : rng_blind (mret a).
Proof. done. Qed.

Lemma rng_blind_mraise {A} (e : PyExc) : rng_blind (mraise e : M A).
Proof. done. Qed.

Lemma rng_blind_lift {A} (r : PyResult A) : rng_blind (lift r).
Proof. done. Qed.

Lemma rng_blind_get_tokenizer : rng_blind get_tokenizer.
Proof. done. Qed.

Lemma rng_blind_get_config : rng_blind get_config.
Proof. done. Qed.

Lemma rng_blind_put_tokenizer tok : rng_blind (put_tokenizer tok).
Proof. done. Qed.

Lemma rng_blind_call_tokenizer prompts : rng_blind (call_tokenizer prompts).
Proof. done. Qed.

Lemma rng_blind_call_reset_generation : rng_blind call_reset_generation.
Proof. done. Qed.

Lemma rng_blind_call_prepare_inputs ids mask pkv :
  rng_blind (call_prepare_inputs ids mask pkv).
Proof. done. Qed.

Lemma rng_blind_call_batch_decode ids : rng_blind (call_batch_decode ids).
Proof. done. Qed.

Lemma rng_blind_call_forward args : rng_blind (call_forward args).
Proof. intros w g. unfold call_forward. cbn. by destruct (forward _ _). Qed.

Lemma rng_blind_call_decode_greedy lg ids kw :
  rng_blind (call_decode greedy_decoding lg ids kw).
Proof. done. Qed.

Lemma rng_blind_logged {A} (p : PyResult A * list string) :
  rng_blind (λ w, let '(r, warnings) := p in (r, add_log warnings w)).
Proof. intros w g. by destruct p. Qed.

Lemma rng_blind_logged_ok {A} (p : A * list string) :
  rng_blind (λ w, let '(c, warnings) := p in (Ok c, add_log warnings w)).
Proof. intros w g. by destruct p. Qed.

Lemma rng_blind_decode_rows env all_ids i rows :
  decoding_method env = greedy_decoding →
  rng_blind (decode_rows env all_ids i rows).
Proof.
  intros Hg. revert i. induction rows as [|lg rows IH]; intros i; cbn [decode_rows].
  - apply rng_blind_mret.
  - apply rng_blind_mbind.
    { destruct (all_ids !! i); [apply rng_blind_mret | apply rng_blind_mraise]. }
    intros ids. apply rng_blind_mbind.
    { rewrite Hg. apply rng_blind_call_decode_greedy. }
    intros t. apply rng_blind_mbind; [apply IH|]. intros rest. apply rng_blind_mret.
Qed.

Create HintDb rng_blind discriminated.
Hint Resolve rng_blind_mret rng_blind_mraise rng_blind_lift rng_blind_get_tokenizer
  rng_blind_get_config rng_blind_put_tokenizer rng_blind_call_tokenizer
  rng_blind_call_reset_generation rng_blind_call_prepare_inputs
  rng_blind_call_batch_decode rng_blind_call_forward rng_blind_logged
  rng_blind_logged_ok rng_blind_decode_rows : rng_blind.

Ltac rng_blind_step :=
  first [ apply rng_blind_mbind; [|intros ?]
        | match goal with
          | |- rng_blind (match ?x with _ => _ end) => destruct x
          | |- rng_blind (if ?x then _ else _) => destruct x
          end
        | solve [auto with rng_blind] ].

Lemma rng_blind_loop_body env st :
  decoding_method env = greedy_decoding → rng_blind (loop_body env st).
Proof. intros Hg. unfold loop_body. repeat rng_blind_step. Qed.

Lemma rng_blind_generator_setup inputs device kw :
  rng_blind (generator_setup inputs device kw).
Proof. unfold generator_setup. repeat rng_blind_step. Qed.

Lemma rng_blind_stream_loop fuel env st w g :
  decoding_method env = greedy_decoding →
  stream_loop fuel env st (set_rng g w)
  = ((stream_loop fuel env st w).1, set_rng g (stream_loop fuel env st w).2).
Proof.
  intros Hg. revert st w. induction fuel as [|fuel IH]; intros st w; [done|].
  cbn [stream_loop]. destruct (stop_generation st); [done|].
  rewrite (rng_blind_loop_body env st Hg).
  destruct (loop_body env st w) as [[step|e] w1]; cbn [fst snd]; [|done].
  rewrite IH. by destruct (stream_loop fuel env (after step) w1) as [[steps outcome] w2].
Qed.

(** X20. A run whose decoding method is not the sampling one does not
    read torch's default random generator either: started from any other
    generator state it takes the same steps, ends the same way and leaves
    the model, the tokenizer, the log and the calls the same. *)
Theorem greedy_run_ignores_generator (fuel : nat) (inputs : PyInputs)
    (device : option string) (kw : gmap string PyVal) (w : World) (g : Generator) :
  _get_decoding_method kw ≠ Ok sampling_decoding →
  _hf_model_stream_generator fuel inputs device kw (set_rng g w)
  = ((_hf_model_stream_generator fuel inputs device kw w).1,
     set_rng g (_hf_model_stream_generator fuel inputs device kw w).2).
Proof.
  intros Hns. unfold _hf_model_stream_generator.
  rewrite (rng_blind_generator_setup inputs device kw).
  destruct (generator_setup inputs device kw w) as [[[env st]|e] w1] eqn:Hsetup;
    cbn [fst snd]; [|done].
  apply rng_blind_stream_loop.
  destruct (generator_setup_effects _ _ _ _ _ _ Hsetup) as [_ _ _ _ _ _ _ _ Hok].
  destruct (Hok env st eq_refl) as [_ Hspec].
  pose proof (ss_method _ _ _ _ _ _ Hspec) as Hm.
  destruct (decoding_method env); [done | congruence].
Qed.

End RunFacts.

(** ** Runs of the small backend *)

#[local] Existing Instances Toy.toy_torch Toy.toy_transformers Toy.toy_backend.

Example endswith_suffixes :
  endswith "OPTForCausalLM" "CausalLM" = true
  ∧ endswith "GPT2LMHeadModel" "GPT2LMHeadModel" = true
  ∧ endswith "LM" "CausalLM" = false
  ∧ endswith_any "MT5ForConditionalGeneration" SUPPORTED_MODEL_ARCH_SUFFIXES = true
  ∧ endswith_any "BertModel" SUPPORTED_MODEL_ARCH_SUFFIXES = false.
Proof. repeat split. Qed.

Example validate_inputs_shapes :
  _validate_inputs Toy.gpt2_config (InputList ["Hello"]) = (Ok tt, [])
  ∧ _validate_inputs Toy.gpt2_config (InputList [])
    = (Raise (AssertionError "[ERROR] empty input list"), [])
  ∧ _validate_inputs Toy.gpt2_config (InputOther (VStr "Hello"))
    = (Raise (AssertionError "inputs to stream generator must be a list of strings"), []).
Proof. repeat split. Qed.

Example assign_prefix_rows :
  assign_prefix_scalar [[0; 0; 0; 0]; [0; 0; 0; 0]] 2 1 = [[1; 1; 0; 0]; [1; 1; 0; 0]]
  ∧ assign_prefix_tensor [[0; 0; 0; 0]; [0; 0; 0; 0]] 2 [[0; 1]; [1; 1]]
    = Ok [[0; 1; 0; 0]; [1; 1; 0; 0]]
  ∧ assign_prefix_tensor [[0; 0; 0; 0]; [0; 0; 0; 0]] 2 [[0; 1; 1]; [1; 1; 1]]
    = Raise RuntimeError
  ∧ assign_column [[1; 1; 0]; [1; 1; 0]] 2 1 = Ok [[1; 1; 1]; [1; 1; 1]]
  ∧ assign_column [[1; 1; 0]; [1; 1; 0]] 3 1 = Raise IndexError.
Proof. repeat split. Qed.

(** C3, as stated, fails: a model whose only architecture is [BertModel]
    (no recognized suffix) is refused by an [AssertionError], no warning is
    logged, and the generator yields nothing and touches nothing. *)
Lemma unrecognized_architecture_is_fatal :
  _validate_inputs Toy.bert_config (InputList ["Hello"])
  = (Raise (AssertionError
      "model archs: ['BertModel'] is not in supported list: *('CausalLM', 'GPT2LMHeadModel', 'T5ForConditionalGeneration')"),
     [])
  ∧ _hf_model_stream_generator 100 (InputList ["Hello"]) None ∅
      (Toy.toy_world Toy.bert_config)
    = ([],
       Raised (AssertionError
         "model archs: ['BertModel'] is not in supported list: *('CausalLM', 'GPT2LMHeadModel', 'T5ForConditionalGeneration')"),
       Toy.toy_world Toy.bert_config).
Proof. split; reflexivity. Qed.

Lemma invalid_inputs_rejected_first_witness :
  ∃ msg warnings,
    _validate_inputs (config (w_model (Toy.toy_world Toy.gpt2_config))) (InputList [])
    = (Raise (AssertionError msg), warnings)
    ∧ _hf_model_stream_generator 100 (InputList []) None ∅ (Toy.toy_world Toy.gpt2_config)
      = ([], Raised (AssertionError msg), add_log warnings (Toy.toy_world Toy.gpt2_config))
    ∧ w_model (add_log warnings (Toy.toy_world Toy.gpt2_config))
      = w_model (Toy.toy_world Toy.gpt2_config)
    ∧ w_tokenizer (add_log warnings (Toy.toy_world Toy.gpt2_config))
      = w_tokenizer (Toy.toy_world Toy.gpt2_config)
    ∧ w_rng (add_log warnings (Toy.toy_world Toy.gpt2_config))
      = w_rng (Toy.toy_world Toy.gpt2_config)
    ∧ w_calls (add_log warnings (Toy.toy_world Toy.gpt2_config))
      = w_calls (Toy.toy_world Toy.gpt2_config).
Proof.
  apply (invalid_inputs_rejected_first 100 (InputList []) None ∅
           (Toy.toy_world Toy.gpt2_config)).
  reflexivity.
Defined.

Lemma sampling_decoding_composition_witness :
  map kind_of [RepetitionPenaltyLogitsProcessor (VFloat (12 # 10));
               TemperatureLogitsWarper (7 # 10);
               TopPLogitsWarper (VFloat (9 # 10));
               TopKLogitsWarper (VInt 50);
               TypicalLogitsWarper (VFloat (1 # 2))]
  = filter (λ k, present_non_default Toy.all_five k = true) PROCESSOR_ORDER
  ∧ _sampling_decoding [[1; 1]] [0] Toy.all_five 3 = (Ok 1, 18)
  ∧ ∃ procs, sampling_processors Toy.all_five = Ok procs.
Proof.
  destruct (sampling_decoding_composition Toy.all_five)
    as (Hlist & _ & Hbuilt & _).
  destruct (Hlist _ eq_refl) as (Hkinds & _ & _ & Hdraw).
  split; [exact Hkinds|]. split; [exact (Hdraw [[1; 1]] [0] 3)|].
  apply Hbuilt.
  - intros k v Hv. destruct k; vm_compute in Hv; injection Hv as <-;
      eexists; reflexivity.
  - intros k v Hv _. destruct k; vm_compute in Hv; injection Hv as <-;
      first [reflexivity | eexists; split; reflexivity].
Defined.

(** Values the constructors and the generator refuse: a temperature of 0,
    a negative [top_k], a [manual_seed] that is not an [int]. *)
Example refused_sampling_parameters :
  _sampling_decoding [[1; 1]] [0] {[ "temperature" := VInt 0 ]} 3
  = (Raise (ValueError "argument out of range"), 3)
  ∧ _sampling_decoding [[1; 1]] [0] {[ "top_k" := VInt (-1) ]} 3
    = (Raise (ValueError "argument out of range"), 3)
  ∧ _sampling_decoding [[1; 1]] [0] {[ "manual_seed" := VBool true ]} 3
    = (Raise RuntimeError, 3)
  ∧ _greedy_decoding [[1; 1]] [0] {[ "repetition_penalty" := VInt 2 ]}
    = Raise (ValueError "argument out of range")
  ∧ _sampling_decoding [[1; -1]] [0] {[ "do_sample" := VBool true ]} 3
    = (Raise RuntimeError, 3).
Proof. repeat split; reflexivity. Qed.

(** Same logits, same ids, same [manual_seed]: the token still follows the
    state of the default generator. *)
Example same_seed_different_tokens :
  _sampling_decoding [[1; 1]] [0] {[ "manual_seed" := VInt 7 ]} 0 = (Ok 0, 3)
  ∧ _sampling_decoding [[1; 1]] [0] {[ "manual_seed" := VInt 7 ]} 3 = (Ok 1, 18).
Proof. split; reflexivity. Qed.

Example toy_run_yields :
  yields Toy.toy_run = [["b"; "b"]; ["b"; "b"]; ["<pad>"; "b"]; ["<pad>"; "<pad>"]]
  ∧ Toy.toy_run.1.2 = Done
  ∧ map token_ids Toy.toy_run.1.1 = [[2; 2]; [2; 2]; [0; 2]; [0; 0]].
Proof. by vm_compute. Qed.

(** An encoder-decoder model takes the same loop; two new tokens at most. *)
Example seq2seq_run :
  let run := _hf_model_stream_generator 10 Toy.two_prompts None
               {[ "max_new_tokens" := VInt 2 ]} (Toy.toy_world Toy.t5_config) in
  yields run = [["b"; "b"]; ["b"; "b"]] ∧ run.1.2 = Done.
Proof. by vm_compute. Qed.

(** With [max_new_tokens=0] the attention mask of a causal model has no
    column for the first new token: the first step raises before its yield. *)
Example causal_run_without_room :
  let run := _hf_model_stream_generator 10 Toy.two_prompts None
               {[ "max_new_tokens" := VInt 0 ]} (Toy.toy_world Toy.gpt2_config) in
  yields run = [] ∧ run.1.2 = Raised IndexError.
Proof. by vm_compute. Qed.

(** A bound of [2 ** 63] tokens: the mask cannot be created, and the run
    ends before its first step with the exception of [new_zeros]. *)
Example oversized_mask :
  let run := _hf_model_stream_generator 10 Toy.two_prompts None
               {[ "max_new_tokens" := VInt (2 ^ 63) ]} (Toy.toy_world Toy.gpt2_config) in
  yields run = [] ∧ run.1.2 = Raised TypeError.
Proof. by vm_compute. Qed.

Lemma toy_run_eq :
  _hf_model_stream_generator 10 Toy.two_prompts None Toy.five_tokens
    (Toy.toy_world Toy.gpt2_config)
  = (Toy.toy_run.1.1, Toy.toy_run.1.2, Toy.toy_run.2).
Proof. change (Toy.toy_run = (Toy.toy_run.1.1, Toy.toy_run.1.2, Toy.toy_run.2)).
  by destruct Toy.toy_run as [[? ?] ?].
Qed.

Lemma generation_stops_at_first_stop_witness :
  Toy.toy_run.1.1 ≠ []
  ∧ should_stop 0 (prompt_count Toy.two_prompts) (max_new_tokens_of Toy.five_tokens)
                Toy.toy_run.1.1
  ∧ ¬ should_stop 0 (prompt_count Toy.two_prompts) (max_new_tokens_of Toy.five_tokens)
                  (take 3 Toy.toy_run.1.1).
Proof.
  destruct (generation_stops_at_first_stop 10 Toy.two_prompts None Toy.five_tokens
              (Toy.toy_world Toy.gpt2_config) Toy.toy_run.2 Toy.toy_run.1.1
              Toy.toy_run.1.2 0 toy_run_eq)
    as (_ & Hearlier & Hdone & _); [vm_compute; reflexivity|].
  destruct Hdone as [Hne Hstop]; [vm_compute; reflexivity|].
  split; [done|]. split; [done|].
  apply Hearlier. vm_compute. lia.
Defined.

Lemma finished_rows_stay_finished_witness :
  ∃ sk, Toy.toy_run.1.1 !! 3%nat = Some sk
        ∧ unfinished_sequences (after sk) !! 0%nat = Some 0
        ∧ yielded_ids sk !! 0%nat = Some 3.
Proof.
  assert (∃ sj, Toy.toy_run.1.1 !! 2%nat = Some sj ∧ token_ids sj !! 0%nat = Some 0)
    as (sj & Hj & Hemit) by (vm_compute; eexists; split; reflexivity).
  assert (∃ sk, Toy.toy_run.1.1 !! 3%nat = Some sk) as (sk & Hk)
    by (vm_compute; eexists; reflexivity).
  exists sk. split; [done|].
  refine (proj1 (proj2 (finished_rows_stay_finished 10 Toy.two_prompts None
            Toy.five_tokens (Toy.toy_world Toy.gpt2_config) Toy.toy_run.2
            Toy.toy_run.1.1 Toy.toy_run.1.2 0 3 toy_run_eq _ _
            2%nat 3%nat sj sk 0%nat Hj Hk _ _)) _).
  - vm_compute. reflexivity.
  - vm_compute. reflexivity.
  - lia.
  - cbn. lia.
  - exact Hemit.
Defined.

Lemma default_max_new_tokens_bound_witness :
  (length (yields Toy.default_run) ≤ 50)%nat ∧ Toy.default_run.1.2 ≠ OutOfFuel.
Proof.
  destruct (default_max_new_tokens_bound 60 Toy.two_prompts None ∅
              (Toy.toy_world Toy.gpt2_config))
    as (_ & _ & Hlen & Hfuel); [done|].
  split; [done|]. apply Hfuel. lia.
Defined.

(** One interleaving of the thread and the consumer for a generation that
    fails after two batches: both batches and the exception text arrive,
    in order, and then the iteration stops. *)
Lemma streamer_terminated_by_stop_signal_witness :
  ∃ s, rtc stream_step (use_hf_default_streamer Toy.toy_tokenizer Toy.failing_generate).2 s
       ∧ stopped s = true
       ∧ received s = [TextBatch ["b"]; TextBatch ["</s>"]; Text "boom"]
       ∧ received s
         = before_stop
             (map (enqueued (use_hf_default_streamer Toy.toy_tokenizer
                               Toy.failing_generate).1)
                  (thread (use_hf_default_streamer Toy.toy_tokenizer
                             Toy.failing_generate).2)).
Proof.
  assert (Hrun : rtc stream_step
            (use_hf_default_streamer Toy.toy_tokenizer Toy.failing_generate).2
            {| thread := [];
               streamer := {| started := true; hf_tokenizer := Toy.toy_tokenizer;
                              queue := [] |};
               received := [TextBatch ["b"]; TextBatch ["</s>"]; Text "boom"];
               stopped := true |}).
  { cbn.
    eapply rtc_l; [apply step_thread|]. cbn.
    eapply rtc_l; [by eapply step_next_value|]. cbn.
    eapply rtc_l; [apply step_thread|]. cbn.
    eapply rtc_l; [apply step_thread|]. cbn.
    eapply rtc_l; [by eapply step_next_value|]. cbn.
    eapply rtc_l; [by eapply step_next_value|]. cbn.
    eapply rtc_l; [apply step_thread|]. cbn.
    eapply rtc_l; [by eapply step_next_stop|]. cbn.
    apply rtc_refl. }
  eexists. split; [exact Hrun|]. split; [done|]. split; [done|].
  by apply (streamer_terminated_by_stop_signal Toy.toy_tokenizer Toy.failing_generate).
Defined.

(** ** Further runs of the small backend *)

Lemma run_eta (run : list Step * Outcome * World) : run = (run.1.1, run.1.2, run.2).
Proof. by destruct run as [[? ?] ?]. Qed.

Lemma greedy_run_keeps_generator_witness :
  w_rng (_hf_model_stream_generator 10 Toy.two_prompts None Toy.five_tokens
           (Toy.toy_world Toy.gpt2_config)).2
  = w_rng (Toy.toy_world Toy.gpt2_config).
Proof.
  apply (greedy_run_keeps_generator 10 Toy.two_prompts None Toy.five_tokens
           (Toy.toy_world Toy.gpt2_config)).
  vm_compute. discriminate.
Defined.

Lemma generator_call_trace_witness :
  ∃ partial,
    w_calls Toy.toy_run.2
    = w_calls (Toy.toy_world Toy.gpt2_config) ++ setup_calls Toy.five_tokens
      ++ concat (replicate (length Toy.toy_run.1.1)
                   (step_calls
                      (_get_generic_model_class
                         (config (w_model (Toy.toy_world Toy.gpt2_config)))).1
                      (engine_of Toy.five_tokens)))
      ++ partial
    ∧ partial `prefix_of` step_calls
                 (_get_generic_model_class
                    (config (w_model (Toy.toy_world Toy.gpt2_config)))).1
                 (engine_of Toy.five_tokens)
    ∧ (Toy.toy_run.1.2 = Done → partial = []).
Proof.
  apply (generator_call_trace 10 Toy.two_prompts None Toy.five_tokens
           (Toy.toy_world Toy.gpt2_config) Toy.toy_run.2 Toy.toy_run.1.1
           Toy.toy_run.1.2 greedy_decoding toy_run_eq).
  - vm_compute. reflexivity.
  - vm_compute. reflexivity.
Defined.

Example toy_run_calls :
  w_calls Toy.toy_run.2
  = [CallTokenizer; CallForward; CallBatchDecode; CallForward; CallBatchDecode;
     CallForward; CallBatchDecode; CallForward; CallBatchDecode].
Proof. vm_compute. reflexivity. Qed.

Lemma unfinished_rows_yield_their_token_witness :
  ∃ s, Toy.toy_run.1.1 !! 0%nat = Some s
       ∧ unfinished_sequences (after s) !! 0%nat = Some 1
       ∧ ∃ t, token_ids s !! 0%nat = Some t ∧ t ≠ 0 ∧ yielded_ids s !! 0%nat = Some t.
Proof.
  assert (∃ s, take 1 Toy.toy_run.1.1 = [s] ∧ Toy.toy_run.1.1 !! 0%nat = Some s
               ∧ token_ids s !! 0%nat = Some 2)
    as (s & Htake & Hs & Ht) by (vm_compute; eexists; repeat split; reflexivity).
  exists s. split; [done|].
  apply (unfinished_rows_yield_their_token 10 Toy.two_prompts None Toy.five_tokens
           (Toy.toy_world Toy.gpt2_config) Toy.toy_run.2 Toy.toy_run.1.1
           Toy.toy_run.1.2 0 0%nat s 0%nat toy_run_eq).
  - vm_compute. reflexivity.
  - exact Hs.
  - cbn. lia.
  - rewrite Htake. intros (s' & Hin & Hs').
    apply list_elem_of_singleton in Hin as ->. rewrite Ht in Hs'. discriminate.
Defined.

Lemma next_forward_inputs_witness :
  ∃ s, Toy.toy_run.1.1 !! 0%nat = Some s
       ∧ ∃ env st w1 ms,
           generator_setup Toy.two_prompts None Toy.five_tokens
             (Toy.toy_world Toy.gpt2_config) = (Ok (env, st), w1)
           ∧ model_states env st (state (w_model w1)) Toy.toy_run.1.1 !! 0%nat = Some ms
           ∧ past_key_values (after s)
             = Some (out_past_key_values
                       (forward_outputs env (final_state st (take 0 Toy.toy_run.1.1)) ms))
           ∧ input_ids (after s) = Some (column (yielded_ids s)).
Proof.
  assert (∃ s, Toy.toy_run.1.1 !! 0%nat = Some s) as (s & Hs)
    by (vm_compute; eexists; reflexivity).
  exists s. split; [done|].
  destruct (next_forward_inputs 10 Toy.two_prompts None Toy.five_tokens
              (Toy.toy_world Toy.gpt2_config) Toy.toy_run.2 Toy.toy_run.1.1
              Toy.toy_run.1.2 0%nat s toy_run_eq Hs)
    as (env & st & w1 & ms & Hsetup & Hms & Hrest).
  cbv zeta in Hrest. destruct Hrest as (Hnew & _ & Hcausal & _).
  exists env, st, w1, ms. split; [exact Hsetup|]. split; [exact Hms|].
  split; [apply Hnew | apply Hcausal]; vm_compute; reflexivity.
Defined.

(** The cache kept after each step is the one the model returned at that
    step: the small model returns the number of calls made before. *)
Example toy_run_cache :
  map (λ s, past_key_values (after s)) Toy.toy_run.1.1
  = [Some 0%nat; Some 1%nat; Some 2%nat; Some 3%nat].
Proof. vm_compute. reflexivity. Qed.

Lemma decoder_history_rows_witness :
  ∃ s, Toy.toy_run.1.1 !! 3%nat = Some s
       ∧ all_decoder_input_ids (after s) !! 0%nat
         = Some ([1; 2] ++ row_tokens 0 (take 4 Toy.toy_run.1.1))
       ∧ length (row_tokens 0 (take 4 Toy.toy_run.1.1)) = 4%nat.
Proof.
  assert (∃ s, Toy.toy_run.1.1 !! 3%nat = Some s) as (s & Hs)
    by (vm_compute; eexists; reflexivity).
  exists s. split; [done|].
  apply (decoder_history_rows 10 Toy.two_prompts None Toy.five_tokens
           (Toy.toy_world Toy.gpt2_config) Toy.toy_run.2 Toy.toy_run.1.1
           Toy.toy_run.1.2 3%nat s 0%nat [1; 2] toy_run_eq Hs).
  vm_compute. reflexivity.
Defined.

(** The history keeps the tokens as they were decoded: row 0 decodes
    [eos] (0) at the third and fourth step, although [pad] is yielded. *)
Example toy_run_history :
  row_tokens 0 Toy.toy_run.1.1 = [2; 2; 0; 0]
  ∧ map (λ s, yielded_ids s !! 0%nat) Toy.toy_run.1.1
    = [Some 2; Some 2; Some 3; Some 3].
Proof. vm_compute. split; reflexivity. Qed.

Lemma non_positive_max_new_tokens_witness :
  Toy.zero_run.1.1 = [] ∧ Toy.zero_run.1.2 ≠ Done ∧ ∃ e, Toy.zero_run.1.2 = Raised e.
Proof.
  destruct (non_positive_max_new_tokens 10 Toy.two_prompts None Toy.no_tokens
              (Toy.toy_world Toy.gpt2_config) Toy.zero_run.2 Toy.zero_run.1.1
              Toy.zero_run.1.2 0 (run_eta Toy.zero_run)) as [Hcausal _].
  - vm_compute. reflexivity.
  - lia.
  - destruct Hcausal as (Hnil & Hnot & Hraised); [vm_compute; reflexivity|].
    split; [done|]. split; [done|]. apply Hraised. lia.
Defined.

(** An encoder-decoder model with the same bound yields one batch. *)
Example seq2seq_run_without_room :
  yields (_hf_model_stream_generator 10 Toy.two_prompts None Toy.no_tokens
            (Toy.toy_world Toy.t5_config))
  = [["b"; "b"]].
Proof. vm_compute. reflexivity. Qed.

Lemma causal_mask_is_all_ones_witness :
  ∃ s, Toy.unpadded_run.1.1 !! 1%nat = Some s
    ∧ ∃ cols,
        mask_columns (prompt_width (w_tokenizer Toy.unpadded_run.2) Toy.two_prompts)
                     (max_new_tokens_of Toy.five_tokens) = Ok cols
        ∧ Z.of_nat (prompt_width (w_tokenizer Toy.unpadded_run.2) Toy.two_prompts + 2)
          <= cols
        ∧ curr_length (after s)
          = (prompt_width (w_tokenizer Toy.unpadded_run.2) Toy.two_prompts + 2)%nat
        ∧ attention_mask (after s)
          = replicate (length (prompts_of Toy.two_prompts))
              (replicate (prompt_width (w_tokenizer Toy.unpadded_run.2) Toy.two_prompts
                          + 2) 1
               ++ replicate
                    (Z.to_nat cols
                     - (prompt_width (w_tokenizer Toy.unpadded_run.2) Toy.two_prompts
                        + 2)) 0).
Proof.
  assert (∃ s, Toy.unpadded_run.1.1 !! 1%nat = Some s) as (s & Hs)
    by (vm_compute; eexists; reflexivity).
  exists s. split; [done|].
  apply (causal_mask_is_all_ones 10 Toy.two_prompts None Toy.five_tokens
           Toy.unpadded_world Toy.unpadded_run.2 Toy.unpadded_run.1.1
           Toy.unpadded_run.1.2 1%nat s (run_eta Toy.unpadded_run)).
  - vm_compute. reflexivity.
  - vm_compute. reflexivity.
  - exact Hs.
Defined.

Example unpadded_run_mask :
  map (λ s, attention_mask (after s)) (take 2 Toy.unpadded_run.1.1)
  = [[[1; 1; 1; 0; 0; 0; 0]; [1; 1; 1; 0; 0; 0; 0]];
     [[1; 1; 1; 1; 0; 0; 0]; [1; 1; 1; 1; 0; 0; 0]]].
Proof. vm_compute. reflexivity. Qed.

Lemma setup_failures_witness :
  setup_error Toy.two_prompts Toy.beam_search
    (config (w_model (Toy.toy_world Toy.gpt2_config)))
    (w_tokenizer (generator_setup Toy.two_prompts None Toy.beam_search
                    (Toy.toy_world Toy.gpt2_config)).2)
    (NotImplementedError "beam search is not supported yet!")
  ∧ w_calls (generator_setup Toy.two_prompts None Toy.beam_search
               (Toy.toy_world Toy.gpt2_config)).2
    = [CallTokenizer].
Proof.
  destruct (setup_failures Toy.two_prompts None Toy.beam_search
              (Toy.toy_world Toy.gpt2_config)
              (generator_setup Toy.two_prompts None Toy.beam_search
                 (Toy.toy_world Toy.gpt2_config)).2
              (NotImplementedError "beam search is not supported yet!"))
    as (Herr & _ & _ & _).
  - vm_compute. reflexivity.
  - split; [exact Herr|]. vm_compute. reflexivity.
Defined.


Lemma sampling_decoding_failures_witness :
  (3 : Z) = 3
  ∧ ((∃ p, present_non_default Toy.zero_temperature (kind_of p) = true
           ∧ built_from Toy.zero_temperature p
           ∧ processor_error p = Some (ValueError "argument out of range"))
     ∨ (∃ v, Toy.zero_temperature !! "temperature" = Some v ∧ py_ne v 1 = true
             ∧ py_float v = Raise (ValueError "argument out of range"))
     ∨ (∃ v, Toy.zero_temperature !! "top_p" = Some v ∧ as_number v = None
             ∧ ValueError "argument out of range" = TypeError)
     ∨ (∃ v, Toy.zero_temperature !! "typical_p" = Some v ∧ as_number v = None
             ∧ ValueError "argument out of range" = TypeError)
     ∨ (∃ v, Toy.zero_temperature !! "manual_seed" = Some v
             ∧ seeded_generator v = Raise (ValueError "argument out of range"))
     ∨ (∃ procs, sampling_processors Toy.zero_temperature = Ok procs
          ∧ draw_error (softmax (fold_left (λ sc p, call_processor p [0] sc) procs
                                           (last_scores [[1; 1]])))
            = Some (ValueError "argument out of range"))).
Proof.
  apply (@sampling_decoding_failures Toy.toy_torch Toy.toy_transformers
           [[1; 1]] [0] Toy.zero_temperature 3 3
           (ValueError "argument out of range")).
  reflexivity.
Defined.

Lemma tokenizer_mask_is_kept_witness :
  ∃ s, Toy.toy_run.1.1 !! 1%nat = Some s
    ∧ ∃ cols,
        mask_columns (prompt_width (w_tokenizer Toy.toy_run.2) Toy.two_prompts)
                     (max_new_tokens_of Toy.five_tokens) = Ok cols
        ∧ attention_mask (after s)
          = map (λ row, row ++ replicate 2 1
                        ++ replicate
                             (Z.to_nat cols
                              - (prompt_width (w_tokenizer Toy.toy_run.2) Toy.two_prompts
                                 + 2)) 0)
                (tk_attention_mask
                   (tokenize (w_tokenizer Toy.toy_run.2) (prompts_of Toy.two_prompts))).
Proof.
  assert (∃ s, Toy.toy_run.1.1 !! 1%nat = Some s) as (s & Hs)
    by (vm_compute; eexists; reflexivity).
  exists s. split; [done|].
  apply (tokenizer_mask_is_kept 10 Toy.two_prompts None Toy.five_tokens
           (Toy.toy_world Toy.gpt2_config) Toy.toy_run.2 Toy.toy_run.1.1
           Toy.toy_run.1.2 1%nat s toy_run_eq Hs).
  - vm_compute. reflexivity.
  - intros Hsame. vm_compute in Hsame. discriminate.
  - vm_compute. reflexivity.
  - vm_compute. repeat constructor.
Defined.


Lemma streamer_started_flag_witness :
  (∃ made,
     thread (use_hf_default_streamer Toy.toy_tokenizer Toy.failing_generate).2
     = made ++ thread Toy.drained
     ∧ (started (streamer Toy.drained) = true ↔ ∃ value, DoPut value ∈ made))
  ∧ (∃ made,
       thread (use_hf_default_streamer Toy.toy_tokenizer Toy.failing_at_once).2
       = made ++ thread Toy.unread
       ∧ (started (streamer Toy.unread) = true ↔ ∃ value, DoPut value ∈ made)).
Proof.
  split.
  - apply (streamer_started_flag Toy.toy_tokenizer Toy.failing_generate Toy.drained).
    cbn.
    eapply rtc_l; [apply step_thread|]. cbn.
    eapply rtc_l; [by eapply step_next_value|]. cbn.
    eapply rtc_l; [apply step_thread|]. cbn.
    eapply rtc_l; [apply step_thread|]. cbn.
    eapply rtc_l; [by eapply step_next_value|]. cbn.
    eapply rtc_l; [by eapply step_next_value|]. cbn.
    eapply rtc_l; [apply step_thread|]. cbn.
    eapply rtc_l; [by eapply step_next_stop|]. cbn.
    apply rtc_refl.
  - apply (streamer_started_flag Toy.toy_tokenizer Toy.failing_at_once Toy.unread).
    cbn.
    eapply rtc_l; [apply step_thread|]. cbn.
    eapply rtc_l; [apply step_thread|]. cbn.
    apply rtc_refl.
Defined.

Lemma sampling_extends_greedy_witness :
  ∃ base warpers,
    greedy_processors Toy.all_five = Ok base
    ∧ [RepetitionPenaltyLogitsProcessor (VFloat (12 # 10));
       TemperatureLogitsWarper (7 # 10);
       TopPLogitsWarper (VFloat (9 # 10));
       TopKLogitsWarper (VInt 50);
       TypicalLogitsWarper (VFloat (1 # 2))]
      = base ++ warpers
    ∧ Forall (λ p, kind_of p ≠ KRepetitionPenalty) warpers
    ∧ ((∀ param, param ∈ SAMPLING_PARAMS → Toy.all_five !! param = None) → warpers = []).
Proof.
  apply (@sampling_extends_greedy Toy.toy_torch Toy.toy_transformers Toy.all_five).
  reflexivity.
Defined.

Lemma greedy_run_ignores_generator_witness :
  _hf_model_stream_generator 10 Toy.two_prompts None Toy.five_tokens
    (set_rng 7 (Toy.toy_world Toy.gpt2_config))
  = ((_hf_model_stream_generator 10 Toy.two_prompts None Toy.five_tokens
        (Toy.toy_world Toy.gpt2_config)).1,
     set_rng 7 (_hf_model_stream_generator 10 Toy.two_prompts None Toy.five_tokens
                  (Toy.toy_world Toy.gpt2_config)).2).
Proof.
  apply (greedy_run_ignores_generator 10 Toy.two_prompts None Toy.five_tokens
           (Toy.toy_world Toy.gpt2_config) 7).
  vm_compute. discriminate.
Defined.
